(** * emcc-sandboxd: a shallow embedding of the sandboxed compile service

    The Go sources embedded here are [src/args.go] (argument filter),
    [src/cleanup.go] (artifact reclaimer), [src/config.go] and
    [src/types.go] (configuration and payloads), the resource-gating file
    ([ensureMemBudget], [acquireMemory], [releaseMemory] and the cgroup
    probes), the request handler ([HandleCompile], [randomID]) and the
    server ([NewServer], [ensureDirs]).

    Conventions.  A Go [string] is a sequence of bytes: it is a [string] of
    the Standard Library, one [ascii] per byte.  A Go [int64] (and
    [time.Duration], and [int] on a 64-bit target) is a [Z] kept in range by
    [Int64.wrap]; every addition, subtraction and multiplication of the
    source is written with its wrap-around.  What the operating system or
    the Go runtime decides (file contents, the clock, which [select] case
    fires, the compiler's exit status) is an explicit argument. *)

From Stdlib Require Import ZArith List Bool Ascii String Lia.
Import ListNotations.

Local Open Scope string_scope.
Local Open Scope Z_scope.

(* ================================================================= *)
(** ** Signed 64-bit arithmetic *)

Module Int64.

Definition modulus : Z := 2 ^ 64.
Definition max_int : Z := 2 ^ 63 - 1.
Definition min_int : Z := - 2 ^ 63.

(** Two's complement reduction of an integer to the [int64] range. *)
Definition wrap (x : Z) : Z := (x + 2 ^ 63) mod modulus - 2 ^ 63.

Definition add (x y : Z) : Z := wrap (x + y).
Definition sub (x y : Z) : Z := wrap (x - y).
Definition mul (x y : Z) : Z := wrap (x * y).

Definition in_range (x : Z) : Prop := min_int <= x <= max_int.

End Int64.

(* ================================================================= *)
(** ** The functions of Go's [strings] package that the service calls *)

Module GoStrings.

(** [strings.HasPrefix(s, p)]. *)
Definition HasPrefix (s p : string) : bool := String.prefix p s.

(** [strings.Contains(s, sub)]: [sub] occurs at some byte offset of [s]. *)
Fixpoint Contains (s sub : string) : bool :=
  String.prefix sub s ||
  match s with
  | EmptyString => false
  | String _ s' => Contains s' sub
  end.

Definition byte (n : nat) : ascii := ascii_of_nat n.

(** The six ASCII bytes of Go's [asciiSpace] table:
    tab, line feed, vertical tab, form feed, carriage return, space. *)
Definition asciiSpace (c : ascii) : bool :=
  let n := nat_of_ascii c in
  (Nat.eqb n 9 || Nat.eqb n 10 || Nat.eqb n 11 || Nat.eqb n 12
   || Nat.eqb n 13 || Nat.eqb n 32)%bool.

Definition bytes (l : list nat) : string :=
  fold_right (fun n s => String (byte n) s) EmptyString l.

(** UTF-8 encodings of the code points above U+007F for which
    [unicode.IsSpace] holds: U+0085, U+00A0, U+1680, U+2000..U+200A,
    U+2028, U+2029, U+202F, U+205F and U+3000. *)
Definition unicodeSpaces : list string :=
  map bytes
    [ [194; 133]; [194; 160]; [225; 154; 128];
      [226; 128; 128]; [226; 128; 129]; [226; 128; 130]; [226; 128; 131];
      [226; 128; 132]; [226; 128; 133]; [226; 128; 134]; [226; 128; 135];
      [226; 128; 136]; [226; 128; 137]; [226; 128; 138];
      [226; 128; 168]; [226; 128; 169]; [226; 128; 175];
      [226; 129; 159]; [227; 128; 128] ]%nat.

Fixpoint dropBytes (n : nat) (s : string) : string :=
  match n, s with
  | O, _ => s
  | S n', String _ s' => dropBytes n' s'
  | S _, EmptyString => EmptyString
  end.

(** Width in bytes of the white-space rune that [s] starts with, if any. *)
Definition leadingSpace (s : string) : option nat :=
  match s with
  | EmptyString => None
  | String c _ =>
      if asciiSpace c then Some 1%nat
      else
        match find (fun e => String.prefix e s) unicodeSpaces with
        | Some e => Some (String.length e)
        | None => None
        end
  end.

Fixpoint trimLeftFuel (fuel : nat) (s : string) : string :=
  match fuel with
  | O => s
  | S fuel' =>
      match leadingSpace s with
      | Some w => trimLeftFuel fuel' (dropBytes w s)
      | None => s
      end
  end.

Definition TrimLeftSpace (s : string) : string :=
  trimLeftFuel (String.length s) s.

Fixpoint rev (s : string) : string :=
  match s with
  | EmptyString => EmptyString
  | String c s' => rev s' ++ String c EmptyString
  end.

(** Width of the white-space rune that [s] ends with, read on the
    reversed string. *)
Definition trailingSpace (r : string) : option nat :=
  match r with
  | EmptyString => None
  | String c _ =>
      if asciiSpace c then Some 1%nat
      else
        match find (fun e => String.prefix (rev e) r) unicodeSpaces with
        | Some e => Some (String.length e)
        | None => None
        end
  end.

Fixpoint trimRightFuel (fuel : nat) (r : string) : string :=
  match fuel with
  | O => r
  | S fuel' =>
      match trailingSpace r with
      | Some w => trimRightFuel fuel' (dropBytes w r)
      | None => r
      end
  end.

Definition TrimRightSpace (s : string) : string :=
  rev (trimRightFuel (String.length s) (rev s)).

(** [strings.TrimSpace(s)]: [s] without its leading and trailing white
    space, as defined by Unicode. *)
Definition TrimSpace (s : string) : string :=
  TrimRightSpace (TrimLeftSpace s).

(** [strings.ToLower] on the bytes below 0x80.  Bytes from 0x80 on are
    kept: Go maps the runes they encode to other runes above U+007F,
    except U+0130 and U+212A which become [i] and [k]; none of that can
    produce one of the letters [c], [p] or the sign [+]. *)
Definition lowerByte (c : ascii) : ascii :=
  let n := nat_of_ascii c in
  if (Nat.leb 65 n && Nat.leb n 90)%bool then ascii_of_nat (n + 32) else c.

Fixpoint ToLower (s : string) : string :=
  match s with
  | EmptyString => EmptyString
  | String c s' => String (lowerByte c) (ToLower s')
  end.

End GoStrings.

Import GoStrings.

(* ================================================================= *)
(** ** [types.go] and [config.go] *)

(** [time.Duration]: a count of nanoseconds in an [int64]. *)
Definition Duration := Z.
Definition Nanosecond : Duration := 1.
Definition Millisecond : Duration := 1000000.
Definition Second : Duration := 1000 * Millisecond.
Definition Minute : Duration := 60 * Second.
Definition Hour : Duration := 60 * Minute.

Record Config := mkConfig {
  WorkingDir : string;
  Addr : string;
  BaseDir : string;
  JobsDir : string;
  ArtifactsDir : string;
  EnableStaticArtifacts : bool;
  ArtifactTTL : Duration;
  ArtifactTTLDays : Z;
  CleanupIntervalMins : Z;
  DefaultArgs : list string;
  NsJailEnabled : bool;
  NsJailPath : string;
  CgroupV2Root : string;
  EnableResourceGating : bool;
  JobMemoryEstimateMB : Z
}.

Record CompileRequest := mkCompileRequest {
  Code : string;
  Type_ : string;
  Args : list string
}.

Record CompileResponse := mkCompileResponse {
  OK : bool;
  ID : string;
  JS : string;
  WASM : string;
  Error : string
}.

Definition DefaultConfig : Config := {|
  WorkingDir := "/srv/emcc-sandboxd";
  Addr := ":8080";
  BaseDir := ".";
  JobsDir := "jobs";
  ArtifactsDir := "artifacts";
  EnableStaticArtifacts := true;
  ArtifactTTL := 0;
  ArtifactTTLDays := 3;
  CleanupIntervalMins := 30;
  DefaultArgs :=
    [ "-sINVOKE_RUN=0"; "-sENVIRONMENT=web";
      "-sALLOW_MEMORY_GROWTH=1"; "-sMODULARIZE=1" ];
  NsJailEnabled := false;
  NsJailPath := "nsjail";
  CgroupV2Root := "cgroup";
  EnableResourceGating := false;
  JobMemoryEstimateMB := 256
|}.

(** [time.Duration(days) * 24 * time.Hour], as [LoadConfig], [NewServer]
    and [StartCleanupLoop] compute it. *)
Definition ttlOfDays (days : Z) : Duration :=
  Int64.mul (Int64.mul days 24) Hour.

Definition setArtifactTTL (cfg : Config) (d : Duration) : Config := {|
  WorkingDir := WorkingDir cfg;
  Addr := Addr cfg;
  BaseDir := BaseDir cfg;
  JobsDir := JobsDir cfg;
  ArtifactsDir := ArtifactsDir cfg;
  EnableStaticArtifacts := EnableStaticArtifacts cfg;
  ArtifactTTL := d;
  ArtifactTTLDays := ArtifactTTLDays cfg;
  CleanupIntervalMins := CleanupIntervalMins cfg;
  DefaultArgs := DefaultArgs cfg;
  NsJailEnabled := NsJailEnabled cfg;
  NsJailPath := NsJailPath cfg;
  CgroupV2Root := CgroupV2Root cfg;
  EnableResourceGating := EnableResourceGating cfg;
  JobMemoryEstimateMB := JobMemoryEstimateMB cfg
|}.

Definition setArtifactTTLDays (cfg : Config) (days : Z) : Config := {|
  WorkingDir := WorkingDir cfg;
  Addr := Addr cfg;
  BaseDir := BaseDir cfg;
  JobsDir := JobsDir cfg;
  ArtifactsDir := ArtifactsDir cfg;
  EnableStaticArtifacts := EnableStaticArtifacts cfg;
  ArtifactTTL := ArtifactTTL cfg;
  ArtifactTTLDays := days;
  CleanupIntervalMins := CleanupIntervalMins cfg;
  DefaultArgs := DefaultArgs cfg;
  NsJailEnabled := NsJailEnabled cfg;
  NsJailPath := NsJailPath cfg;
  CgroupV2Root := CgroupV2Root cfg;
  EnableResourceGating := EnableResourceGating cfg;
  JobMemoryEstimateMB := JobMemoryEstimateMB cfg
|}.

(** [LoadConfig] once the file, when there is one, has been decoded into
    the defaults: [decoded] is [None] when [config.json] cannot be opened
    (the defaults are returned as they are) and the decoded configuration
    otherwise, whose TTL is then derived from the day count. *)
Definition LoadConfig (decoded : option Config) : Config :=
  match decoded with
  | None => DefaultConfig
  | Some cfg => setArtifactTTL cfg (ttlOfDays (ArtifactTTLDays cfg))
  end.

(* ================================================================= *)
(** ** [args.go]: the argument filter *)

Module ArgFilter.

Definition allowedPrefix : list string :=
  [ "-O0"; "-O1"; "-O2"; "-O3"; "-Os"; "-Oz";
    "-g"; "-g4";
    "-sMODULARIZE=";
    "-sENVIRONMENT=";
    "-sINVOKE_RUN=";
    "-sEXPORTED_FUNCTIONS=";
    "-sEXPORTED_RUNTIME_METHODS=";
    "-sALLOW_MEMORY_GROWTH=";
    "--preload-file";
    "--embed-file";
    "--source-map-base" ].

Definition blocked : list string :=
  [ "-o"; "--shell-file"; "-sFORCE_FILESYSTEM"; "-sENVIRONMENT=node" ].

(** [isBlockedArg]: some [b] of the list is [a] itself or makes [b=] a
    prefix of [a]. *)
Definition isBlockedArg (a : string) (blocked : list string) : bool :=
  existsb (fun b => (a =? b)%string || HasPrefix a (b ++ "=")) blocked.

(** [isAllowedArg]: some [p] of the list is a prefix of [a] or [a]
    itself. *)
Definition isAllowedArg (a : string) (allowed : list string) : bool :=
  existsb (fun p => HasPrefix a p || (a =? p)%string) allowed.

(** [safeArgPath]: neither absolute nor holding a parent escape. *)
Definition safeArgPath (p : string) : bool :=
  if HasPrefix p "/" then false
  else if Contains p ".." then false
  else true.

(** The test [a == "--preload-file" || a == "--embed-file" ||
    a == "--source-map-base"] of the loop. *)
Definition isPairFlag (a : string) : bool :=
  (a =? "--preload-file")%string || (a =? "--embed-file")%string
  || (a =? "--source-map-base")%string.

(** The tail of the loop body, reached by a token that did not open a
    pair: dropped when blocked, appended when allowed, dropped
    otherwise. *)
Definition filterSingle (a : string) (result : list string) : list string :=
  if isBlockedArg a blocked then result
  else if isAllowedArg a allowedPrefix then result ++ [a]
  else result.

(** The loop [for i := 0; i < len(user); i++] of [MergeAndFilterArgs].
    The first argument is [user[i:]], the tokens not yet visited; the
    second is [result].  A pair advances [i] twice. *)
Fixpoint filterLoop (user : list string) (result : list string)
  : list string :=
  match user with
  | [] => result
  | u :: rest =>
      let a := TrimSpace u in
      if (a =? "")%string then filterLoop rest result
      else if isPairFlag a then
        match rest with
        | n :: rest' =>
            let next := TrimSpace n in
            if negb (safeArgPath next) then filterLoop rest' result
            else filterLoop rest' (result ++ [a; next])
        | [] => filterLoop rest (filterSingle a result)
        end
      else filterLoop rest (filterSingle a result)
  end.

Definition MergeAndFilterArgs (cfg : Config) (user : list string)
  : list string :=
  filterLoop user ([] ++ DefaultArgs cfg).

(** *** The same loop, recording how each token entered the result

    [MergeAndFilterArgs] returns bare tokens.  To speak of "the token
    accepted as the value of a pair" the loop is run a second time with
    every token labelled by the statement that appended it; erasing the
    labels gives back [MergeAndFilterArgs] ([tagged_erase] below). *)

Inductive Origin :=
| FromDefaults   (* copied from [cfg.DefaultArgs] *)
| Single         (* [result = append(result, a)] *)
| PairFlag       (* the [a] of [result = append(result, a, next)] *)
| PairValue.     (* the [next] of [result = append(result, a, next)] *)

Definition filterSingleTagged (a : string) (result : list (Origin * string))
  : list (Origin * string) :=
  if isBlockedArg a blocked then result
  else if isAllowedArg a allowedPrefix then result ++ [(Single, a)]
  else result.

Fixpoint filterLoopTagged (user : list string)
  (result : list (Origin * string)) : list (Origin * string) :=
  match user with
  | [] => result
  | u :: rest =>
      let a := TrimSpace u in
      if (a =? "")%string then filterLoopTagged rest result
      else if isPairFlag a then
        match rest with
        | n :: rest' =>
            let next := TrimSpace n in
            if negb (safeArgPath next) then filterLoopTagged rest' result
            else filterLoopTagged rest'
                   (result ++ [(PairFlag, a); (PairValue, next)])
        | [] => filterLoopTagged rest (filterSingleTagged a result)
        end
      else filterLoopTagged rest (filterSingleTagged a result)
  end.

Definition MergeAndFilterArgsTagged (cfg : Config) (user : list string)
  : list (Origin * string) :=
  filterLoopTagged user (map (pair FromDefaults) (DefaultArgs cfg)).

(** The shape of what the loop appends: accepted single tokens, and
    pairs of a flag and a path-safe value, in input order. *)
Inductive accepted : list (Origin * string) -> Prop :=
| accepted_nil : accepted []
| accepted_single a l :
    isBlockedArg a blocked = false ->
    isAllowedArg a allowedPrefix = true ->
    accepted l ->
    accepted ((Single, a) :: l)
| accepted_pair f v l :
    isPairFlag f = true ->
    safeArgPath v = true ->
    accepted l ->
    accepted ((PairFlag, f) :: (PairValue, v) :: l).

(** A token that is the standalone [-o] or begins with [-o=]. *)
Definition isDashO (tok : string) : bool :=
  (tok =? "-o")%string || HasPrefix tok "-o=".

(** Whether the loop, having read the tokens of [pre], stands at the
    token that follows them: the index [i] moves by one past a token
    read alone and by two past a flag read with its candidate value, so a
    prefix that ends with a flag still waiting for its value is not read
    whole. *)
Fixpoint readsWhole (pre : list string) : bool :=
  match pre with
  | [] => true
  | u :: rest =>
      let a := TrimSpace u in
      if (a =? "")%string then readsWhole rest
      else if isPairFlag a then
        match rest with
        | _ :: rest' => readsWhole rest'
        | [] => false
        end
      else readsWhole rest
  end.

End ArgFilter.

(* ================================================================= *)
(** ** [server.go]: the server and its gating state *)

Record Server := mkServer {
  cfg : Config;
  (* resource gating state, guarded by [mu] *)
  memBudgetBytes : Z;
  memReservedBytes : Z
}.

Definition NewServer (c : Config) : Server := {|
  cfg := if ArtifactTTL c =? 0
         then setArtifactTTL c (ttlOfDays (ArtifactTTLDays c))
         else c;
  memBudgetBytes := 0;
  memReservedBytes := 0
|}.

Definition setCfg (s : Server) (c : Config) : Server := {|
  cfg := c;
  memBudgetBytes := memBudgetBytes s;
  memReservedBytes := memReservedBytes s
|}.

Definition setBudget (s : Server) (b : Z) : Server := {|
  cfg := cfg s;
  memBudgetBytes := b;
  memReservedBytes := memReservedBytes s
|}.

Definition setReserved (s : Server) (r : Z) : Server := {|
  cfg := cfg s;
  memBudgetBytes := memBudgetBytes s;
  memReservedBytes := r
|}.

(* ================================================================= *)
(** ** [cleanup.go]: the artifact reclaimer *)

Module Cleanup.

(** A [time.Time], as nanoseconds since a fixed instant. *)
Definition Time := Z.

(** [t.Sub(u)]: the difference as a [Duration], saturated at the
    smallest and the largest [int64]. *)
Definition Sub (t u : Time) : Duration :=
  let d := t - u in
  if d <? Int64.min_int then Int64.min_int
  else if Int64.max_int <? d then Int64.max_int
  else d.

Record FileInfo := mkFileInfo {
  IsDir : bool;
  ModTime : Time
}.

(** One child of the artifacts directory as the loop sees it: the name
    [e.Name()], what [os.Stat] answers for it ([None] for an error) and
    the clock at the instant [time.Since] is evaluated for it. *)
Record Entry := mkEntry {
  Name : string;
  Stat : option FileInfo;
  Now : Time
}.

(** What [StartCleanupLoop] fixes before it starts the goroutine. *)
Record Loop := mkLoop {
  interval : Duration;
  ttl : Duration
}.

Definition StartCleanupLoop (s : Server) : Server * Loop :=
  let c := cfg s in
  let c := if ArtifactTTL c <=? 0
           then setArtifactTTL c (ttlOfDays (ArtifactTTLDays c))
           else c in
  let interval := Int64.mul (CleanupIntervalMins c) Minute in
  let interval := if interval <=? 0 then Int64.mul 30 Minute else interval in
  (setCfg s c, {| interval := interval; ttl := ArtifactTTL c |}).

(** The body of [for _, e := range entries]: is [os.RemoveAll] called
    on this child? *)
Definition removes (ttl : Duration) (e : Entry) : bool :=
  match Stat e with
  | None => false
  | Some fi =>
      if negb (IsDir fi) then false
      else ttl <? Sub (Now e) (ModTime fi)
  end.

(** One round of the [for] loop: [entries] is what [os.ReadDir] answers
    ([None] for an error); the result lists the children handed to
    [os.RemoveAll], in order. *)
Definition scan (ttl : Duration) (entries : option (list Entry))
  : list string :=
  match entries with
  | None => []
  | Some es => map Name (filter (removes ttl) es)
  end.

(** The goroutine: a first round at once, then one per tick.  [rounds]
    holds what [os.ReadDir] answers in each round; the result holds the
    removals of each round. *)
Definition cleanupLoop (l : Loop) (rounds : list (option (list Entry)))
  : list (list string) :=
  map (scan (ttl l)) rounds.

End Cleanup.

(* ================================================================= *)
(** ** Resource gating: the cgroup probes and the admission counters *)

Module Gating.

(** Why [fmt.Sscanf(s, "%d", &v)] fails. *)
Inductive ScanFailure :=
| UnexpectedEOF                   (* no input left *)
| ExpectedInteger                 (* no digit where one is due *)
| OutOfRange (tok : string).      (* [strconv.ParseInt]: value out of range *)

Inductive error :=
| errCgroupRootNotSet             (* [fmt.Errorf("cgroup root not set")] *)
| errOS (msg : string)            (* an error of package [os] *)
| errScan (why : ScanFailure)     (* an error of [fmt.Sscanf] *)
| errContext (msg : string).      (* [ctx.Err()] *)

Inductive result (A : Type) :=
| Ok (a : A)
| Err (e : error).
Arguments Ok {A} a.
Arguments Err {A} e.

(** *** [fmt.Sscanf] with the verb [%d] *)

Definition isDecimalDigit (c : ascii) : bool :=
  let n := nat_of_ascii c in (Nat.leb 48 n && Nat.leb n 57)%bool.

Definition isSign (c : ascii) : bool :=
  let n := nat_of_ascii c in (Nat.eqb n 43 || Nat.eqb n 45)%bool.

(** [scanNumber] of package [fmt] for the verb [%d]: the longest prefix
    of [s] made of the decimal digits [0123456789], the only characters
    the scanner accepts in the number. *)
Fixpoint scanNumber (s : string) : string :=
  match s with
  | EmptyString => EmptyString
  | String c s' =>
      if isDecimalDigit c then String c (scanNumber s') else EmptyString
  end.

Fixpoint decimalValue (acc : Z) (s : string) : Z :=
  match s with
  | EmptyString => acc
  | String c s' =>
      decimalValue (10 * acc + Z.of_nat (nat_of_ascii c - 48)) s'
  end.

(** [fmt.Sscanf(s, "%d", &v)] on a text without leading white space
    (both callers pass the result of [strings.TrimSpace]): an optional
    sign, then the digits up to the first character that is not one;
    the token goes to [strconv.ParseInt(tok, 10, 64)], which fails on a
    value outside [int64].  The scan stops at the first character that
    is not a digit, and what follows the number is not looked at. *)
Definition Sscanf_d (s : string) : result Z :=
  match s with
  | EmptyString => Err (errScan UnexpectedEOF)
  | String c rest =>
      let sign := if isSign c then String c EmptyString else EmptyString in
      let body := if isSign c then rest else s in
      match body with
      | EmptyString => Err (errScan UnexpectedEOF)
      | String _ _ =>
          let digits := scanNumber body in
          let tok := (sign ++ digits)%string in
          if (digits =? "")%string then Err (errScan ExpectedInteger)
          else
            let v := if (sign =? "-")%string
                     then - decimalValue 0 digits
                     else decimalValue 0 digits in
            if (Int64.min_int <=? v) && (v <=? Int64.max_int)
            then Ok v
            else Err (errScan (OutOfRange tok))
      end
  end.

(** Texts made of decimal digits only, and texts that begin with a
    decimal digit. *)
Fixpoint allDigits (s : string) : bool :=
  match s with
  | EmptyString => true
  | String c s' => isDecimalDigit c && allDigits s'
  end.

Definition startsWithDigit (s : string) : bool :=
  match s with
  | EmptyString => false
  | String c _ => isDecimalDigit c
  end.

(** *** The files of the cgroup directory

    [readFile dir name] is what [os.ReadFile(filepath.Join(dir, name))]
    answers: the bytes of the file or the error of the operating
    system. *)
Definition Files := string -> string -> result string.

Definition readCgroupMemoryMax (readFile : Files) (root : string)
  : result Z :=
  if (root =? "")%string then Err errCgroupRootNotSet
  else
    match readFile root "memory.max" with
    | Err e => Err e
    | Ok b =>
        let s := TrimSpace b in
        if (s =? "max")%string then Ok 0
        else
          match Sscanf_d s with
          | Err e => Err e
          | Ok v => Ok v
          end
    end.

Definition readCgroupMemoryCurrent (readFile : Files) (root : string)
  : result Z :=
  match readFile root "memory.current" with
  | Err e => Err e
  | Ok b =>
      match Sscanf_d (TrimSpace b) with
      | Err e => Err e
      | Ok v => Ok v
      end
  end.

(** *** The admission counters *)

Definition ensureMemBudget (readFile : Files) (s : Server)
  : Server * option error :=
  if 0 <? memBudgetBytes s then (s, None)
  else
    match readCgroupMemoryMax readFile (CgroupV2Root (cfg s)) with
    | Err e => (s, Some e)
    | Ok max =>
        if max <=? 0 then (setBudget s 0, None)
        else (setBudget s max, None)
    end.

(** The critical section [s.memReservedBytes += estimateBytes]. *)
Definition reserve (s : Server) (estimateBytes : Z) : Server :=
  setReserved s (Int64.add (memReservedBytes s) estimateBytes).

(** The test [cur+s.memReservedBytes+estimateBytes <= max], in [int64]
    arithmetic. *)
Definition fits (s : Server) (cur estimateBytes max : Z) : bool :=
  Int64.add (Int64.add cur (memReservedBytes s)) estimateBytes <=? max.

(** Which case of [select] fires while the loop waits. *)
Inductive Selected :=
| CtxDone (err : error)   (* [<-ctx.Done()], then [return ctx.Err()] *)
| Tick.                   (* [<-ticker.C] *)

(** The period handed to [time.NewTicker]. *)
Definition tickerPeriod : Duration := Int64.mul 200 Millisecond.

(** What one round of the loop of [acquireMemory] finds outside the
    server: the cgroup files at the instant of the probe and, should
    the round end in a [select], the case that fires. *)
Record Attempt := mkAttempt {
  files : Files;
  selected : Selected
}.

(** How a call stands once the rounds described by the caller are
    used up. *)
Inductive Outcome :=
| Returned (s : Server) (err : option error)
| Waiting (s : Server).   (* blocked in [select] *)

(** The [select] that ends a round without a grant. *)
Definition wait (w : Attempt) (s : Server) (retry : Server -> Outcome)
  : Outcome :=
  match selected w with
  | CtxDone e => Returned s (Some e)
  | Tick => retry s
  end.

(** [acquireMemory], run without interference: [world] describes the
    successive rounds of the [for] loop. *)
Fixpoint acquireMemory (world : list Attempt) (s : Server)
  (estimateBytes : Z) : Outcome :=
  let max := memBudgetBytes s in
  if max =? 0 then Returned (reserve s estimateBytes) None
  else
    match world with
    | [] => Waiting s
    | w :: world' =>
        let retry := fun s => acquireMemory world' s estimateBytes in
        match readCgroupMemoryCurrent (files w) (CgroupV2Root (cfg s)) with
        | Err _ => wait w s retry
        | Ok cur =>
            if fits s cur estimateBytes max
            then Returned (reserve s estimateBytes) None
            else wait w s retry
        end
    end.

Definition releaseMemory (s : Server) (estimateBytes : Z) : Server :=
  if memReservedBytes s <? estimateBytes then setReserved s 0
  else setReserved s (Int64.sub (memReservedBytes s) estimateBytes).

End Gating.

(* ================================================================= *)
(** ** Calls of [acquireMemory] and [releaseMemory] running together

    The counters are only touched with [mu] held, so a run of several
    goroutines is a sequence of steps, each one the stretch of code of one
    goroutine up to and including its next access to the counters (or its
    next wait).  [Interleaving] cuts [acquireMemory] at these points. *)

Module Interleaving.
Import Gating.

(** Where a call of [acquireMemory] stands. *)
Inductive Point :=
| AtLoopHead              (* next: lock, [max := s.memBudgetBytes], unlock *)
| AtReserve               (* [max == 0]; next: lock, add, unlock, return *)
| AtProbe (max : Z)       (* next: [readCgroupMemoryCurrent] *)
| AtTest (max cur : Z)    (* next: lock, test, add on success, unlock *)
| AtSelect.               (* next: [select] *)

Inductive Call :=
| Acquire (estimateBytes : Z) (world : list Attempt)
| Release (estimateBytes : Z).

(** A goroutine: the call of [acquireMemory] it is in, if any, with the
    rounds that call has not used yet; the calls it goes on to make; and
    what its calls of [acquireMemory] have returned so far. *)
Record Thread := mkThread {
  current : option (Point * Z * list Attempt);
  todo : list Call;
  returned : list (option error)
}.

(** What a step does to the counters. *)
Inductive Label :=
| Silent
| Granted (estimateBytes : Z)
| Released (estimateBytes : Z).

Definition at_ (p : Point) (n : Z) (world : list Attempt) (t : Thread)
  : Thread :=
  {| current := Some (p, n, world); todo := todo t; returned := returned t |}.

Definition return_ (e : option error) (t : Thread) : Thread :=
  {| current := None; todo := todo t; returned := returned t ++ [e] |}.

(** One step of a goroutine on the server [s]; [None] when it cannot
    move: it has nothing left to do, or it is in a [select] of which no
    case is ready. *)
Definition threadStep (t : Thread) (s : Server)
  : option (Thread * Server * Label) :=
  match current t with
  | None =>
      match todo t with
      | [] => None
      | Release n :: rest =>
          Some ({| current := None; todo := rest; returned := returned t |},
                releaseMemory s n, Released n)
      | Acquire n world :: rest =>
          Some ({| current := Some (AtLoopHead, n, world); todo := rest;
                   returned := returned t |},
                s, Silent)
      end
  | Some (AtLoopHead, n, world) =>
      let max := memBudgetBytes s in
      if max =? 0 then Some (at_ AtReserve n world t, s, Silent)
      else Some (at_ (AtProbe max) n world t, s, Silent)
  | Some (AtReserve, n, world) =>
      Some (return_ None t, reserve s n, Granted n)
  | Some (AtProbe max, n, world) =>
      match world with
      | [] => None
      | w :: _ =>
          match readCgroupMemoryCurrent (files w) (CgroupV2Root (cfg s)) with
          | Err _ => Some (at_ AtSelect n world t, s, Silent)
          | Ok cur => Some (at_ (AtTest max cur) n world t, s, Silent)
          end
      end
  | Some (AtTest max cur, n, world) =>
      if fits s cur n max
      then Some (return_ None t, reserve s n, Granted n)
      else Some (at_ AtSelect n world t, s, Silent)
  | Some (AtSelect, n, world) =>
      match world with
      | [] => None
      | w :: world' =>
          match selected w with
          | CtxDone e => Some (return_ (Some e) t, s, Silent)
          | Tick => Some (at_ AtLoopHead n world' t, s, Silent)
          end
      end
  end.

Record System := mkSystem {
  shared : Server;
  threads : list Thread
}.

Fixpoint replace {A : Type} (i : nat) (x : A) (l : list A) : list A :=
  match l, i with
  | [], _ => []
  | _ :: l', O => x :: l'
  | y :: l', S i' => y :: replace i' x l'
  end.

(** Goroutine [i] takes a step. *)
Definition systemStep (i : nat) (sys : System) : option (System * Label) :=
  match nth_error (threads sys) i with
  | None => None
  | Some t =>
      match threadStep t (shared sys) with
      | None => None
      | Some (t', s', l) =>
          Some ({| shared := s'; threads := replace i t' (threads sys) |}, l)
      end
  end.

(** A schedule names the goroutine that moves at each step; a goroutine
    that cannot move when named is passed over.  The run records, for
    each step taken, the server before the step and what the step did. *)
Fixpoint run (schedule : list nat) (sys : System)
  : System * list (Server * Label) :=
  match schedule with
  | [] => (sys, [])
  | i :: schedule' =>
      match systemStep i sys with
      | None => run schedule' sys
      | Some (sys', l) =>
          let (final, trace) := run schedule' sys' in
          (final, (shared sys, l) :: trace)
      end
  end.

(** A goroutine that has not started, with its calls. *)
Definition spawn (calls : list Call) : Thread :=
  {| current := None; todo := calls; returned := [] |}.

Definition estimateOf (c : Call) : Z :=
  match c with
  | Acquire n _ => n
  | Release n => n
  end.

(** A grant that keeps the sum within [int64]. *)
Definition inRangeGrant (step : Server * Label) : Prop :=
  match snd step with
  | Granted n => memReservedBytes (fst step) + n <= Int64.max_int
  | _ => True
  end.

(** The sum of reservations is a non-negative [int64]. *)
Definition counted (s : Server) : Prop :=
  0 <= memReservedBytes s <= Int64.max_int.

(** The estimates a goroutine holds are non-negative. *)
Definition nonNegative (t : Thread) : Prop :=
  match current t with
  | Some (_, n, _) => 0 <= n
  | None => True
  end
  /\ Forall (fun c => 0 <= estimateOf c) (todo t).

(** A goroutine running with no other: [fuel] steps, or fewer if it
    stops. *)
Fixpoint runAlone (fuel : nat) (t : Thread) (s : Server)
  : Thread * Server :=
  match fuel with
  | O => (t, s)
  | S fuel' =>
      match threadStep t s with
      | None => (t, s)
      | Some (t', s', _) => runAlone fuel' t' s'
      end
  end.

End Interleaving.

(* ================================================================= *)
(** ** The request handler *)

Module Handler.
Import Gating ArgFilter.

(** A request as the handler reads it: its method and what
    [json.NewDecoder(r.Body).Decode(&req)] makes of its body, [None]
    for a decoding error.  A key absent from the body leaves the field
    at its zero value, the empty string for [type]. *)
Record Request := mkRequest {
  Method : string;
  Body : option CompileRequest
}.

(** The text handed to [http.Error]. *)
Inductive Message :=
| Text (s : string)                          (* a literal *)
| ErrorText (e : error)                      (* [err.Error()] *)
| Prefixed (prefix : string) (e : error).    (* [prefix + err.Error()] *)

Inductive Response :=
| HttpError (msg : Message) (code : Z)
| WriteJSON (code : Z) (resp : CompileResponse).

Definition StatusOK : Z := 200.
Definition StatusBadRequest : Z := 400.
Definition StatusMethodNotAllowed : Z := 405.
Definition StatusRequestTimeout : Z := 408.
Definition StatusInternalServerError : Z := 500.

(** An [exec.Cmd]: the program, its arguments, the working directory
    when one is set, and the deadline of its context. *)
Record Command := mkCommand {
  Path : string;
  Argv : list string;
  Dir : option string;
  Deadline : Duration
}.

(** What the handler does, in order. *)
Inductive Effect :=
| CallEnsureMemBudget
| CallAcquireMemory (estimateBytes : Z) (err : option error)
| CallReleaseMemory (estimateBytes : Z)
| MkdirAll (path : string)
| WriteFile (path data : string)
| Run (cmd : Command)
| Rename (oldpath newpath : string)
| RemoveAll (path : string)
| Respond (r : Response).

(** What the handler finds outside the server. *)
Record World := mkWorld {
  Join : list string -> string;       (* [filepath.Join] *)
  ensureDirs : option error;          (* the result of [s.ensureDirs()];
                                         what the call does: [Dirs], [Once] *)
  cgroup : Files;                     (* the files [ensureMemBudget] reads *)
  rounds : list Attempt;              (* the rounds of [acquireMemory] *)
  randomID : string;                  (* [id, _ := randomID(4)] *)
  mkdirJob : option error;            (* [os.MkdirAll(jobDir, 0o755)] *)
  mkdirArt : option error;            (* [os.MkdirAll(artDir, 0o755)] *)
  writeSource : option error;         (* [os.WriteFile(srcPath, ...)] *)
  combinedOutput : Command -> string * option error
                                      (* [cmd.CombinedOutput()] *)
}.

(** [strings.TrimPrefix(s, "/")]. *)
Definition trimLeadingSlash (s : string) : string :=
  if HasPrefix s "/" then dropBytes 1 s else s.

(** The test on the language tag. *)
Definition badType (lang : string) : bool :=
  negb (lang =? "c")%string && negb (lang =? "cpp")%string
  && negb (lang =? "cc")%string && negb (lang =? "c++")%string
  && negb (lang =? "")%string.

(** [est := s.cfg.JobMemoryEstimateMB * 1024 * 1024], replaced by
    256 MiB when not positive. *)
Definition estimate (c : Config) : Z :=
  let est := Int64.mul (Int64.mul (JobMemoryEstimateMB c) 1024) 1024 in
  if est <=? 0 then Int64.mul (Int64.mul 256 1024) 1024 else est.

(** The handler from [id, _ := randomID(4)] to its last statement: the
    job's directories, the compiler run, the promotion of the artifacts
    and the response.  The counters are not touched here. *)
Definition compileJob (s : Server) (w : World) (req : CompileRequest)
  (lang : string) : list Effect :=
  let c := cfg s in
  let id := randomID w in
  let jobDir := Join w [BaseDir c; JobsDir c; id] in
  let artDir := Join w [BaseDir c; ArtifactsDir c; id] in
  match mkdirJob w with
  | Some e =>
      [MkdirAll jobDir;
       Respond (HttpError (ErrorText e) StatusInternalServerError)]
  | None =>
  match mkdirArt w with
  | Some e =>
      [MkdirAll jobDir; MkdirAll artDir;
       Respond (HttpError (ErrorText e) StatusInternalServerError)]
  | None =>
  let srcName := if negb (lang =? "c")%string then "main.cpp" else "main.c" in
  let srcPath := Join w [jobDir; srcName] in
  match writeSource w with
  | Some e =>
      [MkdirAll jobDir; MkdirAll artDir; WriteFile srcPath (Code req);
       Respond (HttpError (ErrorText e) StatusInternalServerError)]
  | None =>
  let args := (MergeAndFilterArgs c (Args req) ++ ["-o"; "app.js"])%list in
  let compiler := if negb (lang =? "c")%string then "em++" else "emcc" in
  let cmd :=
    if NsJailEnabled c then
      {| Path := NsJailPath c;
         Argv := (["--quiet"; "--iface_no_lo";
                   "--cwd"; "/work";
                   "--bindmount"; (jobDir ++ ":/work")%string;
                   "--rlimit_fsize"; "268435456";
                   "--"; compiler; srcName] ++ args)%list;
         Dir := None;
         Deadline := Int64.mul 5 Minute |}
    else
      {| Path := compiler;
         Argv := srcName :: args;
         Dir := Some jobDir;
         Deadline := Int64.mul 5 Minute |} in
  let setup :=
    [MkdirAll jobDir; MkdirAll artDir; WriteFile srcPath (Code req);
     Run cmd] in
  match combinedOutput w cmd with
  | (out, Some _) =>
      (setup ++
       [Respond (WriteJSON StatusBadRequest
                   {| OK := false; ID := id; JS := ""; WASM := "";
                      Error := out |})])%list
  | (_, None) =>
      let baseURL := "/" ++ trimLeadingSlash (ArtifactsDir c) in
      (setup ++
       [Rename (Join w [jobDir; "app.js"]) (Join w [artDir; "app.js"]);
        Rename (Join w [jobDir; "app.wasm"]) (Join w [artDir; "app.wasm"]);
        RemoveAll jobDir;
        Respond (WriteJSON StatusOK
                   {| OK := true; ID := id;
                      JS := (baseURL ++ "/" ++ id ++ "/app.js")%string;
                      WASM := (baseURL ++ "/" ++ id ++ "/app.wasm")%string;
                      Error := "" |})])%list
  end end end end.

(** [http.Error(w, msg, code); return] before anything is deferred. *)
Definition reject (s : Server) (msg : Message) (code : Z)
  : option (Server * list Effect) :=
  Some (s, [Respond (HttpError msg code)]).

(** [HandleCompile]: the server when the handler returns and what the
    handler did; [None] when the handler is still waiting for memory
    after the rounds of the world.  The deferred [releaseMemory] runs
    last. *)
Definition HandleCompile (s : Server) (w : World) (r : Request)
  : option (Server * list Effect) :=
  if negb (Method r =? "POST")%string
  then reject s (Text "method not allowed") StatusMethodNotAllowed
  else
  match ensureDirs w with
  | Some e => reject s (ErrorText e) StatusInternalServerError
  | None =>
  match Body r with
  | None => reject s (Text "invalid JSON") StatusBadRequest
  | Some req =>
  if (TrimSpace (Code req) =? "")%string
  then reject s (Text "code is required") StatusBadRequest
  else
  let lang := ToLower (TrimSpace (Type_ req)) in
  if badType lang
  then reject s (Text "type must be 'c' or 'cpp'") StatusBadRequest
  else
  let lang := if (lang =? "")%string then "c" else lang in
  if EnableResourceGating (cfg s) then
    match ensureMemBudget (cgroup w) s with
    | (s1, Some e) =>
        Some (s1,
              [CallEnsureMemBudget;
               Respond (HttpError (Prefixed "resource gating init failed: " e)
                          StatusInternalServerError)])
    | (s1, None) =>
        let est := estimate (cfg s1) in
        match acquireMemory (rounds w) s1 est with
        | Waiting _ => None
        | Returned s2 (Some e) =>
            Some (s2,
                  [CallEnsureMemBudget; CallAcquireMemory est (Some e);
                   Respond (HttpError (Text "resource wait canceled")
                              StatusRequestTimeout)])
        | Returned s2 None =>
            Some (releaseMemory s2 est,
                  ([CallEnsureMemBudget; CallAcquireMemory est None]
                   ++ compileJob s2 w req lang
                   ++ [CallReleaseMemory est])%list)
        end
    end
  else Some (s, compileJob s w req lang)
  end end.

Definition isRelease (e : Effect) : bool :=
  match e with
  | CallReleaseMemory _ => true
  | _ => false
  end.

(** The effects that leave the counters alone and write no response. *)
Definition isFileOrRun (e : Effect) : bool :=
  match e with
  | MkdirAll _ | WriteFile _ _ | Run _ | Rename _ _ | RemoveAll _ => true
  | _ => false
  end.

(** The calls of [acquireMemory] and [releaseMemory], in order. *)
Definition gatingCalls (effects : list Effect) : list Effect :=
  filter (fun e => match e with
                   | CallAcquireMemory _ _ | CallReleaseMemory _ => true
                   | _ => false
                   end) effects.

(** The responses written, in order. *)
Fixpoint responses (effects : list Effect) : list Response :=
  match effects with
  | [] => []
  | Respond r :: rest => r :: responses rest
  | _ :: rest => responses rest
  end.

End Handler.

(* ================================================================= *)
(** ** Order of tokens *)

Module Order.

(** [subseq l1 l2]: [l1] is [l2] with some elements left out, the others
    in the order they have in [l2]. *)
Inductive subseq {A : Type} : list A -> list A -> Prop :=
| subseq_nil : subseq [] []
| subseq_skip x l1 l2 : subseq l1 l2 -> subseq l1 (x :: l2)
| subseq_take x l1 l2 : subseq l1 l2 -> subseq (x :: l1) (x :: l2).

End Order.

(* ================================================================= *)
(** ** Rounds of [acquireMemory] *)

Module Rounds.
Import Gating.

(** Does the round [w] grant [n] bytes on the server [s]?  It does when
    its probe can be read and the capacity test of the loop passes. *)
Definition admits (s : Server) (n : Z) (w : Attempt) : bool :=
  match readCgroupMemoryCurrent (files w) (CgroupV2Root (cfg s)) with
  | Err _ => false
  | Ok cur => fits s cur n (memBudgetBytes s)
  end.

End Rounds.

(* ================================================================= *)
(** ** The parts of a request's handling, by name *)

Module Job.
Import Gating ArgFilter Handler.

(** The checks of [HandleCompile] that come before any work: the method,
    the directories, the body, the code, the language tag. *)
Definition valid (w : World) (r : Request) (req : CompileRequest) : Prop :=
  Method r = "POST"
  /\ ensureDirs w = None
  /\ Body r = Some req
  /\ TrimSpace (Code req) <> ""
  /\ badType (ToLower (TrimSpace (Type_ req))) = false.

(** The variable [lang] once the default is applied. *)
Definition langOf (req : CompileRequest) : string :=
  let lang := ToLower (TrimSpace (Type_ req)) in
  if (lang =? "")%string then "c" else lang.

Definition jobDir (s : Server) (w : World) : string :=
  Join w [BaseDir (cfg s); JobsDir (cfg s); randomID w].

Definition artDir (s : Server) (w : World) : string :=
  Join w [BaseDir (cfg s); ArtifactsDir (cfg s); randomID w].

Definition srcName (lang : string) : string :=
  if negb (lang =? "c")%string then "main.cpp" else "main.c".

Definition compiler (lang : string) : string :=
  if negb (lang =? "c")%string then "em++" else "emcc".

(** The arguments that put the compiler in the jail, up to the name of
    the source file. *)
Definition jailPrefix (s : Server) (w : World) (lang : string)
  : list string :=
  ["--quiet"; "--iface_no_lo"; "--cwd"; "/work";
   "--bindmount"; (jobDir s w ++ ":/work")%string;
   "--rlimit_fsize"; "268435456"; "--"; compiler lang; srcName lang].

(** Effects that promote artifacts or clean the job directory. *)
Definition isPromotion (e : Effect) : bool :=
  match e with
  | Rename _ _ | RemoveAll _ => true
  | _ => false
  end.

Definition isRespond (e : Effect) : bool :=
  match e with
  | Respond _ => true
  | _ => false
  end.

Definition isRun (e : Effect) : bool :=
  match e with
  | Run _ => true
  | _ => false
  end.

End Job.

(* ================================================================= *)
(** ** Admission under a positive budget *)

Module Admission.
Import Gating Interleaving.

(** A bound on probe readings, estimates and budget under which the sum
    of the capacity test cannot leave [int64]: 2 EiB. *)
Definition limit : Z := 2 ^ 61.

(** The round's probe, if it can be read, reads between 0 and [limit]. *)
Definition boundedRound (root : string) (w : Attempt) : Prop :=
  match readCgroupMemoryCurrent (files w) root with
  | Ok cur => 0 <= cur <= limit
  | Err _ => True
  end.

Definition boundedCall (root : string) (c : Call) : Prop :=
  match c with
  | Acquire n world => 0 <= n <= limit /\ Forall (boundedRound root) world
  | Release n => 0 <= n
  end.

(** What a goroutine carries while it runs such calls under the budget
    [budget]: bounded estimates and readings, and the budget itself as
    the [max] it read. *)
Definition boundedThread (budget : Z) (root : string) (t : Thread) : Prop :=
  match current t with
  | None => True
  | Some (p, n, world) =>
      0 <= n <= limit /\ Forall (boundedRound root) world
      /\ match p with
         | AtLoopHead | AtSelect => True
         | AtReserve => False
         | AtProbe max => max = budget
         | AtTest max cur => max = budget /\ 0 <= cur <= limit
         end
  end
  /\ Forall (boundedCall root) (todo t).

(** The server keeps its budget and configuration, and its sum of
    reservations lies between 0 and the budget. *)
Definition withinBudget (budget : Z) (c : Config) (s : Server) : Prop :=
  memBudgetBytes s = budget /\ cfg s = c
  /\ 0 <= memReservedBytes s <= budget.

(** The invariant of a system running bounded calls under a budget. *)
Definition admitted (budget : Z) (c : Config) (sys : System) : Prop :=
  withinBudget budget c (shared sys)
  /\ Forall (boundedThread budget (CgroupV2Root c)) (threads sys).

End Admission.

(* ================================================================= *)
(** ** Requests as goroutines: acquire, work, release *)

Module Jobs.
Import Gating Interleaving.

(** What a request does to the counters: it acquires its estimate and,
    once admitted, releases it. *)
Definition jobCalls (n : Z) (world : list Attempt) : list Call :=
  [Acquire n world; Release n].

(** No round of the wait is cancelled. *)
Definition neverCancelled (world : list Attempt) : Prop :=
  Forall (fun w => selected w = Tick) world.

(** The stages of such a goroutine. *)
Inductive jobThread : Thread -> Prop :=
| job_new n world ret :
    0 <= n -> neverCancelled world ->
    jobThread {| current := None; todo := jobCalls n world; returned := ret |}
| job_waiting p n world ret :
    0 <= n -> neverCancelled world ->
    jobThread {| current := Some (p, n, world); todo := [Release n];
                 returned := ret |}
| job_admitted n ret :
    0 <= n ->
    jobThread {| current := None; todo := [Release n]; returned := ret |}
| job_done ret :
    jobThread {| current := None; todo := []; returned := ret |}.

(** The estimate a goroutine holds: the one it was granted and has not
    released yet. *)
Definition held (t : Thread) : Z :=
  match current t, todo t with
  | None, [Release n] => n
  | _, _ => 0
  end.

(** The estimate a goroutine holds or may still come to hold. *)
Definition pending (t : Thread) : Z :=
  match current t, todo t with
  | None, [Release n] => n
  | None, Acquire n _ :: _ => n
  | Some (_, n, _), _ => n
  | _, _ => 0
  end.

Definition total (f : Thread -> Z) (l : list Thread) : Z :=
  fold_right (fun t acc => f t + acc) 0 l.

Definition finished (t : Thread) : Prop :=
  current t = None /\ todo t = [].

(** The reservations are those that are held, and all that may still be
    held fit an [int64]. *)
Definition balanced (sys : System) : Prop :=
  Forall jobThread (threads sys)
  /\ memReservedBytes (shared sys) = total held (threads sys)
  /\ total pending (threads sys) <= Int64.max_int.

End Jobs.

(* ================================================================= *)
(** ** Job identifiers and the server's directories *)

Module Identity.
Import Gating.

(** The table [hextable] of package [encoding/hex]. *)
Definition hextable : list ascii :=
  list_ascii_of_string "0123456789abcdef".

Definition hexDigit (n : nat) : ascii := nth n hextable "0"%char.

(** [hex.EncodeToString]: two digits per byte, the high half first. *)
Fixpoint EncodeToString (src : list ascii) : string :=
  match src with
  | [] => EmptyString
  | b :: rest =>
      String (hexDigit (nat_of_ascii b / 16))
        (String (hexDigit (nat_of_ascii b mod 16)) (EncodeToString rest))
  end.

(** [randomID(n)]: [read] is what [rand.Read(b)] answers for the [n]
    bytes of [b], the bytes it put there or its error. *)
Definition randomID (n : nat) (read : result (list ascii))
  : string * option error :=
  match read with
  | Err e => (EmptyString, Some e)
  | Ok b => (EncodeToString b, None)
  end.

(** The value of a hexadecimal digit. *)
Definition hexValue (c : ascii) : nat :=
  let n := nat_of_ascii c in
  if (Nat.leb 48 n && Nat.leb n 57)%bool then n - 48 else n - 87.

(** The bytes a string of hexadecimal digits stands for. *)
Fixpoint decodeHex (s : string) : list ascii :=
  match s with
  | String hi (String lo rest) =>
      ascii_of_nat (16 * hexValue hi + hexValue lo) :: decodeHex rest
  | _ => []
  end.

Definition isLowerHex (c : ascii) : bool :=
  let n := nat_of_ascii c in
  ((Nat.leb 48 n && Nat.leb n 57) || (Nat.leb 97 n && Nat.leb n 102))%bool.

Fixpoint allChars (p : ascii -> bool) (s : string) : bool :=
  match s with
  | EmptyString => true
  | String c rest => (p c && allChars p rest)%bool
  end.

End Identity.

Module Dirs.
Import Gating.

(** [s.ensureDirs()].  [once] tells whether [s.onceMkDir] has run
    already; [mkdirAll] is what [os.MkdirAll(path, 0o755)] answers.  The
    result is the state of [s.onceMkDir] afterwards, the error returned
    and the paths handed to [os.MkdirAll], in order. *)
Definition ensureDirs (c : Config) (join : list string -> string)
  (mkdirAll : string -> option error) (once : bool)
  : bool * option error * list string :=
  if once then (true, None, [])
  else
    let jobs := join [BaseDir c; JobsDir c] in
    let artifacts := join [BaseDir c; ArtifactsDir c] in
    match mkdirAll jobs with
    | Some e => (true, Some e, [jobs])
    | None =>
        match mkdirAll artifacts with
        | Some e => (true, Some e, [jobs; artifacts])
        | None => (true, None, [jobs; artifacts])
        end
    end.

(** The results of successive calls, each with its own answers of the
    file system, starting from the state [once]. *)
Fixpoint ensureDirsCalls (c : Config) (join : list string -> string)
  (answers : list (string -> option error)) (once : bool)
  : list (option error * list string) :=
  match answers with
  | [] => []
  | mkdirAll :: rest =>
      let '(once', err, paths) := ensureDirs c join mkdirAll once in
      (err, paths) :: ensureDirsCalls c join rest once'
  end.

End Dirs.

(* ================================================================= *)
(** ** Requests served together

    The part of [HandleCompile] that touches the counters, from
    [if s.cfg.EnableResourceGating] to the deferred release, for
    requests that run concurrently on one server with resource gating
    switched on. *)

Module Requests.
Import Gating Interleaving Handler Jobs.

(** Where a request stands: it has passed validation and is about to
    call [s.ensureMemBudget()]; or it is at or past the call of
    [s.acquireMemory(ctx, est)], the deferred [s.releaseMemory(est)]
    still to come; or the handler has returned. *)
Inductive Phase :=
| Arrived (cgroup : Files) (world : list Attempt)
| Gated (t : Thread)
| Gone.

(** [acquireMemory] has returned an error. *)
Definition failed (t : Thread) : bool :=
  existsb (fun r => match r with Some _ => true | None => false end)
          (returned t).

(** The handler returns: after [http.Error(w, "resource wait canceled",
    ...)] when [acquireMemory] failed, nothing being deferred yet;
    otherwise once the deferred release has run. *)
Definition leaves (t : Thread) : bool :=
  failed t
  || match current t, todo t with
     | None, [] => true
     | _, _ => false
     end.

(** One step of a request on the server [s].  [ensureMemBudget] holds
    the lock from its first statement to its last and is one step; the
    steps of [acquireMemory] and [releaseMemory] are those of
    [threadStep].  The estimate is computed from the configuration, which
    no step changes.  Between the grant and the release the request
    compiles, which leaves the counters alone. *)
Definition requestStep (p : Phase) (s : Server)
  : option (Phase * Server * Label) :=
  match p with
  | Arrived cgroup world =>
      match ensureMemBudget cgroup s with
      | (s1, Some _) => Some (Gone, s1, Silent)
      | (s1, None) =>
          let est := estimate (cfg s1) in
          Some (Gated (spawn [Acquire est world; Release est]), s1, Silent)
      end
  | Gated t =>
      match threadStep t s with
      | None => None
      | Some (t', s', l) =>
          Some (if leaves t' then Gone else Gated t', s', l)
      end
  | Gone => None
  end.

Record Service := mkService {
  server : Server;
  requests : list Phase
}.

(** Request [i] takes a step. *)
Definition serviceStep (i : nat) (sv : Service) : option (Service * Label) :=
  match nth_error (requests sv) i with
  | None => None
  | Some p =>
      match requestStep p (server sv) with
      | None => None
      | Some (p', s', l) =>
          Some ({| server := s'; requests := replace i p' (requests sv) |}, l)
      end
  end.

(** A schedule names the request that moves at each step; a request
    that cannot move when named is passed over.  The run records, for
    each step taken, the server before it, what it did and the server
    after it. *)
Fixpoint serve (schedule : list nat) (sv : Service)
  : Service * list (Server * Label * Server) :=
  match schedule with
  | [] => (sv, [])
  | i :: schedule' =>
      match serviceStep i sv with
      | None => serve schedule' sv
      | Some (sv', l) =>
          let (final, trace) := serve schedule' sv' in
          (final, (server sv, l, server sv') :: trace)
      end
  end.

(** The estimate a request holds: the one it was granted and has not
    released yet. *)
Definition holding (p : Phase) : Z :=
  match p with
  | Gated t => held t
  | _ => 0
  end.

(** The estimate a request holds or may still come to hold. *)
Definition awaited (est : Z) (p : Phase) : Z :=
  match p with
  | Gone => 0
  | _ => est
  end.

Definition sumOf {A : Type} (f : A -> Z) (l : list A) : Z :=
  fold_right (fun x acc => f x + acc) 0 l.

(** A step moves the sum of reservations by the estimate exactly: a
    grant adds it, a release takes it away, any other step leaves the sum
    as it is. *)
Definition exact (est : Z) (step : Server * Label * Server) : Prop :=
  let '(before, l, after) := step in
  match l with
  | Silent => memReservedBytes after = memReservedBytes before
  | Granted n =>
      n = est /\ memReservedBytes after = memReservedBytes before + est
  | Released n =>
      n = est /\ memReservedBytes after = memReservedBytes before - est
  end.

(** The goroutine of a request in its call of [acquireMemory], and
    once admitted. *)
Definition calling (p : Point) (n : Z) (world : list Attempt) : Thread :=
  {| current := Some (p, n, world); todo := [Release n]; returned := [] |}.

Definition admittedThread (n : Z) : Thread :=
  {| current := None; todo := [Release n]; returned := [None] |}.

(** The stages of the goroutine of a request. *)
Inductive gatingThread (est : Z) : Thread -> Prop :=
| gating_new world :
    gatingThread est {| current := None;
                        todo := [Acquire est world; Release est];
                        returned := [] |}
| gating_waiting p world :
    gatingThread est {| current := Some (p, est, world);
                        todo := [Release est];
                        returned := [] |}
| gating_admitted :
    gatingThread est {| current := None; todo := [Release est];
                        returned := [None] |}.

Definition wellFormed (est : Z) (p : Phase) : Prop :=
  match p with
  | Gated t => gatingThread est t
  | _ => True
  end.

(** The reservations are the value at the start and what the requests
    hold, and all that may still be held fits an [int64]. *)
Definition settled (c : Config) (r0 : Z) (sv : Service) : Prop :=
  0 <= r0
  /\ cfg (server sv) = c
  /\ Forall (wellFormed (estimate c)) (requests sv)
  /\ memReservedBytes (server sv) = r0 + sumOf holding (requests sv)
  /\ r0 + sumOf (awaited (estimate c)) (requests sv) <= Int64.max_int.

End Requests.

(* ================================================================= *)
(** ** The handler and its first call *)

Module Once.
Import GoStrings Gating Handler Dirs.

(** The world in which [s.ensureDirs()] has returned [err]. *)
Definition withEnsureDirs (w : World) (err : option error) : World := {|
  Join := Join w;
  Handler.ensureDirs := err;
  cgroup := cgroup w;
  rounds := rounds w;
  randomID := randomID w;
  mkdirJob := mkdirJob w;
  mkdirArt := mkdirArt w;
  writeSource := writeSource w;
  combinedOutput := combinedOutput w
|}.

(** [HandleCompile] with its call of [s.ensureDirs()] written out.
    [once] is the state of [s.onceMkDir] when the request arrives and
    [mkdirAll] is what [os.MkdirAll] answers.  A request that is not a
    POST is answered before the call.  For a POST the call comes before
    the body is decoded: the directories it hands to [os.MkdirAll] are the
    first effects, and what it returns is what the handler goes on
    with.  The result carries the state of [s.onceMkDir] afterwards. *)
Definition HandleCompileOnce (s : Server) (w : World)
  (mkdirAll : string -> option error) (once : bool) (r : Request)
  : option (bool * Server * list Effect) :=
  if negb (Method r =? "POST")%string then
    option_map (fun out => (once, fst out, snd out)) (HandleCompile s w r)
  else
    let '(once', err, paths) := ensureDirs (cfg s) (Join w) mkdirAll once in
    option_map
      (fun out => (once', fst out, (map MkdirAll paths ++ snd out)%list))
      (HandleCompile s (withEnsureDirs w err) r).

End Once.

(* ================================================================= *)
(** ** Concrete configurations, servers and environments

    The inputs at which the properties below are exercised. *)

Module Fixtures.
Import Gating.

Definition MiB : Z := 1024 * 1024.
Definition GiB : Z := 1024 * MiB.

(** The configuration of an operator who writes [artifactTTLDays: 0] in
    [config.json] and keeps every other default. *)
Definition cfgTTLDaysZero : Config :=
  LoadConfig (Some (setArtifactTTLDays DefaultConfig 0)).

(** A cgroup directory holding the two files with the given texts. *)
Definition cgroupDir (max current : string) : Files :=
  fun _ name =>
    if (name =? "memory.max")%string then Ok max
    else if (name =? "memory.current")%string then Ok current
    else Err (errOS "no such file or directory").

(** A directory without the files. *)
Definition emptyDir : Files :=
  fun _ _ => Err (errOS "no such file or directory").

(** A server with default configuration, the given budget and the given
    sum of reservations. *)
Definition serverWith (budget reserved : Z) : Server :=
  {| cfg := DefaultConfig;
     memBudgetBytes := budget;
     memReservedBytes := reserved |}.

Definition canceled : error := errContext "context canceled".

(** Two requests admitted against a budget of 1 GiB while 512 MiB are in
    use: each goroutine acquires 256 MiB and releases them. *)
Definition halfUsed : Attempt :=
  mkAttempt (cgroupDir "max" "536870912") Tick.

Definition job : list Interleaving.Call :=
  [Interleaving.Acquire (256 * MiB) [halfUsed; halfUsed];
   Interleaving.Release (256 * MiB)].

Definition twoJobs : list nat :=
  [0; 1; 0; 1; 1; 0; 0; 1; 1; 0; 0; 1; 0; 1; 0; 1]%nat.

(** The default configuration with resource gating switched on and the
    given estimate per job. *)
Definition cfgGating (estimateMB : Z) : Config := {|
  WorkingDir := WorkingDir DefaultConfig;
  Addr := Addr DefaultConfig;
  BaseDir := BaseDir DefaultConfig;
  JobsDir := JobsDir DefaultConfig;
  ArtifactsDir := ArtifactsDir DefaultConfig;
  EnableStaticArtifacts := EnableStaticArtifacts DefaultConfig;
  ArtifactTTL := ArtifactTTL DefaultConfig;
  ArtifactTTLDays := ArtifactTTLDays DefaultConfig;
  CleanupIntervalMins := CleanupIntervalMins DefaultConfig;
  DefaultArgs := DefaultArgs DefaultConfig;
  NsJailEnabled := NsJailEnabled DefaultConfig;
  NsJailPath := NsJailPath DefaultConfig;
  CgroupV2Root := CgroupV2Root DefaultConfig;
  EnableResourceGating := true;
  JobMemoryEstimateMB := estimateMB
|}.

Definition gatingServer (estimateMB budget reserved : Z) : Server :=
  {| cfg := cfgGating estimateMB;
     memBudgetBytes := budget;
     memReservedBytes := reserved |}.

(** [filepath.Join] on the elements used below, which are relative and
    clean but for [.], which is dropped. *)
Definition joinClean (elem : list string) : string :=
  String.concat "/" (filter (fun e => negb (e =? ".")%string) elem).

(** An environment in which every operation succeeds: the directories
    exist, the cgroup is unlimited, the compiler exits with status 0. *)
Definition fairWorld : Handler.World := {|
  Handler.Join := joinClean;
  Handler.ensureDirs := None;
  Handler.cgroup := cgroupDir "max" "0";
  Handler.rounds := [];
  Handler.randomID := "9f3a01bc";
  Handler.mkdirJob := None;
  Handler.mkdirArt := None;
  Handler.writeSource := None;
  Handler.combinedOutput := fun _ => ("", None)
|}.

(** The same with a compiler that exits with status 1. *)
Definition failingCompiler : Handler.World := {|
  Handler.Join := joinClean;
  Handler.ensureDirs := None;
  Handler.cgroup := cgroupDir "max" "0";
  Handler.rounds := [];
  Handler.randomID := "9f3a01bc";
  Handler.mkdirJob := None;
  Handler.mkdirArt := None;
  Handler.writeSource := None;
  Handler.combinedOutput :=
    fun _ => ("main.c:1:12: error: expected '}'", Some (errOS "exit status 1"))
|}.

Definition post (code type : string) (args : list string)
  : Handler.Request :=
  {| Handler.Method := "POST";
     Handler.Body := Some {| Code := code; Type_ := type; Args := args |} |}.

End Fixtures.

(* ################################################################# *)
(** * Properties *)

(* ================================================================= *)
(** ** Facts on 64-bit arithmetic *)

Module Int64Facts.
Import Int64.

Lemma wrap_in_range x : in_range (wrap x).
Proof.
  unfold in_range, wrap, min_int, max_int, modulus.
  pose proof (Z.mod_pos_bound (x + 2 ^ 63) (2 ^ 64) ltac:(lia)). lia.
Qed.

Lemma wrap_small x : in_range x -> wrap x = x.
Proof.
  unfold in_range, wrap, min_int, max_int, modulus. intros H.
  rewrite Z.mod_small; lia.
Qed.

Lemma add_small x y : in_range (x + y) -> add x y = x + y.
Proof. apply wrap_small. Qed.

Lemma sub_small x y : in_range (x - y) -> sub x y = x - y.
Proof. apply wrap_small. Qed.

End Int64Facts.

(* ================================================================= *)
(** ** The argument filter *)

Module ArgFilterFacts.
Import ArgFilter.
Local Open Scope list_scope.

(** Lists are visited one or two tokens at a time. *)
Lemma list_ind_two (A : Type) (P : list A -> Prop) :
  P [] ->
  (forall a, P [a]) ->
  (forall a b l, P l -> P (b :: l) -> P (a :: b :: l)) ->
  forall l, P l.
Proof.
  intros Hnil Hone Hstep l.
  assert (H : P l /\ forall a, P (a :: l)).
  { induction l as [|b l [IH1 IH2]].
    - split; [exact Hnil | exact Hone].
    - split; [apply IH2 | intros a; apply Hstep; [exact IH1 | apply IH2]]. }
  exact (proj1 H).
Qed.

(** The equations of the two loops, one per shape of [user[i:]]. *)
Lemma filterLoop_one a result :
  filterLoop [a] result =
  if (TrimSpace a =? "")%string then result
  else filterSingle (TrimSpace a) result.
Proof.
  simpl. destruct (TrimSpace a =? "")%string; [reflexivity|].
  now destruct (isPairFlag (TrimSpace a)).
Qed.

Lemma filterLoop_two a b l result :
  filterLoop (a :: b :: l) result =
  if (TrimSpace a =? "")%string then filterLoop (b :: l) result
  else if isPairFlag (TrimSpace a) then
    if negb (safeArgPath (TrimSpace b)) then filterLoop l result
    else filterLoop l (result ++ [TrimSpace a; TrimSpace b])
  else filterLoop (b :: l) (filterSingle (TrimSpace a) result).
Proof. reflexivity. Qed.

Lemma filterLoopTagged_one a result :
  filterLoopTagged [a] result =
  if (TrimSpace a =? "")%string then result
  else filterSingleTagged (TrimSpace a) result.
Proof.
  simpl. destruct (TrimSpace a =? "")%string; [reflexivity|].
  now destruct (isPairFlag (TrimSpace a)).
Qed.

Lemma filterLoopTagged_two a b l result :
  filterLoopTagged (a :: b :: l) result =
  if (TrimSpace a =? "")%string then filterLoopTagged (b :: l) result
  else if isPairFlag (TrimSpace a) then
    if negb (safeArgPath (TrimSpace b)) then filterLoopTagged l result
    else filterLoopTagged l
           (result ++ [(PairFlag, TrimSpace a); (PairValue, TrimSpace b)])
  else filterLoopTagged (b :: l) (filterSingleTagged (TrimSpace a) result).
Proof. reflexivity. Qed.

(** Erasing the labels of the instrumented loop gives the loop. *)
Lemma filterSingleTagged_erase a result :
  map snd (filterSingleTagged a result) = filterSingle a (map snd result).
Proof.
  unfold filterSingleTagged, filterSingle.
  destruct (isBlockedArg a blocked); [reflexivity|].
  destruct (isAllowedArg a allowedPrefix); [|reflexivity].
  now rewrite map_app.
Qed.

Lemma filterLoopTagged_erase user :
  forall result,
    map snd (filterLoopTagged user result) = filterLoop user (map snd result).
Proof.
  induction user as [|a|a b l IHl IHbl] using list_ind_two; intros result.
  - reflexivity.
  - rewrite filterLoopTagged_one, filterLoop_one.
    destruct (TrimSpace a =? "")%string; [reflexivity|].
    apply filterSingleTagged_erase.
  - rewrite filterLoopTagged_two, filterLoop_two.
    destruct (TrimSpace a =? "")%string; [apply IHbl|].
    destruct (isPairFlag (TrimSpace a)).
    + destruct (negb (safeArgPath (TrimSpace b))); [apply IHl|].
      rewrite IHl, map_app. reflexivity.
    + rewrite IHbl, filterSingleTagged_erase. reflexivity.
Qed.

Lemma tagged_erase cfg user :
  map snd (MergeAndFilterArgsTagged cfg user) = MergeAndFilterArgs cfg user.
Proof.
  unfold MergeAndFilterArgsTagged, MergeAndFilterArgs.
  rewrite filterLoopTagged_erase, map_map. simpl. now rewrite map_id.
Qed.

(** [result] only grows, at its end. *)
Lemma filterSingleTagged_app a result :
  filterSingleTagged a result = (result ++ filterSingleTagged a [])%list.
Proof.
  unfold filterSingleTagged.
  destruct (isBlockedArg a blocked); [now rewrite app_nil_r|].
  destruct (isAllowedArg a allowedPrefix); [reflexivity|now rewrite app_nil_r].
Qed.

Lemma filterLoopTagged_app user :
  forall result,
    filterLoopTagged user result = (result ++ filterLoopTagged user [])%list.
Proof.
  induction user as [|a|a b l IHl IHbl] using list_ind_two; intros result.
  - simpl. now rewrite app_nil_r.
  - rewrite !filterLoopTagged_one.
    destruct (TrimSpace a =? "")%string; [now rewrite app_nil_r|].
    apply filterSingleTagged_app.
  - rewrite !filterLoopTagged_two.
    destruct (TrimSpace a =? "")%string; [apply IHbl|].
    destruct (isPairFlag (TrimSpace a)).
    + destruct (negb (safeArgPath (TrimSpace b))); [apply IHl|].
      rewrite IHl. rewrite (IHl ([] ++ _)). now rewrite <- app_assoc.
    + rewrite IHbl, (IHbl (filterSingleTagged _ [])).
      rewrite (filterSingleTagged_app _ result). now rewrite <- app_assoc.
Qed.

Lemma filterSingleTagged_accepted a l :
  accepted l -> accepted (filterSingleTagged a [] ++ l)%list.
Proof.
  intros Hl. unfold filterSingleTagged.
  destruct (isBlockedArg a blocked) eqn:Hb; [exact Hl|].
  destruct (isAllowedArg a allowedPrefix) eqn:Ha; [|exact Hl].
  now apply accepted_single.
Qed.

Lemma filterLoopTagged_accepted user : accepted (filterLoopTagged user []).
Proof.
  induction user as [|a|a b l IHl IHbl] using list_ind_two.
  - constructor.
  - rewrite filterLoopTagged_one.
    destruct (TrimSpace a =? "")%string; [constructor|].
    rewrite <- (app_nil_r (filterSingleTagged _ [])).
    apply filterSingleTagged_accepted. constructor.
  - rewrite filterLoopTagged_two.
    destruct (TrimSpace a =? "")%string; [exact IHbl|].
    destruct (isPairFlag (TrimSpace a)) eqn:Hp.
    + destruct (safeArgPath (TrimSpace b)) eqn:Hs; simpl; [|exact IHl].
      rewrite filterLoopTagged_app. simpl. now apply accepted_pair.
    + rewrite filterLoopTagged_app.
      now apply filterSingleTagged_accepted.
Qed.

Lemma tagged_shape cfg user :
  MergeAndFilterArgsTagged cfg user =
  (map (pair FromDefaults) (DefaultArgs cfg) ++ filterLoopTagged user [])%list.
Proof. unfold MergeAndFilterArgsTagged. apply filterLoopTagged_app. Qed.

Lemma accepted_pair_value_safe l :
  accepted l -> forall v, In (PairValue, v) l -> safeArgPath v = true.
Proof.
  induction 1 as [|a l Hb Ha Hl IH|f w l Hf Hw Hl IH]; intros v Hin.
  - destruct Hin.
  - destruct Hin as [Heq|Hin]; [discriminate Heq|now apply IH].
  - destruct Hin as [Heq|[Heq|Hin]].
    + discriminate Heq.
    + now injection Heq as <-.
    + now apply IH.
Qed.

Lemma accepted_pair_value_follows_flag l :
  accepted l ->
  forall before v after,
    l = before ++ (PairValue, v) :: after ->
    exists before' f,
      before = before' ++ [(PairFlag, f)] /\ isPairFlag f = true.
Proof.
  induction 1 as [|a l Hb Ha Hl IH|f w l Hf Hw Hl IH];
    intros before v after Heq.
  - now destruct before.
  - destruct before as [|e before]; [discriminate Heq|].
    injection Heq as <- Heq.
    destruct (IH _ _ _ Heq) as (b' & f & -> & Hf).
    now exists ((Single, a) :: b'), f.
  - destruct before as [|e1 [|e2 before]]; try discriminate Heq.
    + injection Heq as <- _ _. now exists [], f.
    + injection Heq as <- <- Heq.
      destruct (IH _ _ _ Heq) as (b' & g & -> & Hg).
      now exists ((PairFlag, f) :: (PairValue, w) :: b'), g.
Qed.

Lemma defaults_then_pair_value_follows_flag (d : list string) l :
  accepted l ->
  forall before v after,
    map (pair FromDefaults) d ++ l = before ++ (PairValue, v) :: after ->
    exists before' f,
      before = before' ++ [(PairFlag, f)] /\ isPairFlag f = true.
Proof.
  intros Hl. induction d as [|x d IH]; intros before v after Heq.
  - now apply (accepted_pair_value_follows_flag l Hl before v after).
  - destruct before as [|e before]; [discriminate Heq|].
    injection Heq as <- Heq.
    destruct (IH _ _ _ Heq) as (b' & f & -> & Hf).
    now exists ((FromDefaults, x) :: b'), f.
Qed.

Lemma in_defaults_origin (d : list string) o tok :
  In (o, tok) (map (pair FromDefaults) d) -> o = FromDefaults /\ In tok d.
Proof.
  rewrite in_map_iff. intros (x & Heq & Hin).
  injection Heq as <- <-. now split.
Qed.

Lemma safeArgPath_true p :
  safeArgPath p = true ->
  HasPrefix p "/" = false /\ Contains p ".." = false.
Proof.
  unfold safeArgPath.
  destruct (HasPrefix p "/"); [discriminate|].
  destruct (Contains p ".."); [discriminate|]. now split.
Qed.

(** What a token that is [-o] or starts with [-o=] cannot be. *)
Lemma not_blocked_not_dash_o tok :
  isBlockedArg tok blocked = false -> isDashO tok = false.
Proof.
  unfold isBlockedArg, blocked, isDashO. cbn [existsb].
  intros H. apply orb_false_iff in H as [H _]. exact H.
Qed.

Lemma isPairFlag_cases tok :
  isPairFlag tok = true ->
  tok = "--preload-file" \/ tok = "--embed-file" \/ tok = "--source-map-base".
Proof.
  unfold isPairFlag. rewrite !orb_true_iff, !String.eqb_eq. tauto.
Qed.

Lemma pair_flag_not_dash_o tok : isPairFlag tok = true -> isDashO tok = false.
Proof.
  intros H. destruct (isPairFlag_cases tok H) as [-> | [-> | ->]]; reflexivity.
Qed.

Lemma default_args_not_dash_o tok :
  In tok (DefaultArgs DefaultConfig) -> isDashO tok = false.
Proof.
  simpl. intros [<- | [<- | [<- | [<- | []]]]]; reflexivity.
Qed.

Lemma accepted_not_dash_o l :
  accepted l ->
  forall o tok, In (o, tok) l -> o <> PairValue -> isDashO tok = false.
Proof.
  induction 1 as [|a l Hb Ha Hl IH|f w l Hf Hw Hl IH]; intros o tok Hin Ho.
  - destruct Hin.
  - destruct Hin as [Heq|Hin]; [|now apply (IH o)].
    injection Heq as <- <-. now apply not_blocked_not_dash_o.
  - destruct Hin as [Heq|[Heq|Hin]]; [| |now apply (IH o)].
    + injection Heq as <- <-. now apply pair_flag_not_dash_o.
    + injection Heq as <- <-. now contradiction Ho.
Qed.

Lemma tagged_not_dash_o user o tok :
  In (o, tok) (MergeAndFilterArgsTagged DefaultConfig user) ->
  o <> PairValue ->
  isDashO tok = false.
Proof.
  intros Hin Ho.
  rewrite tagged_shape in Hin. apply in_app_or in Hin as [Hin|Hin].
  - apply in_defaults_origin in Hin as [_ Hin].
    now apply default_args_not_dash_o.
  - exact (accepted_not_dash_o _ (filterLoopTagged_accepted user)
             o tok Hin Ho).
Qed.

Lemma tagged_pair_value_follows_flag cfg user before v after :
  MergeAndFilterArgsTagged cfg user = before ++ (PairValue, v) :: after ->
  exists before' f,
    before = before' ++ [(PairFlag, f)] /\ isPairFlag f = true.
Proof.
  intros Heq. rewrite tagged_shape in Heq.
  exact (defaults_then_pair_value_follows_flag _ _
           (filterLoopTagged_accepted user) before v after Heq).
Qed.

(** Order preservation: the output is the defaults followed by what the
    loop accepts of the user's tokens. *)
Lemma MergeAndFilterArgs_defaults_first cfg user :
  MergeAndFilterArgs cfg user = DefaultArgs cfg ++ filterLoop user [].
Proof.
  rewrite <- tagged_erase, tagged_shape, map_app, map_map. simpl.
  rewrite map_id. f_equal. apply (filterLoopTagged_erase user []).
Qed.

(** [result] only grows, at its end. *)
Lemma filterSingle_app a result :
  filterSingle a result = result ++ filterSingle a [].
Proof.
  unfold filterSingle.
  destruct (isBlockedArg a blocked); [now rewrite app_nil_r|].
  destruct (isAllowedArg a allowedPrefix); [reflexivity|now rewrite app_nil_r].
Qed.

Lemma filterLoop_app user :
  forall result, filterLoop user result = result ++ filterLoop user [].
Proof.
  induction user as [|a|a b l IHl IHbl] using list_ind_two; intros result.
  - simpl. now rewrite app_nil_r.
  - rewrite !filterLoop_one.
    destruct (TrimSpace a =? "")%string; [now rewrite app_nil_r|].
    apply filterSingle_app.
  - rewrite !filterLoop_two.
    destruct (TrimSpace a =? "")%string; [apply IHbl|].
    destruct (isPairFlag (TrimSpace a)).
    + destruct (negb (safeArgPath (TrimSpace b))); [apply IHl|].
      rewrite IHl. rewrite (IHl ([] ++ _)). now rewrite <- app_assoc.
    + rewrite IHbl, (IHbl (filterSingle _ [])).
      rewrite (filterSingle_app _ result). now rewrite <- app_assoc.
Qed.

Lemma filterLoop_cons_not_pair u rest result :
  isPairFlag (TrimSpace u) = false ->
  filterLoop (u :: rest) result =
  if (TrimSpace u =? "")%string then filterLoop rest result
  else filterLoop rest (filterSingle (TrimSpace u) result).
Proof. intros H. simpl. now rewrite H. Qed.

(** C2, as stated, fails: the value of a pair is checked for path safety
    only, so [-o] passes the filter right after [--preload-file]. *)
Lemma dash_o_passes_as_pair_value :
  MergeAndFilterArgs DefaultConfig ["--preload-file"; "-o"] =
    DefaultArgs DefaultConfig ++ ["--preload-file"; "-o"]
  /\ In "-o" (MergeAndFilterArgs DefaultConfig ["--preload-file"; "-o"])
  /\ isDashO "-o" = true.
Proof.
  split; [reflexivity|]. split; [|reflexivity].
  vm_compute. tauto.
Qed.

(** The value of a pair, seen in the bare output: it stands right after
    its flag and passed the path check. *)
Lemma tagged_pair_value_in_output cfg user before v after :
  MergeAndFilterArgsTagged cfg user = before ++ (PairValue, v) :: after ->
  safeArgPath v = true
  /\ exists before' f,
       before = before' ++ [(PairFlag, f)] /\ isPairFlag f = true
       /\ MergeAndFilterArgs cfg user
          = map snd before' ++ f :: v :: map snd after.
Proof.
  intros Heq. split.
  - assert (Hin : In (PairValue, v) (MergeAndFilterArgsTagged cfg user))
      by (rewrite Heq; apply in_elt).
    rewrite tagged_shape in Hin. apply in_app_or in Hin as [Hin|Hin].
    + apply in_defaults_origin in Hin as [Habs _]. discriminate Habs.
    + exact (accepted_pair_value_safe _ (filterLoopTagged_accepted user)
               v Hin).
  - destruct (tagged_pair_value_follows_flag cfg user before v after Heq)
      as (before' & f & -> & Hf).
    exists before', f. split; [reflexivity|]. split; [exact Hf|].
    rewrite <- tagged_erase, Heq, !map_app, <- app_assoc. reflexivity.
Qed.

(** In terms of the bare output: with the default operator arguments,
    a token that is [-o] or begins with [-o=] only ever stands right
    after one of the three pair flags, as a value that passed the path
    check. *)
Lemma dash_o_is_pair_value user before tok after :
  MergeAndFilterArgs DefaultConfig user = before ++ tok :: after ->
  isDashO tok = true ->
  exists before' f,
    before = before' ++ [f] /\ isPairFlag f = true /\ safeArgPath tok = true.
Proof.
  intros Heq Hd. rewrite <- tagged_erase in Heq.
  apply map_eq_app in Heq as (tb & ta & Hsplit & Hb & Ha).
  destruct ta as [|[o tok'] ta]; [discriminate Ha|].
  simpl in Ha. injection Ha as -> Ha.
  assert (Ho : o = PairValue).
  { destruct o; try reflexivity; exfalso;
      (assert (Hin : In (_, tok) (MergeAndFilterArgsTagged DefaultConfig user))
        by (rewrite Hsplit; apply in_elt));
      (eapply tagged_not_dash_o in Hin; [|discriminate]);
      congruence. }
  subst o.
  destruct (tagged_pair_value_in_output DefaultConfig user tb tok ta Hsplit)
    as (Hsafe & tb' & f & -> & Hf & _).
  exists (map snd tb'), f. split; [|now split].
  rewrite <- Hb, map_app. reflexivity.
Qed.

(** C2 (amended).  With the default operator arguments, every token of
    the filter's output other than the value of an accepted pair (the
    token appended right after [--preload-file], [--embed-file] or
    [--source-map-base]) is neither the standalone [-o] nor a token that
    begins with [-o=].  The output is the list of tokens that the loop
    appends, each of which is known by the statement that appended it;
    read on the output alone: a token that is [-o] or begins with [-o=]
    only occurs right after one of the three flags, having passed the
    path check. *)
Theorem dash_o_only_as_pair_value :
  forall user : list string,
    map snd (MergeAndFilterArgsTagged DefaultConfig user)
      = MergeAndFilterArgs DefaultConfig user
    /\ (forall o tok,
           In (o, tok) (MergeAndFilterArgsTagged DefaultConfig user) ->
           o <> PairValue ->
           isDashO tok = false)
    /\ (forall before tok after,
           MergeAndFilterArgs DefaultConfig user = before ++ tok :: after ->
           isDashO tok = true ->
           exists before' f,
             before = before' ++ [f] /\ isPairFlag f = true
             /\ safeArgPath tok = true).
Proof.
  intros user. split; [apply tagged_erase|]. split.
  - intros o tok. apply tagged_not_dash_o.
  - intros before tok after. apply dash_o_is_pair_value.
Qed.

Lemma dash_o_only_as_pair_value_witness :
  MergeAndFilterArgs DefaultConfig
    ["-o"; "-O2"; "-o=evil.js"; "--embed-file"; "-o"; "-g"]
  = DefaultArgs DefaultConfig ++ ["-O2"; "--embed-file"; "-o"; "-g"]
  /\ isDashO "-O2" = false
  /\ exists before' f,
       DefaultArgs DefaultConfig ++ ["-O2"; "--embed-file"] = before' ++ [f]
       /\ isPairFlag f = true /\ safeArgPath "-o" = true.
Proof.
  destruct (dash_o_only_as_pair_value
              ["-o"; "-O2"; "-o=evil.js"; "--embed-file"; "-o"; "-g"])
    as (_ & Hrest & Hpos).
  split; [vm_compute; reflexivity|]. split.
  - apply (Hrest Single "-O2"); [vm_compute; tauto|discriminate].
  - apply (Hpos (DefaultArgs DefaultConfig ++ ["-O2"; "--embed-file"])
             "-o" ["-g"]); vm_compute; reflexivity.
Defined.

Lemma readsWhole_two a b pre :
  readsWhole (a :: b :: pre) =
  if (TrimSpace a =? "")%string then readsWhole (b :: pre)
  else if isPairFlag (TrimSpace a) then readsWhole pre
  else readsWhole (b :: pre).
Proof. reflexivity. Qed.

(** The loop goes on after a prefix read whole as it would start. *)
Lemma filterLoop_after pre :
  readsWhole pre = true ->
  forall l result,
    filterLoop (pre ++ l) result = filterLoop l (filterLoop pre result).
Proof.
  induction pre as [|a|a b pre IHl IHbl] using list_ind_two;
    intros Hpre l result.
  - reflexivity.
  - simpl in Hpre. change ([a] ++ l) with (a :: l).
    destruct (TrimSpace a =? "")%string eqn:He.
    + simpl. now rewrite He.
    + destruct (isPairFlag (TrimSpace a)) eqn:Hp; [discriminate Hpre|].
      rewrite (filterLoop_cons_not_pair a l result Hp), He, filterLoop_one, He.
      reflexivity.
  - rewrite readsWhole_two in Hpre.
    change ((a :: b :: pre) ++ l) with (a :: b :: (pre ++ l)).
    rewrite !filterLoop_two.
    destruct (TrimSpace a =? "")%string.
    + now apply (IHbl Hpre).
    + destruct (isPairFlag (TrimSpace a)).
      * destruct (negb (safeArgPath (TrimSpace b))); now apply IHl.
      * now apply (IHbl Hpre).
Qed.

Lemma filterLoopTagged_after pre :
  readsWhole pre = true ->
  forall l result,
    filterLoopTagged (pre ++ l) result
    = filterLoopTagged l (filterLoopTagged pre result).
Proof.
  induction pre as [|a|a b pre IHl IHbl] using list_ind_two;
    intros Hpre l result.
  - reflexivity.
  - simpl in Hpre. change ([a] ++ l) with (a :: l).
    destruct (TrimSpace a =? "")%string eqn:He.
    + simpl. now rewrite He.
    + destruct (isPairFlag (TrimSpace a)) eqn:Hp; [discriminate Hpre|].
      rewrite filterLoopTagged_one, He. simpl. now rewrite He, Hp.
  - rewrite readsWhole_two in Hpre.
    change ((a :: b :: pre) ++ l) with (a :: b :: (pre ++ l)).
    rewrite !filterLoopTagged_two.
    destruct (TrimSpace a =? "")%string.
    + now apply (IHbl Hpre).
    + destruct (isPairFlag (TrimSpace a)).
      * destruct (negb (safeArgPath (TrimSpace b))); now apply IHl.
      * now apply (IHbl Hpre).
Qed.

(** What the loop does with a flag and its candidate value, where it
    reads the flag as one. *)
Lemma pair_at_flag cfg pre a n rest :
  readsWhole pre = true ->
  isPairFlag (TrimSpace a) = true ->
  MergeAndFilterArgs cfg (pre ++ a :: n :: rest)
  = if safeArgPath (TrimSpace n)
    then MergeAndFilterArgs cfg pre
         ++ TrimSpace a :: TrimSpace n :: filterLoop rest []
    else MergeAndFilterArgs cfg (pre ++ rest).
Proof.
  intros Hpre Ha. unfold MergeAndFilterArgs.
  rewrite !(filterLoop_after pre Hpre), filterLoop_two, Ha.
  destruct (TrimSpace a =? "")%string eqn:He.
  { apply String.eqb_eq in He. rewrite He in Ha. discriminate Ha. }
  destruct (safeArgPath (TrimSpace n)); cbn [negb]; [|reflexivity].
  rewrite filterLoop_app, <- app_assoc. reflexivity.
Qed.

(** C3.  In the filter's output, a token accepted as the value of a pair
    neither starts with [/] nor contains [..], and it stands right after
    the pair's flag, one of [--preload-file], [--embed-file] and
    [--source-map-base]; when the candidate value is unsafe, the flag and
    the value are both dropped: the output is that of the vector without
    the two tokens.  The output is the list of tokens that the loop
    appends, each of which is known by the statement that appended it. *)
Theorem pair_value_path_safe :
  forall (cfg : Config) (user : list string),
    map snd (MergeAndFilterArgsTagged cfg user) = MergeAndFilterArgs cfg user
    /\ (forall before v after,
           MergeAndFilterArgsTagged cfg user
             = before ++ (PairValue, v) :: after ->
           HasPrefix v "/" = false /\ Contains v ".." = false
           /\ exists before' f,
                before = before' ++ [(PairFlag, f)] /\ isPairFlag f = true
                /\ MergeAndFilterArgs cfg user
                   = map snd before' ++ f :: v :: map snd after)
    /\ (forall pre a n rest,
           user = pre ++ a :: n :: rest ->
           readsWhole pre = true ->
           isPairFlag (TrimSpace a) = true ->
           (safeArgPath (TrimSpace n) = false ->
            MergeAndFilterArgs cfg user = MergeAndFilterArgs cfg (pre ++ rest))
           /\ (safeArgPath (TrimSpace n) = true ->
               exists tail,
                 MergeAndFilterArgs cfg user
                 = MergeAndFilterArgs cfg pre
                   ++ TrimSpace a :: TrimSpace n :: tail
                 /\ MergeAndFilterArgs cfg (pre ++ rest)
                    = MergeAndFilterArgs cfg pre ++ tail
                 /\ exists before after,
                      MergeAndFilterArgsTagged cfg user
                      = before ++ (PairFlag, TrimSpace a)
                               :: (PairValue, TrimSpace n) :: after)).
Proof.
  intros cfg user. split; [apply tagged_erase|]. split.
  - intros before v after Heq.
    destruct (tagged_pair_value_in_output cfg user before v after Heq)
      as (Hsafe & Hpos).
    apply safeArgPath_true in Hsafe as [H1 H2].
    split; [exact H1|]. split; [exact H2|exact Hpos].
  - intros pre a n rest -> Hpre Ha.
    pose proof (pair_at_flag cfg pre a n rest Hpre Ha) as Hout.
    split; intros Hs; rewrite Hs in Hout; [exact Hout|].
    exists (filterLoop rest []). split; [exact Hout|]. split.
    + unfold MergeAndFilterArgs.
      rewrite (filterLoop_after pre Hpre). apply filterLoop_app.
    + exists (MergeAndFilterArgsTagged cfg pre), (filterLoopTagged rest []).
      unfold MergeAndFilterArgsTagged.
      rewrite (filterLoopTagged_after pre Hpre),
        filterLoopTagged_two, Ha, Hs.
      destruct (TrimSpace a =? "")%string eqn:He.
      { apply String.eqb_eq in He. rewrite He in Ha. discriminate Ha. }
      cbn [negb]. rewrite filterLoopTagged_app, <- app_assoc. reflexivity.
Qed.

Lemma pair_value_path_safe_witness :
  (HasPrefix "assets" "/" = false /\ Contains "assets" ".." = false)
  /\ MergeAndFilterArgs DefaultConfig
       ["-O2"; "--preload-file"; "assets"; "--embed-file"; "../etc/passwd";
        "-g"]
     = MergeAndFilterArgs DefaultConfig
         ["-O2"; "--preload-file"; "assets"; "-g"]
  /\ MergeAndFilterArgs DefaultConfig
       ["-O2"; "--preload-file"; "assets"; "-g"]
     = DefaultArgs DefaultConfig ++ ["-O2"; "--preload-file"; "assets"; "-g"].
Proof.
  destruct (pair_value_path_safe DefaultConfig
              ["-O2"; "--preload-file"; "assets"; "-g"])
    as (_ & Hsafe & _).
  destruct (pair_value_path_safe DefaultConfig
              ["-O2"; "--preload-file"; "assets";
               "--embed-file"; "../etc/passwd"; "-g"])
    as (_ & _ & Hpair).
  split; [|split].
  - destruct (Hsafe (map (pair FromDefaults) (DefaultArgs DefaultConfig)
                     ++ [(Single, "-O2"); (PairFlag, "--preload-file")])
                    "assets" [(Single, "-g")]) as (H1 & H2 & _);
      [vm_compute; reflexivity|now split].
  - apply (proj1 (Hpair ["-O2"; "--preload-file"; "assets"] "--embed-file"
                    "../etc/passwd" ["-g"] eq_refl eq_refl eq_refl)).
    reflexivity.
  - vm_compute. reflexivity.
Defined.

(** C10.  Some user argument vector gets a node-selecting argument
    through the filter: [-sENVIRONMENT=node,worker] is not the blocked
    flag [-sENVIRONMENT=node] and does not start with
    [-sENVIRONMENT=node=], so the block rule does not fire, and the allow
    prefix [-sENVIRONMENT=] accepts it. *)
Theorem environment_node_list_passes :
  exists user : list string,
    In "-sENVIRONMENT=node,worker" (MergeAndFilterArgs DefaultConfig user)
    /\ In "-sENVIRONMENT=node" blocked
    /\ isBlockedArg "-sENVIRONMENT=node,worker" blocked = false
    /\ HasPrefix "-sENVIRONMENT=node,worker" "-sENVIRONMENT=" = true
    /\ isAllowedArg "-sENVIRONMENT=node,worker" allowedPrefix = true
    /\ MergeAndFilterArgs DefaultConfig user
       = DefaultArgs DefaultConfig ++ ["-sENVIRONMENT=node,worker"].
Proof.
  exists ["-sENVIRONMENT=node,worker"].
  split; [vm_compute; tauto|].
  split; [unfold blocked; simpl; tauto|].
  repeat split; vm_compute; reflexivity.
Qed.

End ArgFilterFacts.

(* ================================================================= *)
(** ** The reclaimer *)

Module CleanupFacts.
Import Cleanup Fixtures.
Local Open Scope list_scope.

Lemma ttl_of_zero_days :
  ttl (snd (StartCleanupLoop (NewServer cfgTTLDaysZero))) = 0.
Proof. reflexivity. Qed.

(** With a TTL of zero every directory whose mtime lies in the past is
    removed. *)
Lemma removes_at_ttl_zero e fi :
  Stat e = Some fi -> IsDir fi = true -> ModTime fi < Now e ->
  removes 0 e = true.
Proof.
  intros Hs Hd Hlt. unfold removes, Sub. rewrite Hs, Hd. simpl.
  destruct (Now e - ModTime fi <? Int64.min_int) eqn:H1.
  - apply Z.ltb_lt in H1. unfold Int64.min_int in H1. lia.
  - destruct (Int64.max_int <? Now e - ModTime fi) eqn:H2.
    + reflexivity.
    + apply Z.ltb_lt. lia.
Qed.

(** C1 (the code at the failing input).  With [artifactTTLDays = 0] the
    loop runs with a TTL of zero, and its first round removes an artifact
    directory that was modified one hour earlier: reclamation is not
    disabled. *)
Theorem ttl_zero_removes_directories :
  let l := snd (StartCleanupLoop (NewServer cfgTTLDaysZero)) in
  let now := 1000 * Hour in
  let d := {| Name := "9f3a01bc";
              Stat := Some {| IsDir := true; ModTime := now - Hour |};
              Now := now |} in
  ArtifactTTLDays cfgTTLDaysZero = 0
  /\ ttl l = 0
  /\ cleanupLoop l [Some [d]] = [["9f3a01bc"]].
Proof. repeat split. Qed.

End CleanupFacts.

(* ================================================================= *)
(** ** Resource gating *)

Module GatingFacts.
Import Gating Fixtures.
Local Open Scope list_scope.

Lemma acquireMemory_nil s n :
  acquireMemory [] s n =
  if memBudgetBytes s =? 0 then Returned (reserve s n) None else Waiting s.
Proof. reflexivity. Qed.

Lemma acquireMemory_cons w world s n :
  acquireMemory (w :: world) s n =
  if memBudgetBytes s =? 0 then Returned (reserve s n) None
  else
    match readCgroupMemoryCurrent (files w) (CgroupV2Root (cfg s)) with
    | Err _ => wait w s (fun s => acquireMemory world s n)
    | Ok cur =>
        if fits s cur n (memBudgetBytes s)
        then Returned (reserve s n) None
        else wait w s (fun s => acquireMemory world s n)
    end.
Proof. reflexivity. Qed.

Lemma acquireMemory_unlimited world s n :
  memBudgetBytes s = 0 ->
  acquireMemory world s n = Returned (reserve s n) None.
Proof.
  intros H. destruct world; simpl; now rewrite H.
Qed.

Lemma reserve_reserved s n :
  memReservedBytes (reserve s n) = Int64.add (memReservedBytes s) n.
Proof. reflexivity. Qed.

Lemma reserve_budget s n : memBudgetBytes (reserve s n) = memBudgetBytes s.
Proof. reflexivity. Qed.

Lemma fits_spec s cur n max :
  fits s cur n max = true <->
  Int64.add (Int64.add cur (memReservedBytes s)) n <= max.
Proof. unfold fits. apply Z.leb_le. Qed.

(** While the sums stay in range the test is the one on integers. *)
Lemma fits_in_range s cur n max :
  Int64.in_range (cur + memReservedBytes s) ->
  Int64.in_range (cur + memReservedBytes s + n) ->
  (fits s cur n max = true <-> cur + memReservedBytes s + n <= max).
Proof.
  intros H1 H2. rewrite fits_spec.
  rewrite (Int64Facts.add_small cur _ H1).
  now rewrite (Int64Facts.add_small _ n H2).
Qed.

(** A call leaves the server as it found it unless it grants. *)
Lemma acquireMemory_cases world :
  forall s n,
    match acquireMemory world s n with
    | Returned s' None => s' = reserve s n
    | Returned s' (Some e) =>
        s' = s /\ exists w, In w world /\ selected w = CtxDone e
    | Waiting s' => s' = s
    end.
Proof.
  induction world as [|w world IH]; intros s n.
  - rewrite acquireMemory_nil. now destruct (memBudgetBytes s =? 0).
  - rewrite acquireMemory_cons.
    assert (Hwait :
      match wait w s (fun s => acquireMemory world s n) with
      | Returned s' None => s' = reserve s n
      | Returned s' (Some e) =>
          s' = s /\ exists w0, In w0 (w :: world) /\ selected w0 = CtxDone e
      | Waiting s' => s' = s
      end).
    { unfold wait. destruct (selected w) as [e|] eqn:Hsel.
      - split; [reflexivity|]. exists w. split; [now left|exact Hsel].
      - specialize (IH s n).
        destruct (acquireMemory world s n) as [s' [e|]|s']; try exact IH.
        destruct IH as [-> (w0 & Hin & Hw0)].
        split; [reflexivity|]. exists w0. split; [now right|exact Hw0]. }
    destruct (memBudgetBytes s =? 0); [reflexivity|].
    destruct (readCgroupMemoryCurrent _ _) as [cur|err]; [|exact Hwait].
    destruct (fits s cur n (memBudgetBytes s)); [reflexivity|exact Hwait].
Qed.

(** C6.  When [acquireMemory] returns an error, the server, and with
    it the sum of reservations, is what it was when the call started;
    the error is the [ctx.Err()] of a round that ended in [select],
    whether that round's probe failed or its capacity test did. *)
Theorem acquireMemory_error_leaves_reserved :
  forall (world : list Attempt) (s : Server) (n : Z) (s' : Server)
         (e : error),
    acquireMemory world s n = Returned s' (Some e) ->
    memReservedBytes s' = memReservedBytes s
    /\ s' = s
    /\ exists w, In w world /\ selected w = CtxDone e.
Proof.
  intros world s n s' e H.
  pose proof (acquireMemory_cases world s n) as Hc. rewrite H in Hc.
  destruct Hc as [-> Hw]. now repeat split.
Qed.

Lemma acquireMemory_error_leaves_reserved_witness :
  (* the probe cannot be read, then the client goes away *)
  (acquireMemory [mkAttempt emptyDir (CtxDone canceled)]
                 (serverWith GiB (512 * MiB)) (256 * MiB)
   = Returned (serverWith GiB (512 * MiB)) (Some canceled)
   /\ memReservedBytes (serverWith GiB (512 * MiB)) = 512 * MiB)
  (* no room, a tick, still no room, then the client goes away *)
  /\ (acquireMemory
        [mkAttempt (cgroupDir "max" "943718400") Tick;
         mkAttempt (cgroupDir "max" "943718400") (CtxDone canceled)]
        (serverWith GiB 0) (256 * MiB)
      = Returned (serverWith GiB 0) (Some canceled)
      /\ memReservedBytes (serverWith GiB 0) = 0).
Proof.
  split.
  - split; [reflexivity|].
    exact (proj1 (acquireMemory_error_leaves_reserved
                    [mkAttempt emptyDir (CtxDone canceled)]
                    (serverWith GiB (512 * MiB)) (256 * MiB)
                    (serverWith GiB (512 * MiB)) canceled eq_refl)).
  - split; [reflexivity|].
    exact (proj1 (acquireMemory_error_leaves_reserved
                    [mkAttempt (cgroupDir "max" "943718400") Tick;
                     mkAttempt (cgroupDir "max" "943718400")
                               (CtxDone canceled)]
                    (serverWith GiB 0) (256 * MiB)
                    (serverWith GiB 0) canceled eq_refl)).
Defined.

(** C8, as stated, fails: for the empty root the probe returns the
    error "cgroup root not set", not 0. *)
Lemma readCgroupMemoryMax_empty_root_is_error :
  readCgroupMemoryMax (cgroupDir "max" "0") "" = Err errCgroupRootNotSet
  /\ readCgroupMemoryMax (cgroupDir "max" "0") "" <> Ok 0.
Proof. split; [reflexivity|discriminate]. Qed.

Lemma digit_not_sign c : isDecimalDigit c = true -> isSign c = false.
Proof.
  unfold isDecimalDigit, isSign. cbv zeta. intros H.
  apply andb_true_iff in H as [H1 _].
  apply Nat.leb_le in H1.
  apply orb_false_iff. split; apply Nat.eqb_neq; intros Heq;
    rewrite Heq in H1; vm_compute in H1; lia.
Qed.

Lemma scanNumber_digits digits rest :
  allDigits digits = true ->
  startsWithDigit rest = false ->
  scanNumber (digits ++ rest) = digits.
Proof.
  intros Hd Hr. induction digits as [|c digits IH]; simpl.
  - destruct rest as [|c rest]; [reflexivity|].
    simpl in Hr |- *. now rewrite Hr.
  - simpl in Hd. apply andb_true_iff in Hd as [Hc Hd].
    rewrite Hc. f_equal. now apply IH.
Qed.

Lemma decimalValue_nonneg s : forall acc, 0 <= acc -> 0 <= decimalValue acc s.
Proof.
  induction s as [|c s IH]; intros acc Hacc; cbn [decimalValue];
    [exact Hacc|].
  apply IH. lia.
Qed.

(** The scan of a text that begins with a number without sign. *)
Lemma Sscanf_d_digits digits rest :
  digits <> "" ->
  allDigits digits = true ->
  startsWithDigit rest = false ->
  Sscanf_d (digits ++ rest) =
  if decimalValue 0 digits <=? Int64.max_int
  then Ok (decimalValue 0 digits)
  else Err (errScan (OutOfRange digits)).
Proof.
  intros Hne Hd Hr.
  pose proof (scanNumber_digits digits rest Hd Hr) as Hscan.
  destruct digits as [|c digits]; [contradiction|].
  assert (Hc : isDecimalDigit c = true).
  { simpl in Hd. now apply andb_true_iff in Hd as [Hc _]. }
  change (String c digits ++ rest)%string
    with (String c (digits ++ rest)%string) in *.
  unfold Sscanf_d. rewrite (digit_not_sign c Hc), Hscan.
  change ("" ++ String c digits)%string with (String c digits).
  change (String c digits =? "")%string with false.
  change ("" =? "-")%string with false. cbv iota.
  pose proof (decimalValue_nonneg (String c digits) 0 ltac:(lia)) as Hpos.
  assert (Hmin : (Int64.min_int <=? decimalValue 0 (String c digits)) = true).
  { apply Z.leb_le. unfold Int64.min_int. lia. }
  rewrite Hmin. reflexivity.
Qed.

(** C8 (amended).  [readCgroupMemoryMax(root)] returns the error
    "cgroup root not set" when [root] is empty.  Otherwise it reads
    [<root>/memory.max]: a read failure is returned as it is; a file
    whose text, without surrounding white space, is [max] gives 0
    without error; any other text goes to the scan of [%d], whose value
    or error is returned.  That scan reads an optional sign and the
    decimal digits up to the first character that is not one: a text
    that begins with a number without sign gives that number when it
    fits an [int64] and an error when it does not, whatever follows the
    digits; an empty text and a text that begins with neither a sign nor
    a digit give an error. *)
Theorem readCgroupMemoryMax_cases :
  forall (readFile : Files) (root : string),
    (root = "" ->
     readCgroupMemoryMax readFile root = Err errCgroupRootNotSet)
    /\ (root <> "" ->
        forall e, readFile root "memory.max" = Err e ->
                  readCgroupMemoryMax readFile root = Err e)
    /\ (root <> "" ->
        forall b, readFile root "memory.max" = Ok b ->
                  TrimSpace b = "max" ->
                  readCgroupMemoryMax readFile root = Ok 0)
    /\ (root <> "" ->
        forall b, readFile root "memory.max" = Ok b ->
                  TrimSpace b <> "max" ->
                  readCgroupMemoryMax readFile root = Sscanf_d (TrimSpace b))
    /\ (root <> "" ->
        forall b digits rest,
          readFile root "memory.max" = Ok b ->
          TrimSpace b = (digits ++ rest)%string ->
          digits <> "" ->
          allDigits digits = true ->
          startsWithDigit rest = false ->
          (decimalValue 0 digits <= Int64.max_int ->
           readCgroupMemoryMax readFile root = Ok (decimalValue 0 digits))
          /\ (Int64.max_int < decimalValue 0 digits ->
              readCgroupMemoryMax readFile root
              = Err (errScan (OutOfRange digits))))
    /\ (root <> "" ->
        forall b, readFile root "memory.max" = Ok b ->
                  TrimSpace b = "" ->
                  readCgroupMemoryMax readFile root
                  = Err (errScan UnexpectedEOF))
    /\ (root <> "" ->
        forall b c rest,
          readFile root "memory.max" = Ok b ->
          TrimSpace b = String c rest ->
          TrimSpace b <> "max" ->
          isSign c = false ->
          isDecimalDigit c = false ->
          readCgroupMemoryMax readFile root
          = Err (errScan ExpectedInteger)).
Proof.
  intros readFile root. unfold readCgroupMemoryMax.
  split; [intros ->; reflexivity|].
  assert (Hscan : forall b, (TrimSpace b =? "max")%string = false ->
            match Sscanf_d (TrimSpace b) with
            | Ok v => Ok v
            | Err e => Err e
            end = Sscanf_d (TrimSpace b))
    by (intros b _; now destruct (Sscanf_d (TrimSpace b))).
  repeat match goal with |- _ /\ _ => split end; intros Hroot;
    apply String.eqb_neq in Hroot; rewrite Hroot.
  - intros e ->. reflexivity.
  - intros b -> ->. reflexivity.
  - intros b -> Hmax. apply String.eqb_neq in Hmax. rewrite Hmax.
    now apply Hscan.
  - intros b digits rest -> Ht Hne Hd Hr.
    assert (Hmax : (TrimSpace b =? "max")%string = false).
    { apply String.eqb_neq. rewrite Ht. intros Heq.
      destruct digits as [|c digits]; [contradiction|].
      simpl in Hd. apply andb_true_iff in Hd as [Hc _].
      injection Heq as -> _. discriminate Hc. }
    rewrite Hmax, (Hscan b Hmax), Ht, (Sscanf_d_digits digits rest Hne Hd Hr).
    split; intros Hv.
    + apply Z.leb_le in Hv. now rewrite Hv.
    + apply Z.leb_gt in Hv. now rewrite Hv.
  - intros b -> ->. reflexivity.
  - intros b c rest -> Ht Hmax Hs Hc.
    apply String.eqb_neq in Hmax. rewrite Hmax, Ht.
    unfold Sscanf_d. rewrite Hs. cbn [scanNumber]. rewrite Hc. reflexivity.
Qed.

Lemma readCgroupMemoryMax_cases_witness :
  readCgroupMemoryMax emptyDir "" = Err errCgroupRootNotSet
  /\ readCgroupMemoryMax emptyDir "cgroup"
     = Err (errOS "no such file or directory")
  /\ readCgroupMemoryMax (cgroupDir ("max" ++ bytes [10%nat]) "0")
       "cgroup" = Ok 0
  /\ readCgroupMemoryMax (cgroupDir "-5" "0") "cgroup" = Ok (-5)
  /\ readCgroupMemoryMax (cgroupDir ("1073741824" ++ bytes [10%nat]) "0")
       "cgroup" = Ok 1073741824
  /\ readCgroupMemoryMax (cgroupDir "1_000" "0") "cgroup" = Ok 1
  /\ readCgroupMemoryMax (cgroupDir "9223372036854775808" "0") "cgroup"
     = Err (errScan (OutOfRange "9223372036854775808"))
  /\ readCgroupMemoryMax (cgroupDir "  " "0") "cgroup"
     = Err (errScan UnexpectedEOF)
  /\ readCgroupMemoryMax (cgroupDir "unlimited" "0") "cgroup"
     = Err (errScan ExpectedInteger).
Proof.
  repeat match goal with |- _ /\ _ => split end.
  - exact (proj1 (readCgroupMemoryMax_cases emptyDir "") eq_refl).
  - apply (proj1 (proj2 (readCgroupMemoryMax_cases emptyDir "cgroup")));
      [discriminate|reflexivity].
  - apply (proj1 (proj2 (proj2 (readCgroupMemoryMax_cases
             (cgroupDir ("max" ++ bytes [10%nat]) "0") "cgroup")))
             ltac:(discriminate)
             ("max" ++ bytes [10%nat])%string);
      reflexivity.
  - rewrite (proj1 (proj2 (proj2 (proj2 (readCgroupMemoryMax_cases
               (cgroupDir "-5" "0") "cgroup"))))
               ltac:(discriminate) "-5" eq_refl);
      [reflexivity|discriminate].
  - apply (proj1 (proj2 (proj2 (proj2 (proj2 (readCgroupMemoryMax_cases
             (cgroupDir ("1073741824" ++ bytes [10%nat]) "0") "cgroup")))))
             ltac:(discriminate)
             ("1073741824" ++ bytes [10%nat])%string "1073741824" ""
             eq_refl eq_refl ltac:(discriminate) eq_refl eq_refl).
    vm_compute. discriminate.
  - apply (proj1 (proj2 (proj2 (proj2 (proj2 (readCgroupMemoryMax_cases
             (cgroupDir "1_000" "0") "cgroup")))))
             ltac:(discriminate)
             "1_000" "1" "_000"
             eq_refl eq_refl ltac:(discriminate) eq_refl eq_refl).
    vm_compute. discriminate.
  - apply (proj1 (proj2 (proj2 (proj2 (proj2 (readCgroupMemoryMax_cases
             (cgroupDir "9223372036854775808" "0") "cgroup")))))
             ltac:(discriminate)
             "9223372036854775808" "9223372036854775808" ""
             eq_refl eq_refl ltac:(discriminate) eq_refl eq_refl).
    vm_compute. reflexivity.
  - apply (proj1 (proj2 (proj2 (proj2 (proj2 (proj2
             (readCgroupMemoryMax_cases (cgroupDir "  " "0") "cgroup"))))))
             ltac:(discriminate) "  " eq_refl eq_refl).
  - apply (proj2 (proj2 (proj2 (proj2 (proj2 (proj2
             (readCgroupMemoryMax_cases
                (cgroupDir "unlimited" "0") "cgroup"))))))
             ltac:(discriminate) "unlimited" "u"%char "nlimited"
             eq_refl eq_refl ltac:(discriminate) eq_refl eq_refl).
Defined.

(** C4, as stated, fails where the sum leaves [int64]: with a budget of
    1 GiB, nothing reserved and a [memory.current] of 2^63 - 1, a request
    for 256 MiB is granted although current + reserved + n exceeds the
    budget. *)
Lemma grant_past_budget_on_overflow :
  let s := serverWith GiB 0 in
  let w := mkAttempt (cgroupDir "max" "9223372036854775807") Tick in
  readCgroupMemoryCurrent (files w) (CgroupV2Root (cfg s))
    = Ok (2 ^ 63 - 1)
  /\ acquireMemory [w] s (256 * MiB) = Returned (reserve s (256 * MiB)) None
  /\ ~ (2 ^ 63 - 1 + memReservedBytes s + 256 * MiB <= memBudgetBytes s).
Proof.
  split; [reflexivity|]. split; [reflexivity|].
  vm_compute. intros H. now apply H.
Qed.

(** C4 (amended).  With a budget of 0, [acquireMemory] adds [n] to
    [reserved] (in [int64] arithmetic) and returns success at once,
    whatever the rounds to come.  With a positive budget, a round whose
    probe reads [cur] grants, adding [n] to [reserved], if and only if
    the [int64] sum cur + reserved + n, which is the sum of the integers
    as long as that fits 64 bits, is at most the budget; a round that
    does not grant, because the test fails or because the probe cannot
    be read, waits in [select] on the context and on a ticker of 200 ms:
    on a tick the loop starts over with the next round, on cancellation
    the call returns the context's error. *)
Theorem acquireMemory_round :
  forall (w : Attempt) (world : list Attempt) (s : Server) (n : Z),
    (memBudgetBytes s = 0 ->
     acquireMemory world s n = Returned (reserve s n) None
     /\ memReservedBytes (reserve s n) = Int64.add (memReservedBytes s) n)
    /\ (0 < memBudgetBytes s ->
        forall cur,
          readCgroupMemoryCurrent (files w) (CgroupV2Root (cfg s)) = Ok cur ->
          (acquireMemory [w] s n = Returned (reserve s n) None <->
           Int64.add (Int64.add cur (memReservedBytes s)) n
             <= memBudgetBytes s)
          /\ (Int64.add (Int64.add cur (memReservedBytes s)) n
                <= memBudgetBytes s ->
              acquireMemory (w :: world) s n = Returned (reserve s n) None)
          /\ (~ Int64.add (Int64.add cur (memReservedBytes s)) n
                  <= memBudgetBytes s ->
              acquireMemory (w :: world) s n =
              match selected w with
              | CtxDone e => Returned s (Some e)
              | Tick => acquireMemory world s n
              end)
          /\ (Int64.in_range (cur + memReservedBytes s) ->
              Int64.in_range (cur + memReservedBytes s + n) ->
              Int64.add (Int64.add cur (memReservedBytes s)) n
              = cur + memReservedBytes s + n))
    /\ (0 < memBudgetBytes s ->
        forall e0,
          readCgroupMemoryCurrent (files w) (CgroupV2Root (cfg s)) = Err e0 ->
          acquireMemory (w :: world) s n =
          match selected w with
          | CtxDone e => Returned s (Some e)
          | Tick => acquireMemory world s n
          end)
    /\ tickerPeriod = 200 * Millisecond.
Proof.
  intros w world s n. split; [|split; [|split]].
  - intros H. split; [now apply acquireMemory_unlimited|reflexivity].
  - intros Hpos cur Hcur.
    assert (Hne : (memBudgetBytes s =? 0) = false) by (apply Z.eqb_neq; lia).
    split; [|split; [|split]].
    + rewrite acquireMemory_cons, Hne, Hcur, <- fits_spec.
      destruct (fits s cur n (memBudgetBytes s)); [tauto|].
      split; [|discriminate].
      unfold wait. rewrite acquireMemory_nil, Hne.
      destruct (selected w); discriminate.
    + intros Hle. apply fits_spec in Hle.
      now rewrite acquireMemory_cons, Hne, Hcur, Hle.
    + intros Hgt. rewrite <- fits_spec in Hgt.
      apply not_true_is_false in Hgt.
      now rewrite acquireMemory_cons, Hne, Hcur, Hgt.
    + intros H1 H2. rewrite (Int64Facts.add_small cur _ H1).
      now rewrite (Int64Facts.add_small _ n H2).
  - intros Hpos e0 Hcur.
    assert (Hne : (memBudgetBytes s =? 0) = false) by (apply Z.eqb_neq; lia).
    now rewrite acquireMemory_cons, Hne, Hcur.
  - reflexivity.
Qed.

Lemma acquireMemory_round_witness :
  (* no budget: granted at once *)
  acquireMemory [] (serverWith 0 (256 * MiB)) (256 * MiB)
    = Returned (serverWith 0 (512 * MiB)) None
  (* 512 MiB in use, 256 MiB reserved, 256 MiB asked, 1 GiB: granted *)
  /\ acquireMemory [mkAttempt (cgroupDir "max" "536870912") Tick]
       (serverWith GiB (256 * MiB)) (256 * MiB)
     = Returned (serverWith GiB (512 * MiB)) None
  (* 900 MiB in use: a tick, then 512 MiB in use: granted *)
  /\ acquireMemory [mkAttempt (cgroupDir "max" "943718400") Tick;
                    mkAttempt (cgroupDir "max" "536870912") Tick]
       (serverWith GiB 0) (256 * MiB)
     = Returned (serverWith GiB (256 * MiB)) None
  (* the probe fails: a tick, then granted *)
  /\ acquireMemory [mkAttempt emptyDir Tick;
                    mkAttempt (cgroupDir "max" "536870912") Tick]
       (serverWith GiB 0) (256 * MiB)
     = Returned (serverWith GiB (256 * MiB)) None.
Proof.
  split; [|split; [|split]].
  - exact (proj1 (proj1 (acquireMemory_round
             (mkAttempt emptyDir Tick) [] (serverWith 0 (256 * MiB))
             (256 * MiB)) eq_refl)).
  - apply (proj1 (proj2 (acquireMemory_round
             (mkAttempt (cgroupDir "max" "536870912") Tick) []
             (serverWith GiB (256 * MiB)) (256 * MiB)))
             ltac:(reflexivity) 536870912 eq_refl).
    vm_compute. discriminate.
  - rewrite (proj1 (proj2 (proj2 (proj1 (proj2 (acquireMemory_round
             (mkAttempt (cgroupDir "max" "943718400") Tick)
             [mkAttempt (cgroupDir "max" "536870912") Tick]
             (serverWith GiB 0) (256 * MiB)))
             ltac:(reflexivity) 943718400 eq_refl))));
      [reflexivity|].
    vm_compute. intros H. now apply H.
  - rewrite (proj1 (proj2 (proj2 (acquireMemory_round
             (mkAttempt emptyDir Tick)
             [mkAttempt (cgroupDir "max" "536870912") Tick]
             (serverWith GiB 0) (256 * MiB))))
             ltac:(reflexivity) (errOS "no such file or directory") eq_refl).
    reflexivity.
Defined.

End GatingFacts.

(* ================================================================= *)
(** ** Calls running together *)

Module InterleavingFacts.
Import Gating Interleaving Fixtures GatingFacts.
Local Open Scope list_scope.

Lemma releaseMemory_clamps s n :
  Int64.in_range (memReservedBytes s) ->
  0 <= n ->
  memReservedBytes (releaseMemory s n) = Z.max 0 (memReservedBytes s - n).
Proof.
  unfold Int64.in_range, Int64.min_int, Int64.max_int, releaseMemory.
  intros Hr Hn.
  destruct (memReservedBytes s <? n) eqn:Hlt; simpl.
  - apply Z.ltb_lt in Hlt. lia.
  - apply Z.ltb_ge in Hlt.
    rewrite Int64Facts.sub_small;
      unfold Int64.in_range, Int64.min_int, Int64.max_int; lia.
Qed.

Lemma releaseMemory_counted s n :
  counted s -> 0 <= n -> counted (releaseMemory s n).
Proof.
  unfold counted. intros Hs Hn.
  rewrite releaseMemory_clamps; [lia| |exact Hn].
  unfold Int64.in_range, Int64.min_int. lia.
Qed.

Lemma reserve_counted s n :
  counted s -> 0 <= n -> memReservedBytes s + n <= Int64.max_int ->
  counted (reserve s n).
Proof.
  unfold counted, reserve. simpl. intros Hs Hn Hle.
  rewrite Int64Facts.add_small; [lia|].
  unfold Int64.in_range, Int64.min_int. lia.
Qed.

(** A step keeps the estimates non-negative, leaves the server alone
    unless it grants or releases, and keeps the sum of reservations a
    non-negative [int64] provided a grant does not overflow. *)
Lemma threadStep_sound t s t' s' l :
  threadStep t s = Some (t', s', l) ->
  nonNegative t ->
  nonNegative t'
  /\ (l = Silent -> s' = s)
  /\ (counted s -> inRangeGrant (s, l) -> counted s').
Proof.
  unfold threadStep, nonNegative, inRangeGrant.
  destruct t as [cur td ret]; simpl.
  assert (Hsilent : forall t0 : Thread,
             (match current t0 with
              | Some (_, n, _) => 0 <= n
              | None => True
              end /\ Forall (fun c => 0 <= estimateOf c) (todo t0)) ->
             (match current t0 with
              | Some (_, n, _) => 0 <= n
              | None => True
              end /\ Forall (fun c => 0 <= estimateOf c) (todo t0))
             /\ (Silent = Silent -> s = s)
             /\ (counted s -> True -> counted s)).
  { intros t0 H0. split; [exact H0|]. split; [reflexivity|tauto]. }
  destruct cur as [[[p n] world]|].
  - intros H [Hn Htd].
    destruct p as [| |max|max c|].
    + destruct (memBudgetBytes s =? 0); injection H as <- <- <-;
        apply Hsilent; now split.
    + injection H as <- <- <-. simpl.
      split; [now split|]. split; [discriminate|].
      intros Hs Hle. now apply reserve_counted.
    + destruct world as [|w world]; [discriminate|].
      destruct (readCgroupMemoryCurrent _ _); injection H as <- <- <-;
        apply Hsilent; now split.
    + destruct (fits s c n max); injection H as <- <- <-.
      * simpl. split; [now split|]. split; [discriminate|].
        intros Hs Hle. now apply reserve_counted.
      * apply Hsilent; now split.
    + destruct world as [|w world]; [discriminate|].
      destruct (selected w); injection H as <- <- <-;
        apply Hsilent; now split.
  - intros H [_ Htd].
    destruct td as [|[n world|n] rest]; [discriminate| |];
      injection H as <- <- <-; inversion Htd as [|c0 l0 Hc Hrest];
      subst; simpl in Hc.
    + apply Hsilent; now split.
    + simpl. split; [now split|]. split; [discriminate|].
      intros Hs _. now apply releaseMemory_counted.
Qed.

Lemma Forall_replace (A : Type) (P : A -> Prop) i x (l : list A) :
  Forall P l -> P x -> Forall P (replace i x l).
Proof.
  intros Hl Hx. revert i.
  induction Hl as [|y l Hy Hl IH]; intros i; simpl.
  - destruct i; constructor.
  - destruct i; constructor; auto.
Qed.

Lemma systemStep_sound i sys sys' l :
  systemStep i sys = Some (sys', l) ->
  Forall nonNegative (threads sys) ->
  Forall nonNegative (threads sys')
  /\ (counted (shared sys) -> inRangeGrant (shared sys, l) ->
      counted (shared sys')).
Proof.
  unfold systemStep. intros H Hall.
  destruct (nth_error (threads sys) i) as [t|] eqn:Hnth; [|discriminate].
  destruct (threadStep t (shared sys)) as [[[t' s'] l']|] eqn:Hstep;
    [|discriminate].
  injection H as <- <-. simpl.
  assert (Ht : nonNegative t).
  { rewrite Forall_forall in Hall. apply Hall.
    now apply nth_error_In with i. }
  destruct (threadStep_sound _ _ _ _ _ Hstep Ht) as (Ht' & _ & Hc).
  split; [now apply Forall_replace|exact Hc].
Qed.

Lemma run_counted schedule :
  forall sys,
    Forall nonNegative (threads sys) ->
    counted (shared sys) ->
    Forall inRangeGrant (snd (run schedule sys)) ->
    Forall (fun step => counted (fst step)) (snd (run schedule sys))
    /\ counted (shared (fst (run schedule sys))).
Proof.
  induction schedule as [|i schedule IH]; intros sys Hall Hc Htrace.
  - simpl. split; [constructor|exact Hc].
  - simpl in *.
    destruct (systemStep i sys) as [[sys' l]|] eqn:Hstep.
    + destruct (run schedule sys') as [final trace] eqn:Hrun. simpl in *.
      inversion Htrace as [|x xs Hgrant Hrest]; subst.
      destruct (systemStep_sound _ _ _ _ Hstep Hall) as [Hall' Hc'].
      specialize (IH sys' Hall' (Hc' Hc Hgrant)).
      rewrite Hrun in IH. simpl in IH.
      destruct (IH Hrest) as [IH1 IH2].
      split; [constructor; [exact Hc|exact IH1]|exact IH2].
    + now apply IH.
Qed.

Lemma spawn_nonNegative calls :
  Forall (fun c => 0 <= estimateOf c) calls -> nonNegative (spawn calls).
Proof. intros H. split; [exact I|exact H]. Qed.

(** A step that grants ends its call with [nil]. *)
Lemma grant_returns_nil t s t' s' n :
  threadStep t s = Some (t', s', Granted n) ->
  current t' = None /\ returned t' = returned t ++ [None]
  /\ s' = reserve s n.
Proof.
  unfold threadStep. destruct t as [cur td ret]; simpl.
  destruct cur as [[[p m] world]|].
  - destruct p as [| |max|max c|].
    + destruct (memBudgetBytes s =? 0); discriminate.
    + intros H. injection H as <- <- <-. now repeat split.
    + destruct world as [|w world]; [discriminate|].
      destruct (readCgroupMemoryCurrent _ _); discriminate.
    + destruct (fits s c m max); [|discriminate].
      intros H. injection H as <- <- <-. now repeat split.
    + destruct world as [|w world]; [discriminate|].
      destruct (selected w); discriminate.
  - destruct td as [|[m world|m] rest]; discriminate.
Qed.

(** The step on which a call returns an error leaves the server as it
    is; so does every earlier step of that call, none of which can be a
    grant, since a grant ends the call with [nil]. *)
Lemma error_return_is_silent t s t' s' l e :
  threadStep t s = Some (t', s', l) ->
  returned t' = returned t ++ [Some e] ->
  l = Silent /\ s' = s.
Proof.
  intros Hstep Hret. destruct l as [|n|n].
  - split; [reflexivity|].
    unfold threadStep in Hstep. destruct t as [cur td ret]; simpl in *.
    destruct cur as [[[p m] world]|].
    + destruct p as [| |max|max c|].
      * destruct (memBudgetBytes s =? 0); now injection Hstep as <- <-.
      * discriminate.
      * destruct world as [|w world]; [discriminate|].
        destruct (readCgroupMemoryCurrent _ _); now injection Hstep as <- <-.
      * destruct (fits s c m max); [discriminate|].
        now injection Hstep as <- <-.
      * destruct world as [|w world]; [discriminate|].
        destruct (selected w); now injection Hstep as <- <-.
    + destruct td as [|[m world|m] rest]; try discriminate.
      now injection Hstep as <- <-.
  - destruct (grant_returns_nil _ _ _ _ _ Hstep) as (_ & Hnil & _).
    rewrite Hnil in Hret. apply app_inv_head in Hret. discriminate Hret.
  - exfalso. unfold threadStep in Hstep.
    destruct t as [cur td ret]; simpl in *.
    destruct cur as [[[p m] world]|].
    + destruct p as [| |max|max c|].
      * destruct (memBudgetBytes s =? 0); discriminate.
      * discriminate.
      * destruct world as [|w world]; [discriminate|].
        destruct (readCgroupMemoryCurrent _ _); discriminate.
      * destruct (fits s c m max); discriminate.
      * destruct world as [|w world]; [discriminate|].
        destruct (selected w); discriminate.
    + destruct td as [|[m world|m] rest]; try discriminate.
      injection Hstep as <- <- <-. simpl in Hret.
      apply (f_equal (@List.length _)) in Hret.
      rewrite length_app in Hret. simpl in Hret. lia.
Qed.

(** C7, as stated, fails: two goroutines that each ask for 2^62 bytes
    while the budget is 0 are both granted, and the sum of reservations
    wraps around to -2^63. *)
Lemma reserved_wraps_negative :
  let sys := {| shared := serverWith 0 0;
                threads := [spawn [Acquire (2 ^ 62) []];
                            spawn [Acquire (2 ^ 62) []]] |} in
  0 <= 2 ^ 62
  /\ memReservedBytes (shared sys) = 0
  /\ memReservedBytes (shared (fst (run [0; 1; 0; 1; 0; 1]%nat sys)))
     = - 2 ^ 63.
Proof. split; [lia|]. split; reflexivity. Qed.

(** C7 (amended).  [releaseMemory(n)] with a non-negative [n] replaces
    [reserved] by [max 0 (reserved - n)]: it always returns and does not
    make the sum negative.  And, starting from [reserved = 0], goroutines
    that call [acquireMemory] and [releaseMemory] with non-negative
    estimates keep [reserved >= 0] at every step of every interleaving
    in which no grant takes the sum past 2^63 - 1. *)
Theorem reserved_never_negative :
  forall (s0 : Server) (programs : list (list Call)) (schedule : list nat),
    memReservedBytes s0 = 0 ->
    Forall (Forall (fun c => 0 <= estimateOf c)) programs ->
    let sys0 := {| shared := s0; threads := map spawn programs |} in
    Forall inRangeGrant (snd (run schedule sys0)) ->
    (forall s n,
        Int64.in_range (memReservedBytes s) -> 0 <= n ->
        memReservedBytes (releaseMemory s n)
          = Z.max 0 (memReservedBytes s - n)
        /\ 0 <= memReservedBytes (releaseMemory s n))
    /\ Forall (fun step => 0 <= memReservedBytes (fst step))
              (snd (run schedule sys0))
    /\ 0 <= memReservedBytes (shared (fst (run schedule sys0))).
Proof.
  intros s0 programs schedule Hzero Hprog sys0 Htrace. split.
  - intros s n Hr Hn. rewrite releaseMemory_clamps by assumption.
    split; [reflexivity|lia].
  - assert (Hall : Forall nonNegative (threads sys0)).
    { simpl. rewrite Forall_map.
      eapply Forall_impl; [|exact Hprog].
      intros calls. apply spawn_nonNegative. }
    assert (Hc : counted (shared sys0)).
    { unfold counted. simpl. rewrite Hzero.
      unfold Int64.max_int. lia. }
    destruct (run_counted schedule sys0 Hall Hc Htrace) as [H1 H2].
    split; [|exact (proj1 H2)].
    eapply Forall_impl; [|exact H1].
    intros step Hs. exact (proj1 Hs).
Qed.

Lemma reserved_never_negative_witness :
  map snd (snd (run twoJobs {| shared := serverWith GiB 0;
                               threads := map spawn [job; job] |}))
    = [Silent; Silent; Silent; Silent; Silent; Silent;
       Granted (256 * MiB); Granted (256 * MiB);
       Released (256 * MiB); Released (256 * MiB)]
  /\ 0 <= memReservedBytes
            (shared (fst (run twoJobs
                            {| shared := serverWith GiB 0;
                               threads := map spawn [job; job] |}))).
Proof.
  split; [vm_compute; reflexivity|].
  refine (proj2 (proj2 (reserved_never_negative
                          (serverWith GiB 0) [job; job] twoJobs
                          eq_refl _ _))).
  - repeat (apply Forall_cons || apply Forall_nil);
      vm_compute; discriminate.
  - match goal with
    | |- Forall _ ?l =>
        let t := eval vm_compute in l in
        assert (E : l = t) by (vm_compute; reflexivity);
        rewrite E; clear E
    end.
    repeat (apply Forall_cons || apply Forall_nil);
      unfold inRangeGrant; cbn [fst snd]; try exact I;
      vm_compute; discriminate.
Defined.

(** *** The sequential reading of [acquireMemory] and its steps agree *)

Lemma runAlone_step fuel t s t' s' l :
  threadStep t s = Some (t', s', l) ->
  runAlone (S fuel) t s = runAlone fuel t' s'.
Proof. intros H. simpl. now rewrite H. Qed.

(** If the sequential [acquireMemory] returns, the goroutine that makes
    the call with no other goroutine running reaches, step by step, the
    same server and the same return value. *)
Lemma acquireMemory_alone world :
  forall s n td ret s' e,
    acquireMemory world s n = Returned s' e ->
    exists fuel,
      runAlone fuel
        {| current := Some (AtLoopHead, n, world); todo := td;
           returned := ret |} s
      = ({| current := None; todo := td; returned := ret ++ [e] |}, s').
Proof.
  induction world as [|w world IH]; intros s n td ret s' e H.
  - rewrite acquireMemory_nil in H.
    destruct (memBudgetBytes s =? 0) eqn:Hb; [|discriminate].
    injection H as <- <-. exists 2%nat.
    erewrite runAlone_step by (unfold threadStep; simpl; rewrite Hb; reflexivity).
    erewrite runAlone_step by reflexivity. reflexivity.
  - rewrite acquireMemory_cons in H.
    destruct (memBudgetBytes s =? 0) eqn:Hb.
    { injection H as <- <-. exists 2%nat.
      erewrite runAlone_step by (unfold threadStep; simpl; rewrite Hb; reflexivity).
      erewrite runAlone_step by reflexivity. reflexivity. }
    assert (Hwait : forall p,
      threadStep {| current := Some (p, n, w :: world); todo := td; returned := ret |} s
        = Some (at_ AtSelect n (w :: world) {| current := Some (p, n, w :: world); todo := td; returned := ret |}, s, Silent) ->
      wait w s (fun s => acquireMemory world s n) = Returned s' e ->
      exists fuel,
        runAlone fuel {| current := Some (p, n, w :: world); todo := td; returned := ret |} s
        = ({| current := None; todo := td; returned := ret ++ [e] |}, s')).
    { intros p Hp Hw. unfold wait in Hw.
      destruct (selected w) as [e0|] eqn:Hsel.
      - injection Hw as <- <-. exists 2%nat.
        erewrite runAlone_step by exact Hp.
        erewrite runAlone_step
          by (unfold threadStep, at_; simpl; rewrite Hsel; reflexivity).
        reflexivity.
      - destruct (IH s n td ret s' e Hw) as [fuel Hfuel].
        exists (S (S fuel)).
        erewrite runAlone_step by exact Hp.
        erewrite runAlone_step
          by (unfold threadStep, at_; simpl; rewrite Hsel; reflexivity).
        exact Hfuel. }
    destruct (readCgroupMemoryCurrent (files w) (CgroupV2Root (cfg s)))
      as [cur|e0] eqn:Hcur.
    + destruct (fits s cur n (memBudgetBytes s)) eqn:Hfit.
      * injection H as <- <-. exists 3%nat.
        erewrite runAlone_step by (unfold threadStep; simpl; rewrite Hb; reflexivity).
        erewrite runAlone_step
          by (unfold threadStep, at_; simpl; rewrite Hcur; reflexivity).
        erewrite runAlone_step
          by (unfold threadStep, at_; simpl; rewrite Hfit; reflexivity).
        reflexivity.
      * destruct (Hwait (AtTest (memBudgetBytes s) cur)) as [fuel Hfuel];
          [unfold threadStep; simpl; rewrite Hfit; reflexivity|exact H|].
        exists (S (S fuel)).
        erewrite runAlone_step by (unfold threadStep; simpl; rewrite Hb; reflexivity).
        erewrite runAlone_step
          by (unfold threadStep, at_; simpl; rewrite Hcur; reflexivity).
        exact Hfuel.
    + destruct (Hwait (AtProbe (memBudgetBytes s))) as [fuel Hfuel];
        [unfold threadStep; simpl; rewrite Hcur; reflexivity|exact H|].
      exists (S fuel).
      erewrite runAlone_step by (unfold threadStep; simpl; rewrite Hb; reflexivity).
      exact Hfuel.
Qed.

End InterleavingFacts.

(* ================================================================= *)
(** ** The request handler *)

Module HandlerFacts.
Import Gating Handler Fixtures GatingFacts InterleavingFacts.
Local Open Scope list_scope.

(** Whatever happens to the job, [compileJob] ends with one response
    and, before it, only touches files and runs the compiler. *)
Lemma compileJob_shape s w req lang :
  exists before resp,
    compileJob s w req lang = before ++ [Respond resp]
    /\ forallb isFileOrRun before = true.
Proof.
  unfold compileJob.
  destruct (mkdirJob w) as [e|].
  { now exists [MkdirAll (Join w [BaseDir (cfg s); JobsDir (cfg s); randomID w])],
      (HttpError (ErrorText e) StatusInternalServerError). }
  destruct (mkdirArt w) as [e|].
  { eexists [_; _], _. split; reflexivity. }
  destruct (writeSource w) as [e|].
  { eexists [_; _; _], _. split; reflexivity. }
  destruct (combinedOutput w _) as [out [e|]].
  - eexists [_; _; _; _], _. split; reflexivity.
  - eexists [_; _; _; _; _; _; _], _. split; reflexivity.
Qed.

Lemma forallb_isFileOrRun_not_acquire before est err :
  forallb isFileOrRun before = true ->
  ~ In (CallAcquireMemory est err) before.
Proof.
  intros H Hin. rewrite forallb_forall in H.
  specialize (H _ Hin). discriminate H.
Qed.

Lemma forallb_isFileOrRun_no_release before :
  forallb isFileOrRun before = true -> filter isRelease before = [].
Proof.
  induction before as [|e before IH]; [reflexivity|].
  simpl. intros H. apply andb_true_iff in H as [He Hb].
  destruct e; try discriminate He; simpl; now apply IH.
Qed.

Lemma ensureMemBudget_reserved readFile s :
  memReservedBytes (fst (ensureMemBudget readFile s)) = memReservedBytes s.
Proof.
  unfold ensureMemBudget.
  destruct (0 <? memBudgetBytes s); [reflexivity|].
  destruct (readCgroupMemoryMax _ _) as [max|e]; [|reflexivity].
  now destruct (max <=? 0).
Qed.

Lemma ensureMemBudget_cfg readFile s :
  cfg (fst (ensureMemBudget readFile s)) = cfg s.
Proof.
  unfold ensureMemBudget.
  destruct (0 <? memBudgetBytes s); [reflexivity|].
  destruct (readCgroupMemoryMax _ _) as [max|e]; [|reflexivity].
  now destruct (max <=? 0).
Qed.

Lemma estimate_positive c : 0 < estimate c <= Int64.max_int.
Proof.
  unfold estimate.
  destruct (Int64.mul (Int64.mul (JobMemoryEstimateMB c) 1024) 1024 <=? 0)
    eqn:H.
  - vm_compute. split; [reflexivity|discriminate].
  - apply Z.leb_gt in H. split; [exact H|].
    apply (Int64Facts.wrap_in_range).
Qed.

(** Acquire then release gives back the sum, short of overflow. *)
Lemma release_after_reserve s est :
  0 <= memReservedBytes s ->
  memReservedBytes s + est <= Int64.max_int ->
  0 <= est ->
  memReservedBytes (releaseMemory (reserve s est) est) = memReservedBytes s.
Proof.
  intros Hr Hle Hest.
  assert (Hadd : memReservedBytes (reserve s est) = memReservedBytes s + est).
  { rewrite reserve_reserved. apply Int64Facts.add_small.
    unfold Int64.in_range, Int64.min_int. lia. }
  rewrite releaseMemory_clamps; [rewrite Hadd; lia| |exact Hest].
  rewrite Hadd. unfold Int64.in_range, Int64.min_int. lia.
Qed.

(** C5, as stated, fails where the sum of reservations leaves [int64]:
    with an estimate of 2^62 bytes per job and one such job in flight
    ([reserved] = 2^62), a second request is admitted, [reserved] wraps
    around to -2^63, the deferred release clamps it to 0, and the handler
    returns with [reserved] = 0 instead of 2^62. *)
Lemma reserved_not_restored_on_overflow :
  estimate (cfgGating (2 ^ 42)) = 2 ^ 62
  /\ memReservedBytes (reserve (gatingServer (2 ^ 42) 0 0) (2 ^ 62)) = 2 ^ 62
  /\ option_map (fun p => (memReservedBytes (fst p), gatingCalls (snd p)))
       (HandleCompile (gatingServer (2 ^ 42) 0 (2 ^ 62)) fairWorld
          (post "int main(){return 0;}" "c" []))
     = Some (0, [CallAcquireMemory (2 ^ 62) None;
                 CallReleaseMemory (2 ^ 62)]).
Proof. repeat split; vm_compute; reflexivity. Qed.

(** C9, as stated, fails: the tag is trimmed and put in lower case
    before it is compared, so [CPP], which is none of the four strings,
    is compiled as C++; and a tag that is present but empty is taken
    for [c]. *)
Lemma upper_case_type_accepted :
  responses
    (match HandleCompile (NewServer DefaultConfig) fairWorld
             (post "int main(){return 0;}" "CPP" []) with
     | Some (_, effects) => effects
     | None => []
     end)
  = [WriteJSON StatusOK
       {| OK := true; ID := "9f3a01bc";
          JS := "/artifacts/9f3a01bc/app.js";
          WASM := "/artifacts/9f3a01bc/app.wasm";
          Error := "" |}].
Proof. vm_compute. reflexivity. Qed.

(** C9 (amended).  For a POST request whose body decodes and whose
    code is not blank, once the directories are in place: if the type,
    with surrounding white space removed and in lower case, is not
    empty and is none of [c], [cpp], [cc] and [c++], the handler answers
    400 with the text "type must be 'c' or 'cpp'" and does nothing else;
    if it is empty (the key is absent, or its value is blank), the
    handler does what it does for the type [c]. *)
Theorem unknown_type_rejected :
  forall (s : Server) (w : World) (r : Request) (req : CompileRequest),
    Method r = "POST" ->
    ensureDirs w = None ->
    Body r = Some req ->
    TrimSpace (Code req) <> "" ->
    (ToLower (TrimSpace (Type_ req)) <> "c" ->
     ToLower (TrimSpace (Type_ req)) <> "cpp" ->
     ToLower (TrimSpace (Type_ req)) <> "cc" ->
     ToLower (TrimSpace (Type_ req)) <> "c++" ->
     ToLower (TrimSpace (Type_ req)) <> "" ->
     HandleCompile s w r
     = Some (s, [Respond (HttpError (Text "type must be 'c' or 'cpp'")
                            StatusBadRequest)]))
    /\ (ToLower (TrimSpace (Type_ req)) = "" ->
        HandleCompile s w r
        = HandleCompile s w
            {| Method := "POST";
               Body := Some {| Code := Code req; Type_ := "c";
                               Args := Args req |} |}).
Proof.
  intros s w r req Hm Hd Hb Hc.
  apply String.eqb_neq in Hc.
  unfold HandleCompile. rewrite Hm, Hd, Hb. cbn [Method Body Code Type_ Args].
  rewrite Hc. change (negb ("POST" =? "POST")%string) with false. cbv iota.
  split.
  - intros H1 H2 H3 H4 H5.
    apply String.eqb_neq in H1, H2, H3, H4, H5.
    unfold badType. rewrite H1, H2, H3, H4, H5. reflexivity.
  - intros ->.
    change (ToLower (TrimSpace "c")) with "c".
    reflexivity.
Qed.

Lemma unknown_type_rejected_witness :
  HandleCompile (NewServer DefaultConfig) fairWorld (post "x" "rust" [])
  = Some (NewServer DefaultConfig,
          [Respond (HttpError (Text "type must be 'c' or 'cpp'")
                      StatusBadRequest)])
  /\ HandleCompile (NewServer DefaultConfig) fairWorld (post "x" "" [])
     = HandleCompile (NewServer DefaultConfig) fairWorld (post "x" "c" []).
Proof.
  split.
  - apply (proj1 (unknown_type_rejected (NewServer DefaultConfig) fairWorld
                    (post "x" "rust" [])
                    {| Code := "x"; Type_ := "rust"; Args := [] |}
                    eq_refl eq_refl eq_refl ltac:(vm_compute; discriminate)));
      vm_compute; discriminate.
  - exact (proj2 (unknown_type_rejected (NewServer DefaultConfig) fairWorld
                    (post "x" "" [])
                    {| Code := "x"; Type_ := ""; Args := [] |}
                    eq_refl eq_refl eq_refl ltac:(vm_compute; discriminate))
                 eq_refl).
Defined.

End HandlerFacts.

(* ================================================================= *)
(** ** More on the argument filter *)

Module ArgFilterMore.
Import ArgFilter ArgFilterFacts Order Fixtures.
Local Open Scope list_scope.

Lemma subseq_refl (A : Type) (l : list A) : subseq l l.
Proof. induction l; constructor; assumption. Qed.

Lemma filterSingle_subseq a kept rest :
  subseq kept rest -> subseq (filterSingle a [] ++ kept) (a :: rest).
Proof.
  intros H. unfold filterSingle.
  destruct (isBlockedArg a blocked); [now apply subseq_skip|].
  destruct (isAllowedArg a allowedPrefix);
    [now apply subseq_take|now apply subseq_skip].
Qed.

Lemma filterLoop_subseq user :
  subseq (filterLoop user []) (map TrimSpace user).
Proof.
  induction user as [|a|a b l IHl IHbl] using list_ind_two.
  - constructor.
  - rewrite filterLoop_one. simpl.
    destruct (TrimSpace a =? "")%string.
    + apply subseq_skip. constructor.
    + rewrite <- (app_nil_r (filterSingle _ [])).
      apply filterSingle_subseq. constructor.
  - rewrite filterLoop_two.
    change (map TrimSpace (a :: b :: l))
      with (TrimSpace a :: map TrimSpace (b :: l)).
    destruct (TrimSpace a =? "")%string; [now apply subseq_skip|].
    destruct (isPairFlag (TrimSpace a)).
    + simpl. destruct (safeArgPath (TrimSpace b)); simpl.
      * rewrite filterLoop_app. simpl.
        now apply subseq_take, subseq_take.
      * now apply subseq_skip, subseq_skip.
    + rewrite filterLoop_app. now apply filterSingle_subseq.
Qed.

(** X1.  The output of [MergeAndFilterArgs] is the operator's defaults,
    untouched and in front, followed by tokens of the user's vector,
    each trimmed, in the order they have in the input: the filter drops
    tokens but neither adds, changes nor reorders any. *)
Theorem filter_keeps_defaults_and_order :
  forall (cfg : Config) (user : list string),
    exists kept,
      MergeAndFilterArgs cfg user = DefaultArgs cfg ++ kept
      /\ subseq kept (map TrimSpace user)
      /\ (List.length kept <= List.length user)%nat.
Proof.
  intros cfg user. exists (filterLoop user []).
  split; [|split].
  - unfold MergeAndFilterArgs. apply filterLoop_app.
  - apply filterLoop_subseq.
  - pose proof (filterLoop_subseq user) as H.
    rewrite <- (List.length_map TrimSpace user).
    induction H; simpl; lia.
Qed.

Lemma pair_flag_allowed a :
  isPairFlag a = true -> isAllowedArg a allowedPrefix = true.
Proof.
  intros H. destruct (isPairFlag_cases a H) as [-> | [-> | ->]];
    vm_compute; reflexivity.
Qed.

Lemma pair_flag_not_blocked a :
  isPairFlag a = true -> isBlockedArg a blocked = false.
Proof.
  intros H. destruct (isPairFlag_cases a H) as [-> | [-> | ->]];
    vm_compute; reflexivity.
Qed.

(** X2.  Unknown is deny: when no token of the user's vector, once
    trimmed, matches an allow rule, the output is the defaults alone. *)
Theorem filter_drops_all_unknown :
  forall (cfg : Config) (user : list string),
    (forall u, In u user -> isAllowedArg (TrimSpace u) allowedPrefix = false) ->
    MergeAndFilterArgs cfg user = DefaultArgs cfg.
Proof.
  intros cfg user H. unfold MergeAndFilterArgs. simpl.
  generalize (DefaultArgs cfg) as result.
  induction user as [|u rest IH]; intros result; [reflexivity|].
  assert (Hu : isAllowedArg (TrimSpace u) allowedPrefix = false)
    by (apply H; now left).
  rewrite filterLoop_cons_not_pair.
  - assert (IH' := fun r => IH (fun v Hv => H v (or_intror Hv)) r).
    destruct (TrimSpace u =? "")%string; [apply IH'|].
    unfold filterSingle. rewrite Hu.
    destruct (isBlockedArg _ _); apply IH'.
  - destruct (isPairFlag (TrimSpace u)) eqn:Hp; [|reflexivity].
    apply pair_flag_allowed in Hp. congruence.
Qed.

Lemma filter_drops_all_unknown_witness :
  MergeAndFilterArgs DefaultConfig
    ["-Wall"; "  -fno-exceptions "; "evil"; "-o"; "--shell-file=x.html"]
  = DefaultArgs DefaultConfig.
Proof.
  apply filter_drops_all_unknown.
  intros u [<- | [<- | [<- | [<- | [<- | []]]]]]; vm_compute; reflexivity.
Defined.

Lemma accepted_token_rule l :
  accepted l ->
  forall o tok, In (o, tok) l ->
    (isBlockedArg tok blocked = false /\ isAllowedArg tok allowedPrefix = true)
    \/ (o = PairValue /\ safeArgPath tok = true).
Proof.
  induction 1 as [|a l Hb Ha Hl IH|f w l Hf Hw Hl IH]; intros o tok Hin.
  - destruct Hin.
  - destruct Hin as [Heq|Hin]; [|now apply IH].
    injection Heq as <- <-. now left.
  - destruct Hin as [Heq|[Heq|Hin]]; [| |now apply IH].
    + injection Heq as <- <-. left.
      split; [now apply pair_flag_not_blocked|now apply pair_flag_allowed].
    + injection Heq as <- <-. now right.
Qed.

Lemma filterLoopTagged_no_pair user :
  (forall u, In u user -> isPairFlag (TrimSpace u) = false) ->
  forall o tok, In (o, tok) (filterLoopTagged user []) -> o = Single.
Proof.
  induction user as [|u rest IH]; intros H o tok Hin; [destruct Hin|].
  assert (Hu : isPairFlag (TrimSpace u) = false) by (apply H; now left).
  assert (IH' := IH (fun v Hv => H v (or_intror Hv))).
  assert (E : filterLoopTagged (u :: rest) [] =
              if (TrimSpace u =? "")%string then filterLoopTagged rest []
              else filterLoopTagged rest (filterSingleTagged (TrimSpace u) []))
    by (simpl; now rewrite Hu).
  rewrite E in Hin.
  destruct (TrimSpace u =? "")%string; [now apply (IH' o tok)|].
  rewrite filterLoopTagged_app in Hin. apply in_app_or in Hin as [Hin|Hin];
    [|now apply (IH' o tok)].
  unfold filterSingleTagged in Hin.
  destruct (isBlockedArg _ _); [destruct Hin|].
  destruct (isAllowedArg _ _); [|destruct Hin].
  destruct Hin as [Heq|[]]. now injection Heq as <- _.
Qed.

(** X3.  Whatever the user sends, a token of the user's that reaches the
    output either matches an allow rule and no block rule, or passed the
    path check and stands right after one of the three pair flags, as
    the value of a pair; when the vector holds none of the three pair
    flags, every such token matches an allow rule and no block rule: no
    [--shell-file], [-sFORCE_FILESYSTEM], [-sENVIRONMENT=node] or [-o],
    bare or followed by [=]. *)
Theorem filter_output_rules :
  forall (cfg : Config) (user before : list string) (tok : string)
         (after : list string),
    MergeAndFilterArgs cfg user = DefaultArgs cfg ++ before ++ tok :: after ->
    ((isBlockedArg tok blocked = false /\ isAllowedArg tok allowedPrefix = true)
     \/ (safeArgPath tok = true
         /\ exists before' f,
              before = before' ++ [f] /\ isPairFlag f = true))
    /\ ((forall u, In u user -> isPairFlag (TrimSpace u) = false) ->
        isBlockedArg tok blocked = false
        /\ isAllowedArg tok allowedPrefix = true).
Proof.
  intros cfg user before tok after Heq.
  rewrite MergeAndFilterArgs_defaults_first in Heq.
  apply app_inv_head in Heq.
  change (filterLoop user [])
    with (filterLoop user (map snd (@nil (Origin * string)))) in Heq.
  rewrite <- (filterLoopTagged_erase user []) in Heq.
  apply map_eq_app in Heq as (tb & ta & Hsplit & Hb & Ha).
  destruct ta as [|[o tok'] ta]; [discriminate Ha|].
  simpl in Ha. injection Ha as -> _.
  pose proof (filterLoopTagged_accepted user) as Hacc.
  assert (Hin : In (o, tok) (filterLoopTagged user []))
    by (rewrite Hsplit; apply in_elt).
  pose proof (accepted_token_rule _ Hacc o tok Hin) as Hrule.
  split.
  - destruct Hrule as [Hr|[-> Hs]]; [now left|right].
    split; [exact Hs|].
    destruct (accepted_pair_value_follows_flag _ Hacc tb tok ta Hsplit)
      as (tb' & f & -> & Hf).
    exists (map snd tb'), f. split; [|exact Hf].
    rewrite <- Hb, map_app. reflexivity.
  - intros Hnp.
    pose proof (filterLoopTagged_no_pair user Hnp o tok Hin) as ->.
    destruct Hrule as [Hr|[Habs _]]; [exact Hr|discriminate Habs].
Qed.

Lemma filter_output_rules_witness :
  (isBlockedArg "-O2" blocked = false
   /\ isAllowedArg "-O2" allowedPrefix = true)
  /\ ((isBlockedArg "-o" blocked = false
       /\ isAllowedArg "-o" allowedPrefix = true)
      \/ (safeArgPath "-o" = true
          /\ exists before' f,
               ["-g"; "--embed-file"] = before' ++ [f]
               /\ isPairFlag f = true)).
Proof.
  split.
  - refine (proj2 (filter_output_rules DefaultConfig
                     ["-sFORCE_FILESYSTEM=1"; " -O2"; "--shell-file"]
                     [] "-O2" [] _) _).
    + vm_compute. reflexivity.
    + intros u [<- | [<- | [<- | []]]]; vm_compute; reflexivity.
  - refine (proj1 (filter_output_rules DefaultConfig
                     ["-g"; "--embed-file"; "-o"; "-o"]
                     ["-g"; "--embed-file"] "-o" [] _)).
    vm_compute. reflexivity.
Defined.

Lemma accepted_flag_then_value l :
  accepted l ->
  forall before f after,
    l = before ++ (PairFlag, f) :: after ->
    exists v after',
      after = (PairValue, v) :: after' /\ safeArgPath v = true
      /\ isPairFlag f = true.
Proof.
  induction 1 as [|a l Hb Ha Hl IH|g w l Hg Hw Hl IH];
    intros before f after Heq.
  - now destruct before.
  - destruct before as [|e before]; [discriminate Heq|].
    injection Heq as _ Heq. now apply (IH before).
  - destruct before as [|e1 [|e2 before]].
    + injection Heq as <- <-. now exists w, l.
    + discriminate Heq.
    + injection Heq as _ _ Heq. now apply (IH before).
Qed.

(** X4.  Pairs are atomic: in the output, a flag appended as the head of
    a pair is always followed at once by its value, which passed the path
    check; together with the converse (a value always follows its flag)
    the output never holds one half of a pair. *)
Theorem pair_flag_followed_by_value :
  forall (cfg : Config) (user : list string) before f after,
    MergeAndFilterArgsTagged cfg user = before ++ (PairFlag, f) :: after ->
    exists v after',
      after = (PairValue, v) :: after'
      /\ safeArgPath v = true
      /\ isPairFlag f = true
      /\ MergeAndFilterArgs cfg user
         = map snd before ++ f :: v :: map snd after'.
Proof.
  intros cfg user before f after Heq.
  assert (Hsplit : exists b2, before = map (pair FromDefaults) (DefaultArgs cfg) ++ b2
                     /\ filterLoopTagged user [] = b2 ++ (PairFlag, f) :: after).
  { rewrite tagged_shape in Heq.
    revert before Heq. generalize (DefaultArgs cfg) as d.
    induction d as [|x d IH]; intros before Heq.
    - exists before. now split.
    - destruct before as [|e before]; [discriminate Heq|].
      injection Heq as <- Heq.
      destruct (IH _ Heq) as (b2 & -> & H2). exists b2. now split. }
  destruct Hsplit as (b2 & -> & H2).
  destruct (accepted_flag_then_value _ (filterLoopTagged_accepted user)
              b2 f after H2) as (v & after' & -> & Hv & Hf).
  exists v, after'. repeat split; try assumption.
  rewrite <- tagged_erase, Heq, map_app. reflexivity.
Qed.

Lemma pair_flag_followed_by_value_witness :
  exists v after',
    [(PairValue, "assets"); (Single, "-O2")] = (PairValue, v) :: after'
    /\ safeArgPath v = true
    /\ isPairFlag "--embed-file" = true
    /\ MergeAndFilterArgs DefaultConfig ["--embed-file"; "assets"; "-O2"]
       = map snd (map (pair FromDefaults) (DefaultArgs DefaultConfig))
         ++ "--embed-file" :: v :: map snd after'.
Proof.
  apply (pair_flag_followed_by_value DefaultConfig
           ["--embed-file"; "assets"; "-O2"]
           (map (pair FromDefaults) (DefaultArgs DefaultConfig))
           "--embed-file" [(PairValue, "assets"); (Single, "-O2")]).
  vm_compute. reflexivity.
Defined.

End ArgFilterMore.

(* ================================================================= *)
(** ** Path safety *)

Module PathFacts.
Import ArgFilter.

Lemma prefix_iff p :
  forall s, String.prefix p s = true <-> exists y, s = p ++ y.
Proof.
  induction p as [|c p IH]; intros s.
  - destruct s; simpl; split; intros _; try reflexivity; eexists; reflexivity.
  - destruct s as [|d s]; simpl.
    + split; [discriminate|intros [y Hy]; discriminate Hy].
    + destruct (ascii_dec c d) as [->|Hne].
      * rewrite IH. split; intros [y Hy]; exists y.
        -- now rewrite Hy.
        -- now injection Hy.
      * split; [discriminate|].
        intros [y Hy]. injection Hy as Hc _. now contradiction Hne.
Qed.

Lemma Contains_iff sub :
  forall s, Contains s sub = true <-> exists x y, s = x ++ sub ++ y.
Proof.
  induction s as [|c s IH].
  - change (Contains "" sub) with (String.prefix sub "" || false).
    rewrite orb_false_r, prefix_iff. split.
    + intros [y Hy]. now exists "", y.
    + intros (x & y & H). destruct x as [|d x]; [|discriminate H].
      now exists y.
  - change (Contains (String c s) sub)
      with (String.prefix sub (String c s) || Contains s sub).
    rewrite orb_true_iff, prefix_iff, IH. split.
    + intros [[y Hy]|(x & y & H)].
      * now exists "", y.
      * exists (String c x), y. simpl. now rewrite H.
    + intros (x & y & H). destruct x as [|d x].
      * left. now exists y.
      * right. simpl in H. injection H as _ H. now exists x, y.
Qed.

(** X5.  [safeArgPath] accepts a path exactly when it does not begin
    with [/] and holds no two consecutive dots anywhere: besides parent
    escapes such as [../x] and [a/../b], names like [a..b] are rejected
    too, and the empty path is accepted. *)
Theorem safeArgPath_iff :
  forall p : string,
    safeArgPath p = true <->
    (forall y, p <> "/" ++ y) /\ (forall x y, p <> x ++ ".." ++ y).
Proof.
  intros p. unfold safeArgPath, HasPrefix.
  destruct (String.prefix "/" p) eqn:H1.
  - split; [discriminate|]. intros [Habs _].
    apply prefix_iff in H1 as [y Hy]. now contradiction (Habs y).
  - destruct (Contains p "..") eqn:H2.
    + split; [discriminate|]. intros [_ Habs].
      apply Contains_iff in H2 as (x & y & Hxy). now contradiction (Habs x y).
    + split; [|reflexivity]. intros _. split.
      * intros y Hy. assert (String.prefix "/" p = true)
          by (apply prefix_iff; now exists y). congruence.
      * intros x y Hxy. assert (Contains p ".." = true)
          by (apply Contains_iff; now exists x, y). congruence.
Qed.

End PathFacts.

(* ================================================================= *)
(** ** More on resource gating *)

Module GatingMore.
Import Gating GatingFacts Rounds Fixtures.
Local Open Scope list_scope.

(** X6.  [ensureMemBudget] never touches the sum of reservations or
    the configuration; when it fails it leaves the server as it was; a
    positive budget is kept whatever the cgroup files now say, without
    reading them; and after a success the budget is never negative: it is
    the value of [memory.max] when that is positive and 0, gating off,
    when the file says [max] or a value that is not positive. *)
Theorem ensureMemBudget_effect :
  forall (readFile : Files) (s : Server),
    let s' := fst (ensureMemBudget readFile s) in
    let err := snd (ensureMemBudget readFile s) in
    memReservedBytes s' = memReservedBytes s
    /\ cfg s' = cfg s
    /\ (err <> None -> s' = s)
    /\ (0 < memBudgetBytes s -> s' = s /\ err = None)
    /\ (err = None -> 0 <= memBudgetBytes s')
    /\ (memBudgetBytes s <= 0 -> err = None ->
        exists max,
          readCgroupMemoryMax readFile (CgroupV2Root (cfg s)) = Ok max
          /\ memBudgetBytes s' = Z.max 0 max).
Proof.
  intros readFile s. unfold ensureMemBudget.
  destruct (0 <? memBudgetBytes s) eqn:Hpos; simpl.
  - apply Z.ltb_lt in Hpos.
    repeat split; intros; try reflexivity; lia.
  - apply Z.ltb_ge in Hpos.
    destruct (readCgroupMemoryMax readFile (CgroupV2Root (cfg s)))
      as [max|e]; simpl.
    + destruct (max <=? 0) eqn:Hmax; simpl;
        [apply Z.leb_le in Hmax|apply Z.leb_gt in Hmax];
        repeat split; intros; try reflexivity; try lia; try congruence;
        exists max; (split; [reflexivity|lia]).
    + repeat split; intros; try reflexivity; try lia; try discriminate.
Qed.

Lemma acquireMemory_skip w world s n :
  memBudgetBytes s <> 0 ->
  admits s n w = false ->
  acquireMemory (w :: world) s n =
  match selected w with
  | CtxDone e => Returned s (Some e)
  | Tick => acquireMemory world s n
  end.
Proof.
  intros Hb Ha. apply Z.eqb_neq in Hb.
  rewrite acquireMemory_cons, Hb. unfold admits in Ha.
  destruct (readCgroupMemoryCurrent _ _) as [cur|e]; [|reflexivity].
  now rewrite Ha.
Qed.

Lemma acquireMemory_admit w world s n :
  memBudgetBytes s <> 0 ->
  admits s n w = true ->
  acquireMemory (w :: world) s n = Returned (reserve s n) None.
Proof.
  intros Hb Ha. apply Z.eqb_neq in Hb.
  rewrite acquireMemory_cons, Hb. unfold admits in Ha.
  destruct (readCgroupMemoryCurrent _ _) as [cur|e]; [|discriminate Ha].
  now rewrite Ha.
Qed.

(** X7.  Under a positive budget the call is decided by the first round
    that either grants or is cancelled: after rounds that neither grant
    nor are cancelled the call is still waiting, with the server
    untouched; it then returns success if the next round grants, and the
    context's error if the next round does not grant and is cancelled. *)
Theorem acquireMemory_first_decisive_round :
  forall (before : list Attempt) (w : Attempt) (after : list Attempt)
         (s : Server) (n : Z),
    0 < memBudgetBytes s ->
    (forall r, In r before -> admits s n r = false /\ selected r = Tick) ->
    acquireMemory before s n = Waiting s
    /\ (admits s n w = true ->
        acquireMemory (before ++ w :: after) s n
        = Returned (reserve s n) None)
    /\ (forall e, admits s n w = false -> selected w = CtxDone e ->
        acquireMemory (before ++ w :: after) s n = Returned s (Some e)).
Proof.
  intros before w after s n Hpos.
  assert (Hb : memBudgetBytes s <> 0) by lia.
  induction before as [|r before IH]; intros Hall.
  - split; [|split].
    + rewrite acquireMemory_nil.
      apply Z.eqb_neq in Hb. now rewrite Hb.
    + intros Ha. now apply acquireMemory_admit.
    + intros e Ha Hsel. simpl app.
      now rewrite acquireMemory_skip, Hsel.
  - destruct (Hall r (or_introl eq_refl)) as [Hr Hs].
    destruct (IH (fun r' H' => Hall r' (or_intror H'))) as (IH1 & IH2 & IH3).
    simpl app. rewrite !acquireMemory_skip, Hs by assumption.
    split; [exact IH1|]. split; [exact IH2|exact IH3].
Qed.

Lemma acquireMemory_first_decisive_round_witness :
  acquireMemory [mkAttempt (cgroupDir "max" "943718400") Tick;
                 mkAttempt emptyDir Tick]
                (serverWith GiB 0) (256 * MiB)
  = Waiting (serverWith GiB 0)
  /\ acquireMemory [mkAttempt (cgroupDir "max" "943718400") Tick;
                    mkAttempt emptyDir Tick;
                    mkAttempt (cgroupDir "max" "536870912") Tick]
                   (serverWith GiB 0) (256 * MiB)
     = Returned (serverWith GiB (256 * MiB)) None.
Proof.
  destruct (acquireMemory_first_decisive_round
              [mkAttempt (cgroupDir "max" "943718400") Tick;
               mkAttempt emptyDir Tick]
              (mkAttempt (cgroupDir "max" "536870912") Tick) []
              (serverWith GiB 0) (256 * MiB)) as (H1 & H2 & _).
  - reflexivity.
  - intros r [<- | [<- | []]]; split; vm_compute; reflexivity.
  - split; [exact H1|]. apply H2. vm_compute. reflexivity.
Defined.

(** X8.  A call that returns success has added the estimate to the sum
    of reservations, once; and unless the budget is 0 some round of it
    read a value [cur] from [memory.current] for which the 64-bit sum
    cur + reserved + n was within the budget. *)
Theorem acquireMemory_success_sound :
  forall (world : list Attempt) (s : Server) (n : Z) (s' : Server),
    acquireMemory world s n = Returned s' None ->
    s' = reserve s n
    /\ (memBudgetBytes s = 0
        \/ exists w cur,
             In w world
             /\ readCgroupMemoryCurrent (files w) (CgroupV2Root (cfg s))
                = Ok cur
             /\ Int64.add (Int64.add cur (memReservedBytes s)) n
                <= memBudgetBytes s).
Proof.
  intros world s n s' H. split.
  - pose proof (acquireMemory_cases world s n) as Hc. now rewrite H in Hc.
  - revert H. induction world as [|w world IH]; intros H.
    + rewrite acquireMemory_nil in H.
      destruct (memBudgetBytes s =? 0) eqn:Hb; [|discriminate].
      left. now apply Z.eqb_eq.
    + rewrite acquireMemory_cons in H.
      destruct (memBudgetBytes s =? 0) eqn:Hb.
      { left. now apply Z.eqb_eq. }
      right.
      assert (Hwait : wait w s (fun s => acquireMemory world s n)
                      = Returned s' None ->
                      exists w0 cur, In w0 (w :: world)
                        /\ readCgroupMemoryCurrent (files w0)
                             (CgroupV2Root (cfg s)) = Ok cur
                        /\ Int64.add (Int64.add cur (memReservedBytes s)) n
                           <= memBudgetBytes s).
      { unfold wait. destruct (selected w); [discriminate|].
        intros Hw. destruct (IH Hw) as [H0|(w0 & cur & Hin & Hcur & Hle)].
        - apply Z.eqb_neq in Hb. contradiction.
        - exists w0, cur. split; [now right|]. now split. }
      destruct (readCgroupMemoryCurrent (files w) (CgroupV2Root (cfg s)))
        as [cur|e] eqn:Hcur; [|now apply Hwait].
      destruct (fits s cur n (memBudgetBytes s)) eqn:Hfit; [|now apply Hwait].
      exists w, cur. split; [now left|]. split; [exact Hcur|].
      now apply fits_spec.
Qed.

Lemma acquireMemory_success_sound_witness :
  serverWith GiB (512 * MiB) = reserve (serverWith GiB (256 * MiB)) (256 * MiB)
  /\ (memBudgetBytes (serverWith GiB (256 * MiB)) = 0
      \/ exists w cur,
           In w [mkAttempt (cgroupDir "max" "536870912") Tick]
           /\ readCgroupMemoryCurrent (files w)
                (CgroupV2Root (cfg (serverWith GiB (256 * MiB)))) = Ok cur
           /\ Int64.add (Int64.add cur
                           (memReservedBytes (serverWith GiB (256 * MiB))))
                        (256 * MiB)
              <= memBudgetBytes (serverWith GiB (256 * MiB))).
Proof.
  apply (acquireMemory_success_sound
           [mkAttempt (cgroupDir "max" "536870912") Tick]
           (serverWith GiB (256 * MiB)) (256 * MiB)
           (serverWith GiB (512 * MiB))).
  vm_compute. reflexivity.
Defined.

(** X9.  The estimate the handler reserves for a job is always a
    positive [int64]: it is the configured number of MiB in bytes when
    that lies between 1 byte and 2^63 - 1 bytes, and 256 MiB when the
    configured number is zero or negative. *)
Theorem estimate_bounds :
  forall c : Config,
    0 < Handler.estimate c <= Int64.max_int
    /\ (0 < JobMemoryEstimateMB c < 2 ^ 43 ->
        Handler.estimate c = JobMemoryEstimateMB c * 1024 * 1024)
    /\ (- 2 ^ 43 <= JobMemoryEstimateMB c <= 0 ->
        Handler.estimate c = 256 * 1024 * 1024).
Proof.
  intros c. split; [apply HandlerFacts.estimate_positive|].
  unfold Handler.estimate, Int64.mul.
  split; intros Hr.
  - rewrite (Int64Facts.wrap_small (JobMemoryEstimateMB c * 1024))
      by (unfold Int64.in_range, Int64.min_int, Int64.max_int; lia).
    rewrite Int64Facts.wrap_small
      by (unfold Int64.in_range, Int64.min_int, Int64.max_int; lia).
    destruct (_ <=? 0) eqn:H; [apply Z.leb_le in H; lia|reflexivity].
  - rewrite (Int64Facts.wrap_small (JobMemoryEstimateMB c * 1024))
      by (unfold Int64.in_range, Int64.min_int, Int64.max_int; lia).
    rewrite (Int64Facts.wrap_small (JobMemoryEstimateMB c * 1024 * 1024))
      by (unfold Int64.in_range, Int64.min_int, Int64.max_int; lia).
    destruct (_ <=? 0) eqn:H; [|apply Z.leb_gt in H; lia].
    vm_compute. reflexivity.
Qed.

Lemma estimate_bounds_witness :
  Handler.estimate DefaultConfig = 256 * 1024 * 1024
  /\ Handler.estimate (cfgGating 0) = 256 * 1024 * 1024.
Proof.
  split.
  - apply (proj1 (proj2 (estimate_bounds DefaultConfig))).
    vm_compute. split; reflexivity.
  - apply (proj2 (proj2 (estimate_bounds (cfgGating 0)))).
    vm_compute. split; discriminate.
Defined.

End GatingMore.

(* ================================================================= *)
(** ** More on the reclaimer and on the configuration *)

Module CleanupMore.
Import Cleanup Fixtures.
Local Open Scope list_scope.

Lemma Sub_above ttl t u :
  Int64.in_range ttl -> ttl < Sub t u -> ttl < t - u.
Proof.
  unfold Int64.in_range, Sub. intros [Hlo Hhi].
  destruct (t - u <? Int64.min_int) eqn:H1.
  - lia.
  - apply Z.ltb_ge in H1. destruct (Int64.max_int <? t - u) eqn:H2.
    + apply Z.ltb_lt in H2. lia.
    + lia.
Qed.

(** X10.  A round of the reclaimer only removes directories that are
    older than the TTL: every name handed to [os.RemoveAll] is that of a
    child for which [os.Stat] succeeded, which is a directory, and whose
    mtime lies more than the TTL before the clock; a plain file, a child
    that cannot be examined and a directory modified within the TTL are
    never removed, and nothing is when the directory cannot be listed. *)
Theorem scan_removes_only_expired_directories :
  forall (ttl : Duration) (entries : option (list Entry)) (name : string),
    Int64.in_range ttl ->
    In name (scan ttl entries) ->
    exists es e fi,
      entries = Some es /\ In e es /\ Name e = name
      /\ Stat e = Some fi /\ IsDir fi = true
      /\ ttl < Now e - ModTime fi.
Proof.
  intros ttl entries name Hr Hin. unfold scan in Hin.
  destruct entries as [es|]; [|destruct Hin].
  apply in_map_iff in Hin as (e & Hname & Hin).
  apply filter_In in Hin as [Hin Hrem].
  unfold removes in Hrem.
  destruct (Stat e) as [fi|] eqn:Hstat; [|discriminate].
  destruct (IsDir fi) eqn:Hdir; [|discriminate]. simpl in Hrem.
  apply Z.ltb_lt in Hrem.
  exists es, e, fi. repeat split; try assumption.
  now apply Sub_above.
Qed.

Lemma scan_removes_only_expired_directories_witness :
  exists es e fi,
    Some [ {| Name := "index.html";
              Stat := Some {| IsDir := false; ModTime := 0 |};
              Now := 100 * Hour |};
           {| Name := "0badc0de";
              Stat := Some {| IsDir := true; ModTime := 99 * Hour |};
              Now := 100 * Hour |};
           {| Name := "9f3a01bc";
              Stat := Some {| IsDir := true; ModTime := 10 * Hour |};
              Now := 100 * Hour |} ] = Some es
    /\ In e es /\ Name e = "9f3a01bc"
    /\ Stat e = Some fi /\ IsDir fi = true
    /\ 72 * Hour < Now e - ModTime fi.
Proof.
  apply (scan_removes_only_expired_directories (72 * Hour)).
  - vm_compute. split; discriminate.
  - vm_compute. tauto.
Defined.

(** X11.  The period of the reclaimer's ticker is always a positive
    [int64], so [time.NewTicker] never panics: it is the configured
    number of minutes when that is between 1 and 2^27, and 30 minutes
    when the configured number is zero or negative. *)
Theorem cleanup_interval_positive :
  forall s : Server,
    let l := snd (StartCleanupLoop s) in
    0 < interval l <= Int64.max_int
    /\ (0 < CleanupIntervalMins (cfg s) <= 2 ^ 27 ->
        interval l = CleanupIntervalMins (cfg s) * Minute)
    /\ (- 2 ^ 27 <= CleanupIntervalMins (cfg s) <= 0 ->
        interval l = 30 * Minute).
Proof.
  intros s. unfold StartCleanupLoop. cbn [snd interval].
  assert (Hm : forall c d, CleanupIntervalMins (setArtifactTTL c d)
                           = CleanupIntervalMins c) by reflexivity.
  assert (Hmins : CleanupIntervalMins
            (if ArtifactTTL (cfg s) <=? 0
             then setArtifactTTL (cfg s) (ttlOfDays (ArtifactTTLDays (cfg s)))
             else cfg s) = CleanupIntervalMins (cfg s))
    by (destruct (ArtifactTTL (cfg s) <=? 0); reflexivity).
  rewrite Hmins. clear Hm Hmins.
  set (m := CleanupIntervalMins (cfg s)).
  assert (H30 : Int64.mul 30 Minute = 30 * Minute) by reflexivity.
  assert (Hval : 30 * Minute = 1800000000000) by reflexivity.
  assert (Hmin : Minute = 60000000000) by reflexivity.
  split; [|split].
  - destruct (Int64.mul m Minute <=? 0) eqn:H.
    + rewrite H30, Hval. unfold Int64.max_int. lia.
    + apply Z.leb_gt in H. split; [exact H|].
      apply Int64Facts.wrap_in_range.
  - intros Hr. unfold Int64.mul.
    rewrite Int64Facts.wrap_small
      by (unfold Int64.in_range, Int64.min_int, Int64.max_int; rewrite Hmin; lia).
    destruct (m * Minute <=? 0) eqn:H; [|reflexivity].
    apply Z.leb_le in H. rewrite Hmin in H. lia.
  - intros Hr. unfold Int64.mul.
    rewrite (Int64Facts.wrap_small (m * Minute))
      by (unfold Int64.in_range, Int64.min_int, Int64.max_int; rewrite Hmin; lia).
    destruct (m * Minute <=? 0) eqn:H; [reflexivity|].
    apply Z.leb_gt in H. rewrite Hmin in H. lia.
Qed.

Lemma cleanup_interval_positive_witness :
  interval (snd (StartCleanupLoop (NewServer DefaultConfig))) = 30 * Minute
  /\ interval (snd (StartCleanupLoop
                      (NewServer (setArtifactTTLDays DefaultConfig 7))))
     = 30 * Minute.
Proof.
  split.
  - apply (proj1 (proj2 (cleanup_interval_positive (NewServer DefaultConfig)))).
    vm_compute. split; [reflexivity|discriminate].
  - apply (proj1 (proj2 (cleanup_interval_positive
                           (NewServer (setArtifactTTLDays DefaultConfig 7))))).
    vm_compute. split; [reflexivity|discriminate].
Defined.

Lemma ttlOfDays_exact days :
  0 <= days <= 106751 -> ttlOfDays days = days * 24 * Hour.
Proof.
  intros H. unfold ttlOfDays, Int64.mul.
  assert (Hh : Hour = 3600000000000) by reflexivity.
  rewrite (Int64Facts.wrap_small (days * 24))
    by (unfold Int64.in_range, Int64.min_int, Int64.max_int; lia).
  apply Int64Facts.wrap_small.
  unfold Int64.in_range, Int64.min_int, Int64.max_int. rewrite Hh. lia.
Qed.

(** X12.  However the configuration was obtained (the defaults when
    there is no [config.json], the decoded file otherwise), the TTL the
    reclaimer of a new server runs with is derived from the day count
    alone: it is [artifactTTLDays] times 24 hours, computed in [int64],
    hence exactly that many days for a count from 0 to 106751, and 72
    hours by default. *)
Theorem reclaimer_ttl_from_days :
  forall decoded : option Config,
    let c := LoadConfig decoded in
    let l := snd (StartCleanupLoop (NewServer c)) in
    ttl l = ttlOfDays (ArtifactTTLDays c)
    /\ ArtifactTTL (cfg (fst (StartCleanupLoop (NewServer c)))) = ttl l
    /\ (0 <= ArtifactTTLDays c <= 106751 ->
        ttl l = ArtifactTTLDays c * 24 * Hour)
    /\ (decoded = None -> ttl l = 72 * Hour).
Proof.
  intros decoded.
  assert (Hgen : forall c : Config,
             ArtifactTTL c = 0 \/ ArtifactTTL c = ttlOfDays (ArtifactTTLDays c) ->
             ttl (snd (StartCleanupLoop (NewServer c)))
               = ttlOfDays (ArtifactTTLDays c)
             /\ ArtifactTTL (cfg (fst (StartCleanupLoop (NewServer c))))
                = ttl (snd (StartCleanupLoop (NewServer c)))).
  { intros c Hc. unfold StartCleanupLoop, NewServer.
    cbn [cfg snd fst ttl setCfg].
    destruct (ArtifactTTL c =? 0) eqn:H0.
    - cbn [ArtifactTTL setArtifactTTL ArtifactTTLDays].
      destruct (ttlOfDays (ArtifactTTLDays c) <=? 0); split; reflexivity.
    - apply Z.eqb_neq in H0. destruct Hc as [Hc|Hc]; [contradiction|].
      destruct (ArtifactTTL c <=? 0); cbn [ArtifactTTL setArtifactTTL];
        split; (reflexivity || exact Hc). }
  cbv zeta.
  assert (Hload : ArtifactTTL (LoadConfig decoded) = 0
                  \/ ArtifactTTL (LoadConfig decoded)
                     = ttlOfDays (ArtifactTTLDays (LoadConfig decoded))).
  { destruct decoded as [c|]; [right|left]; reflexivity. }
  destruct (Hgen _ Hload) as [H1 H2].
  split; [exact H1|]. split; [exact H2|]. split.
  - intros Hr. rewrite H1. now apply ttlOfDays_exact.
  - intros ->. reflexivity.
Qed.

Lemma reclaimer_ttl_from_days_witness :
  ttl (snd (StartCleanupLoop
              (NewServer (LoadConfig (Some (setArtifactTTLDays DefaultConfig 7))))))
  = 7 * 24 * Hour
  /\ ttl (snd (StartCleanupLoop (NewServer (LoadConfig None)))) = 72 * Hour.
Proof.
  split.
  - apply (proj1 (proj2 (proj2 (reclaimer_ttl_from_days
             (Some (setArtifactTTLDays DefaultConfig 7)))))).
    vm_compute. split; discriminate.
  - exact (proj2 (proj2 (proj2 (reclaimer_ttl_from_days None))) eq_refl).
Defined.

End CleanupMore.

(* ================================================================= *)
(** ** More on the request handler *)

Module HandlerMore.
Import ArgFilter Gating GatingFacts Handler HandlerFacts Job Fixtures.
Local Open Scope list_scope.

(** [compileJob] reads the server's configuration only. *)
Lemma compileJob_cfg s1 s2 w req lang :
  cfg s1 = cfg s2 -> compileJob s1 w req lang = compileJob s2 w req lang.
Proof. intros H. unfold compileJob. now rewrite H. Qed.

(** The five ways a job can go. *)
Lemma compileJob_cases s w req lang :
  let c := cfg s in
  let args := MergeAndFilterArgs c (Args req) ++ ["-o"; "app.js"] in
  let srcPath := Join w [jobDir s w; srcName lang] in
  exists cmd,
    Deadline cmd = Int64.mul 5 Minute
    /\ ((NsJailEnabled c = true /\ Path cmd = NsJailPath c /\ Dir cmd = None
         /\ Argv cmd = jailPrefix s w lang ++ args)
        \/ (NsJailEnabled c = false /\ Path cmd = compiler lang
            /\ Dir cmd = Some (jobDir s w)
            /\ Argv cmd = srcName lang :: args))
    /\ ((exists e, mkdirJob w = Some e
          /\ compileJob s w req lang =
             [MkdirAll (jobDir s w);
              Respond (HttpError (ErrorText e) StatusInternalServerError)])
        \/ (exists e, mkdirJob w = None /\ mkdirArt w = Some e
             /\ compileJob s w req lang =
                [MkdirAll (jobDir s w); MkdirAll (artDir s w);
                 Respond (HttpError (ErrorText e) StatusInternalServerError)])
        \/ (exists e, mkdirJob w = None /\ mkdirArt w = None
             /\ writeSource w = Some e
             /\ compileJob s w req lang =
                [MkdirAll (jobDir s w); MkdirAll (artDir s w);
                 WriteFile srcPath (Code req);
                 Respond (HttpError (ErrorText e) StatusInternalServerError)])
        \/ (exists out e, mkdirJob w = None /\ mkdirArt w = None
             /\ writeSource w = None
             /\ combinedOutput w cmd = (out, Some e)
             /\ compileJob s w req lang =
                [MkdirAll (jobDir s w); MkdirAll (artDir s w);
                 WriteFile srcPath (Code req); Run cmd;
                 Respond (WriteJSON StatusBadRequest
                            {| OK := false; ID := randomID w; JS := "";
                               WASM := ""; Error := out |})])
        \/ (exists out, mkdirJob w = None /\ mkdirArt w = None
             /\ writeSource w = None
             /\ combinedOutput w cmd = (out, None)
             /\ compileJob s w req lang =
                [MkdirAll (jobDir s w); MkdirAll (artDir s w);
                 WriteFile srcPath (Code req); Run cmd;
                 Rename (Join w [jobDir s w; "app.js"])
                        (Join w [artDir s w; "app.js"]);
                 Rename (Join w [jobDir s w; "app.wasm"])
                        (Join w [artDir s w; "app.wasm"]);
                 RemoveAll (jobDir s w);
                 Respond (WriteJSON StatusOK
                            {| OK := true; ID := randomID w;
                               JS := ("/" ++ trimLeadingSlash (ArtifactsDir c)
                                      ++ "/" ++ randomID w ++ "/app.js")%string;
                               WASM := ("/" ++ trimLeadingSlash (ArtifactsDir c)
                                        ++ "/" ++ randomID w ++ "/app.wasm")%string;
                               Error := "" |})])).
Proof.
  intros c args srcPath. unfold compileJob.
  fold c. fold (jobDir s w). fold (artDir s w).
  fold (srcName lang). fold (compiler lang). fold srcPath. fold args.
  match goal with
  | |- context [combinedOutput w ?cmd] => exists cmd
  end.
  split; [now destruct (NsJailEnabled c)|]. split.
  { destruct (NsJailEnabled c); [left|right]; repeat split. }
  destruct (mkdirJob w) as [e|]; [left; now exists e|right].
  destruct (mkdirArt w) as [e|]; [left; now exists e|right].
  destruct (writeSource w) as [e|]; [left; now exists e|right].
  destruct (combinedOutput w _) as [out [e|]].
  - left. now exists out, e.
  - right. now exists out.
Qed.

(** The ways [HandleCompile] can return. *)
Lemma HandleCompile_inv s w r s' effects :
  HandleCompile s w r = Some (s', effects) ->
  (exists msg code,
      effects = [Respond (HttpError msg code)] /\ s' = s
      /\ forall req, ~ valid w r req)
  \/ (exists req,
        valid w r req
        /\ ((EnableResourceGating (cfg s) = false /\ s' = s
             /\ effects = compileJob s w req (langOf req))
            \/ (EnableResourceGating (cfg s) = true
                /\ exists e,
                     ensureMemBudget (cgroup w) s = (s', Some e)
                     /\ effects =
                        [CallEnsureMemBudget;
                         Respond (HttpError
                                    (Prefixed "resource gating init failed: " e)
                                    StatusInternalServerError)])
            \/ (EnableResourceGating (cfg s) = true
                /\ exists s1 e,
                     ensureMemBudget (cgroup w) s = (s1, None)
                     /\ acquireMemory (rounds w) s1 (estimate (cfg s1))
                        = Returned s' (Some e)
                     /\ effects =
                        [CallEnsureMemBudget;
                         CallAcquireMemory (estimate (cfg s1)) (Some e);
                         Respond (HttpError (Text "resource wait canceled")
                                    StatusRequestTimeout)])
            \/ (EnableResourceGating (cfg s) = true
                /\ exists s1 s2,
                     ensureMemBudget (cgroup w) s = (s1, None)
                     /\ acquireMemory (rounds w) s1 (estimate (cfg s1))
                        = Returned s2 None
                     /\ s' = releaseMemory s2 (estimate (cfg s1))
                     /\ effects =
                        [CallEnsureMemBudget;
                         CallAcquireMemory (estimate (cfg s1)) None]
                        ++ compileJob s2 w req (langOf req)
                        ++ [CallReleaseMemory (estimate (cfg s1))]))).
Proof.
  unfold HandleCompile, reject. intros H.
  destruct (Method r =? "POST")%string eqn:Hm; simpl in H.
  2:{ left. injection H as <- <-. do 2 eexists. repeat split.
      intros req (Hv & _). apply String.eqb_neq in Hm. contradiction. }
  apply String.eqb_eq in Hm.
  destruct (ensureDirs w) as [e|] eqn:Hd.
  { left. injection H as <- <-. do 2 eexists. repeat split.
    intros req (_ & Hv & _). congruence. }
  destruct (Body r) as [req|] eqn:Hb.
  2:{ left. injection H as <- <-. do 2 eexists. repeat split.
      intros req (_ & _ & Hv & _). congruence. }
  destruct (TrimSpace (Code req) =? "")%string eqn:Hc.
  { left. injection H as <- <-. do 2 eexists. repeat split.
    intros req' (_ & _ & Hv & Hne & _).
    assert (req' = req) by congruence. subst req'.
    apply String.eqb_eq in Hc. contradiction. }
  apply String.eqb_neq in Hc.
  destruct (badType (ToLower (TrimSpace (Type_ req)))) eqn:Ht.
  { left. injection H as <- <-. do 2 eexists. repeat split.
    intros req' (_ & _ & Hv & _ & Hbt).
    assert (req' = req) by congruence. subst req'. congruence. }
  right. exists req. split; [now repeat split|].
  fold (langOf req) in H.
  destruct (EnableResourceGating (cfg s)).
  2:{ left. injection H as <- <-. now repeat split. }
  right.
  destruct (ensureMemBudget (cgroup w) s) as [s1 [e|]].
  { left. injection H as <- <-. split; [reflexivity|]. now exists e. }
  right.
  destruct (acquireMemory (rounds w) s1 (estimate (cfg s1)))
    as [s2 [e|]|s2] eqn:Hacq; [| |discriminate H].
  - left. injection H as <- <-. split; [reflexivity|]. now exists s1, e.
  - right. injection H as <- <-. split; [reflexivity|]. now exists s1, s2.
Qed.

Lemma compileJob_responses s w req lang :
  exists before resp,
    compileJob s w req lang = before ++ [Respond resp]
    /\ responses before = []
    /\ forallb isFileOrRun before = true.
Proof.
  destruct (compileJob_shape s w req lang) as (b & resp & Heq & Hb).
  exists b, resp. split; [exact Heq|]. split; [|exact Hb].
  clear Heq. induction b as [|e b IH]; [reflexivity|].
  simpl in Hb. apply andb_true_iff in Hb as [He Hb].
  destruct e; try discriminate He; simpl; now apply IH.
Qed.

Lemma responses_app l1 l2 : responses (l1 ++ l2) = responses l1 ++ responses l2.
Proof.
  induction l1 as [|e l1 IH]; [reflexivity|].
  destruct e; simpl; now rewrite ?IH.
Qed.

(** X13.  Whenever the handler returns it has written exactly one
    response. *)
Theorem one_response_per_request :
  forall (s : Server) (w : World) (r : Request) (s' : Server)
         (effects : list Effect),
    HandleCompile s w r = Some (s', effects) ->
    exists resp, responses effects = [resp].
Proof.
  intros s w r s' effects H.
  destruct (HandleCompile_inv _ _ _ _ _ H)
    as [(msg & code & -> & _)|(req & _ & [(_ & _ & ->)|[(_ & e & _ & ->)|
         [(_ & s1 & e & _ & _ & ->)|(_ & s1 & s2 & _ & _ & _ & ->)]]])].
  - now eexists.
  - destruct (compileJob_responses s w req (langOf req))
      as (b & resp & -> & Hb & _).
    exists resp. now rewrite responses_app, Hb.
  - now eexists.
  - now eexists.
  - destruct (compileJob_responses s2 w req (langOf req))
      as (b & resp & -> & Hb & _).
    exists resp. simpl. now rewrite !responses_app, Hb.
Qed.

Lemma one_response_per_request_witness :
  exists resp,
    responses
      [CallEnsureMemBudget;
       CallAcquireMemory (256 * MiB) (Some canceled);
       Respond (HttpError (Text "resource wait canceled")
                  StatusRequestTimeout)]
    = [resp].
Proof.
  apply (one_response_per_request (gatingServer 256 GiB 0)
           {| Join := joinClean; ensureDirs := None;
              cgroup := cgroupDir "max" "943718400";
              rounds := [mkAttempt (cgroupDir "max" "943718400")
                                   (CtxDone canceled)];
              randomID := "9f3a01bc"; mkdirJob := None; mkdirArt := None;
              writeSource := None; combinedOutput := fun _ => ("", None) |}
           (post "int main(){}" "c" []) (gatingServer 256 GiB 0)).
  vm_compute. reflexivity.
Defined.

Lemma releaseMemory_cfg s n : cfg (releaseMemory s n) = cfg s.
Proof. unfold releaseMemory. now destruct (_ <? _). Qed.

Lemma acquireMemory_cfg world s n s' e :
  acquireMemory world s n = Returned s' e -> cfg s' = cfg s.
Proof.
  intros H. pose proof (acquireMemory_cases world s n) as Hc.
  rewrite H in Hc. destruct e as [e|].
  - now destruct Hc as [-> _].
  - now subst s'.
Qed.

(** X15.  With resource gating switched off the handler never reads
    the cgroup, never calls [acquireMemory] or [releaseMemory], and
    returns the server exactly as it found it. *)
Theorem gating_off_leaves_counters :
  forall (s : Server) (w : World) (r : Request) (s' : Server)
         (effects : list Effect),
    EnableResourceGating (cfg s) = false ->
    HandleCompile s w r = Some (s', effects) ->
    s' = s
    /\ forall e, In e effects -> isRespond e = true \/ isFileOrRun e = true.
Proof.
  intros s w r s' effects Hoff H.
  destruct (HandleCompile_inv _ _ _ _ _ H)
    as [(msg & code & -> & -> & _)|(req & _ & [(_ & -> & ->)|[(Hon & _)|
         [(Hon & _)|(Hon & _)]]])]; try congruence.
  - split; [reflexivity|]. intros e [<-|[]]. now left.
  - split; [reflexivity|].
    destruct (compileJob_responses s w req (langOf req))
      as (b & resp & -> & _ & Hb).
    intros e Hin. apply in_app_or in Hin as [Hin|[<-|[]]].
    + right. rewrite forallb_forall in Hb. now apply Hb.
    + now left.
Qed.

Lemma gating_off_leaves_counters_witness :
  match HandleCompile (serverWith GiB (512 * MiB)) failingCompiler
          (post "int main(){" "cpp" []) with
  | Some (s', _) => s' = serverWith GiB (512 * MiB)
  | None => False
  end.
Proof.
  match goal with
  | |- match ?h with _ => _ end =>
      let v := eval vm_compute in h in
      assert (E : h = v) by (vm_compute; reflexivity)
  end.
  match type of E with
  | _ = Some (?s', ?effects) =>
      pose proof (proj1 (gating_off_leaves_counters
                           (serverWith GiB (512 * MiB)) failingCompiler
                           (post "int main(){" "cpp" []) s' effects
                           eq_refl E)) as Hs
  end.
  rewrite E. exact Hs.
Defined.



(** With a valid request the handler is its gating part. *)
Lemma HandleCompile_valid s w r req :
  valid w r req ->
  HandleCompile s w r =
  if EnableResourceGating (cfg s) then
    match ensureMemBudget (cgroup w) s with
    | (s1, Some e) =>
        Some (s1,
              [CallEnsureMemBudget;
               Respond (HttpError (Prefixed "resource gating init failed: " e)
                          StatusInternalServerError)])
    | (s1, None) =>
        match acquireMemory (rounds w) s1 (estimate (cfg s1)) with
        | Waiting _ => None
        | Returned s2 (Some e) =>
            Some (s2,
                  [CallEnsureMemBudget;
                   CallAcquireMemory (estimate (cfg s1)) (Some e);
                   Respond (HttpError (Text "resource wait canceled")
                              StatusRequestTimeout)])
        | Returned s2 None =>
            Some (releaseMemory s2 (estimate (cfg s1)),
                  [CallEnsureMemBudget;
                   CallAcquireMemory (estimate (cfg s1)) None]
                  ++ compileJob s2 w req (langOf req)
                  ++ [CallReleaseMemory (estimate (cfg s1))])
        end
    end
  else Some (s, compileJob s w req (langOf req)).
Proof.
  intros (Hm & Hd & Hb & Hc & Ht). apply String.eqb_neq in Hc.
  unfold HandleCompile. rewrite Hm, Hd, Hb, Hc, Ht.
  reflexivity.
Qed.

(** X17.  Every run of the compiler is of one of two shapes, with a
    deadline of five minutes.  Without the jail the program is [emcc]
    for the language [c] and [em++] otherwise, run in the job directory
    on [main.c], respectively [main.cpp]; with the jail the program is
    the configured [nsjail], whose arguments bind the job directory to
    [/work], cap file sizes at 256 MiB and end with the compiler and the
    source file.  Either way the arguments that follow are the filtered
    ones and then [-o app.js], so the last two arguments are always
    [-o] and [app.js]. *)
Theorem compiler_command_shape :
  forall (s : Server) (w : World) (r : Request) (s' : Server)
         (effects : list Effect) (cmd : Command),
    HandleCompile s w r = Some (s', effects) ->
    In (Run cmd) effects ->
    exists req,
      valid w r req
      /\ Deadline cmd = 5 * Minute
      /\ ((compiler (langOf req) = "emcc" /\ srcName (langOf req) = "main.c"
           /\ langOf req = "c")
          \/ (compiler (langOf req) = "em++"
              /\ srcName (langOf req) = "main.cpp" /\ langOf req <> "c"))
      /\ ((NsJailEnabled (cfg s) = true
           /\ Path cmd = NsJailPath (cfg s) /\ Dir cmd = None
           /\ Argv cmd = jailPrefix s w (langOf req)
                         ++ MergeAndFilterArgs (cfg s) (Args req)
                         ++ ["-o"; "app.js"])
          \/ (NsJailEnabled (cfg s) = false
              /\ Path cmd = compiler (langOf req)
              /\ Dir cmd = Some (jobDir s w)
              /\ Argv cmd = srcName (langOf req)
                            :: MergeAndFilterArgs (cfg s) (Args req)
                            ++ ["-o"; "app.js"])).
Proof.
  intros s w r s' effects cmd H Hin.
  assert (Hjob : forall req,
             In (Run cmd) (compileJob s w req (langOf req)) ->
             Deadline cmd = 5 * Minute
             /\ ((NsJailEnabled (cfg s) = true
                  /\ Path cmd = NsJailPath (cfg s) /\ Dir cmd = None
                  /\ Argv cmd = jailPrefix s w (langOf req)
                                ++ MergeAndFilterArgs (cfg s) (Args req)
                                ++ ["-o"; "app.js"])
                 \/ (NsJailEnabled (cfg s) = false
                     /\ Path cmd = compiler (langOf req)
                     /\ Dir cmd = Some (jobDir s w)
                     /\ Argv cmd = srcName (langOf req)
                                   :: MergeAndFilterArgs (cfg s) (Args req)
                                   ++ ["-o"; "app.js"]))).
  { intros req Hrun.
    destruct (compileJob_cases s w req (langOf req))
      as (cmd0 & Hdl & Hshape & Hcases).
    assert (cmd = cmd0) as ->.
    { destruct Hcases as [(e & _ & Heq)|[(e & _ & _ & Heq)|
        [(e & _ & _ & _ & Heq)|[(out & e & _ & _ & _ & _ & Heq)|
        (out & _ & _ & _ & _ & Heq)]]]];
        rewrite Heq in Hrun; simpl in Hrun;
        repeat (destruct Hrun as [Hrun|Hrun]; try discriminate Hrun);
        try (now injection Hrun); now destruct Hrun. }
    split; [exact Hdl|exact Hshape]. }
  assert (Hlang : forall req,
             (compiler (langOf req) = "emcc" /\ srcName (langOf req) = "main.c"
              /\ langOf req = "c")
             \/ (compiler (langOf req) = "em++"
                 /\ srcName (langOf req) = "main.cpp" /\ langOf req <> "c")).
  { intros req. unfold compiler, srcName.
    destruct (langOf req =? "c")%string eqn:Hl.
    - left. apply String.eqb_eq in Hl. now repeat split.
    - right. apply String.eqb_neq in Hl. now repeat split. }
  destruct (HandleCompile_inv _ _ _ _ _ H)
    as [(msg & code & -> & _)|(req & Hv & [(_ & _ & ->)|[(_ & e & _ & ->)|
         [(_ & s1 & e & _ & _ & ->)|(_ & s1 & s2 & Hens & Hacq & _ & ->)]]])].
  - destruct Hin as [Hin|[]]. discriminate Hin.
  - exists req. destruct (Hjob req Hin) as [Hd Hs].
    split; [exact Hv|]. split; [exact Hd|]. split; [apply Hlang|exact Hs].
  - destruct Hin as [Hin|[Hin|[]]]; discriminate Hin.
  - destruct Hin as [Hin|[Hin|[Hin|[]]]]; discriminate Hin.
  - destruct Hin as [Hin|[Hin|Hin]]; try discriminate Hin.
    cbn [app] in Hin. apply in_app_or in Hin as [Hin|[Hin|[]]];
      [|discriminate Hin].
    assert (Hcfg : cfg s2 = cfg s).
    { rewrite (acquireMemory_cfg _ _ _ _ _ Hacq).
      pose proof (ensureMemBudget_cfg (cgroup w) s) as Hc.
      now rewrite Hens in Hc. }
    rewrite (compileJob_cfg s2 s w req _ Hcfg) in Hin.
    exists req. destruct (Hjob req Hin) as [Hd Hs].
    split; [exact Hv|]. split; [exact Hd|]. split; [apply Hlang|exact Hs].
Qed.

Lemma compiler_command_shape_witness :
  exists req,
    valid fairWorld (post "int main(){return 0;}" "C++" ["-O2"; "-o"; "x"]) req
    /\ compiler (langOf req) = "em++"
    /\ srcName (langOf req) = "main.cpp".
Proof.
  pose (cmd := {| Path := "em++";
                  Argv := ["main.cpp"; "-sINVOKE_RUN=0"; "-sENVIRONMENT=web";
                           "-sALLOW_MEMORY_GROWTH=1"; "-sMODULARIZE=1";
                           "-O2"; "-o"; "app.js"];
                  Dir := Some "jobs/9f3a01bc";
                  Deadline := 300000000000 |}).
  match goal with
  | |- exists req, valid ?w ?r req /\ _ =>
      let v := eval vm_compute in
        (HandleCompile (NewServer DefaultConfig) w r) in
      match v with
      | Some (?s', ?effects) =>
          assert (E : HandleCompile (NewServer DefaultConfig) w r
                      = Some (s', effects)) by (vm_compute; reflexivity);
          assert (Hin : In (Run cmd) effects)
            by (do 3 right; left; reflexivity);
          destruct (compiler_command_shape _ _ _ _ _ cmd E Hin)
            as (req & Hv & _ & Hl & [(_ & Hp & _)|(_ & Hp & _)])
      end
  end.
  - discriminate Hp.
  - exists req. split; [exact Hv|].
    destruct Hl as [(_ & _ & Hc)|(Hc & Hs & _)]; [|now split].
    exfalso. unfold compiler in Hp. rewrite Hc in Hp. discriminate Hp.
Defined.

Lemma in_promotion_false effects :
  forallb (fun e => negb (isPromotion e)) effects = true ->
  forall e, In e effects -> isPromotion e = false.
Proof.
  rewrite forallb_forall. intros H e Hin.
  specialize (H e Hin). now apply negb_true_iff in H.
Qed.

(** X18.  The handler answers with JSON only after the compiler ran.
    If the compiler failed, the answer is 400 with [ok = false], the job
    id and the captured output, and nothing was promoted or removed: the
    job directory stays on disk.  If it succeeded, the answer is 200 with
    [ok = true] and the URLs [/<artifactsDir>/<id>/app.js] and
    [.../app.wasm], after [os.Rename] was called to move both files
    into the artifact directory and [os.RemoveAll] on the job directory
    (what those calls return is ignored). *)
Theorem compile_outcome :
  forall (s : Server) (w : World) (r : Request) (s' : Server)
         (effects : list Effect) (code : Z) (resp : CompileResponse),
    HandleCompile s w r = Some (s', effects) ->
    In (Respond (WriteJSON code resp)) effects ->
    exists cmd,
      In (Run cmd) effects
      /\ ID resp = randomID w
      /\ ((code = StatusBadRequest /\ OK resp = false
           /\ (exists e, combinedOutput w cmd = (Error resp, Some e))
           /\ forall e, In e effects -> isPromotion e = false)
          \/ (code = StatusOK /\ OK resp = true
              /\ (exists out, combinedOutput w cmd = (out, None))
              /\ JS resp = ("/" ++ trimLeadingSlash (ArtifactsDir (cfg s))
                            ++ "/" ++ randomID w ++ "/app.js")%string
              /\ WASM resp = ("/" ++ trimLeadingSlash (ArtifactsDir (cfg s))
                              ++ "/" ++ randomID w ++ "/app.wasm")%string
              /\ In (Rename (Join w [jobDir s w; "app.js"])
                            (Join w [artDir s w; "app.js"])) effects
              /\ In (Rename (Join w [jobDir s w; "app.wasm"])
                            (Join w [artDir s w; "app.wasm"])) effects
              /\ In (RemoveAll (jobDir s w)) effects)).
Proof.
  intros s w r s' effects code resp H Hin.
  assert (Hjob : forall req extra1 extra2,
             forallb (fun e => negb (isPromotion e)) extra1 = true ->
             forallb (fun e => negb (isPromotion e)) extra2 = true ->
             In (Respond (WriteJSON code resp))
                (compileJob s w req (langOf req)) ->
             exists cmd,
               In (Run cmd) (extra1 ++ compileJob s w req (langOf req) ++ extra2)
               /\ ID resp = randomID w
               /\ ((code = StatusBadRequest /\ OK resp = false
                    /\ (exists e, combinedOutput w cmd = (Error resp, Some e))
                    /\ forall e,
                         In e (extra1 ++ compileJob s w req (langOf req)
                               ++ extra2) ->
                         isPromotion e = false)
                   \/ (code = StatusOK /\ OK resp = true
                       /\ (exists out, combinedOutput w cmd = (out, None))
                       /\ JS resp = ("/" ++ trimLeadingSlash (ArtifactsDir (cfg s))
                                     ++ "/" ++ randomID w ++ "/app.js")%string
                       /\ WASM resp = ("/" ++ trimLeadingSlash (ArtifactsDir (cfg s))
                                       ++ "/" ++ randomID w ++ "/app.wasm")%string
                       /\ In (Rename (Join w [jobDir s w; "app.js"])
                                     (Join w [artDir s w; "app.js"]))
                             (extra1 ++ compileJob s w req (langOf req) ++ extra2)
                       /\ In (Rename (Join w [jobDir s w; "app.wasm"])
                                     (Join w [artDir s w; "app.wasm"]))
                             (extra1 ++ compileJob s w req (langOf req) ++ extra2)
                       /\ In (RemoveAll (jobDir s w))
                             (extra1 ++ compileJob s w req (langOf req)
                              ++ extra2)))).
  { intros req extra1 extra2 H1 H2 Hresp.
    destruct (compileJob_cases s w req (langOf req))
      as (cmd0 & _ & _ & Hcases).
    exists cmd0.
    destruct Hcases as [(e & _ & Heq)|[(e & _ & _ & Heq)|
        [(e & _ & _ & _ & Heq)|[(out & e & _ & _ & _ & Hout & Heq)|
        (out & _ & _ & _ & Hout & Heq)]]]];
      rewrite Heq in Hresp |- *; simpl in Hresp;
      repeat (destruct Hresp as [Hresp|Hresp]; try discriminate Hresp);
      try (now destruct Hresp).
    - injection Hresp as <- <-.
      split; [apply in_or_app; right; apply in_or_app; left; simpl; tauto|].
      split; [reflexivity|]. left.
      split; [reflexivity|]. split; [reflexivity|].
      split; [now exists e|].
      intros e0 Hin0. apply in_app_or in Hin0 as [Hin0|Hin0];
        [now apply (in_promotion_false extra1)|].
      apply in_app_or in Hin0 as [Hin0|Hin0];
        [|now apply (in_promotion_false extra2)].
      simpl in Hin0.
      repeat (destruct Hin0 as [<-|Hin0]; [reflexivity|]). destruct Hin0.
    - injection Hresp as <- <-.
      split; [apply in_or_app; right; apply in_or_app; left; simpl; tauto|].
      split; [reflexivity|]. right.
      split; [reflexivity|]. split; [reflexivity|].
      split; [now exists out|].
      split; [reflexivity|]. split; [reflexivity|].
      repeat split; apply in_or_app; right; apply in_or_app; left;
        simpl; tauto. }
  destruct (HandleCompile_inv _ _ _ _ _ H)
    as [(msg & hcode & -> & _)|(req & Hv & [(_ & _ & ->)|[(_ & e & _ & ->)|
         [(_ & s1 & e & _ & _ & ->)|(_ & s1 & s2 & Hens & Hacq & _ & ->)]]])].
  - destruct Hin as [Hin|[]]. discriminate Hin.
  - specialize (Hjob req [] [] eq_refl eq_refl Hin).
    cbn [app] in Hjob. now rewrite app_nil_r in Hjob.
  - destruct Hin as [Hin|[Hin|[]]]; discriminate Hin.
  - destruct Hin as [Hin|[Hin|[Hin|[]]]]; discriminate Hin.
  - assert (Hcfg : cfg s2 = cfg s).
    { rewrite (acquireMemory_cfg _ _ _ _ _ Hacq).
      pose proof (ensureMemBudget_cfg (cgroup w) s) as Hc.
      now rewrite Hens in Hc. }
    rewrite (compileJob_cfg s2 s w req _ Hcfg) in Hin |- *.
    destruct Hin as [Hin|[Hin|Hin]]; try discriminate Hin.
    cbn [app] in Hin. apply in_app_or in Hin as [Hin|[Hin|[]]];
      [|discriminate Hin].
    exact (Hjob req [CallEnsureMemBudget;
                     CallAcquireMemory (estimate (cfg s1)) None]
             [CallReleaseMemory (estimate (cfg s1))] eq_refl eq_refl Hin).
Qed.

Lemma compile_outcome_witness :
  match HandleCompile (NewServer DefaultConfig) failingCompiler
          (post "int main(){" "c" []) with
  | Some (_, effects) =>
      forall e, In e effects -> isPromotion e = false
  | None => False
  end.
Proof.
  match goal with
  | |- match ?h with _ => _ end =>
      let v := eval vm_compute in h in
      assert (E : h = v) by (vm_compute; reflexivity)
  end.
  match type of E with
  | _ = Some (?s', ?effects) =>
      assert (Hin : In (Respond (WriteJSON StatusBadRequest
                          {| OK := false; ID := "9f3a01bc"; JS := "";
                             WASM := "";
                             Error := "main.c:1:12: error: expected '}'" |}))
                       effects)
        by (do 4 right; left; reflexivity);
      destruct (compile_outcome _ _ _ s' effects _ _ E Hin)
        as (cmd & _ & _ & [(_ & _ & _ & Hno)|(Habs & _)])
  end.
  - rewrite E. exact Hno.
  - discriminate Habs.
Defined.



End HandlerMore.

(* ================================================================= *)
(** ** Admission under a positive budget *)

Module AdmissionFacts.
Import Gating GatingFacts Interleaving InterleavingFacts Admission Fixtures.
Local Open Scope list_scope.

(** A property of systems kept by every step holds all along a run. *)
Lemma run_invariant (Inv : System -> Prop) :
  (forall i sys sys' l,
      Inv sys -> systemStep i sys = Some (sys', l) -> Inv sys') ->
  forall schedule sys,
    Inv sys ->
    Forall (fun step => exists sys1, Inv sys1 /\ shared sys1 = fst step)
           (snd (run schedule sys))
    /\ Inv (fst (run schedule sys)).
Proof.
  intros Hstep.
  induction schedule as [|i schedule IH]; intros sys Hinv.
  - simpl. split; [constructor|exact Hinv].
  - simpl. destruct (systemStep i sys) as [[sys' l]|] eqn:Hs.
    + destruct (IH sys' (Hstep _ _ _ _ Hinv Hs)) as [IH1 IH2].
      destruct (run schedule sys') as [final trace]. simpl in *.
      split; [|exact IH2].
      constructor; [|exact IH1]. now exists sys.
    + now apply IH.
Qed.

Lemma releaseMemory_budget s n :
  memBudgetBytes (releaseMemory s n) = memBudgetBytes s.
Proof. unfold releaseMemory. now destruct (_ <? _). Qed.

Lemma releaseMemory_cfg' s n : cfg (releaseMemory s n) = cfg s.
Proof. unfold releaseMemory. now destruct (_ <? _). Qed.

Lemma limit_value : limit = 2305843009213693952.
Proof. reflexivity. Qed.

Lemma threadStep_within budget c t s t' s' l :
  0 < budget <= limit ->
  threadStep t s = Some (t', s', l) ->
  boundedThread budget (CgroupV2Root c) t ->
  withinBudget budget c s ->
  boundedThread budget (CgroupV2Root c) t' /\ withinBudget budget c s'.
Proof.
  intros Hb Hstep [Hcur Htodo] (Hbud & Hcfg & Hres).
  pose proof limit_value as HL.
  unfold threadStep in Hstep. destruct t as [cur td ret]. simpl in *.
  destruct cur as [[[p n] world]|].
  - destruct Hcur as (Hn & Hw & Hp).
    destruct p as [| |max|max cur|].
    + rewrite Hbud in Hstep.
      assert (E : (budget =? 0) = false) by (apply Z.eqb_neq; lia).
      rewrite E in Hstep. injection Hstep as <- <- <-.
      split; [|now repeat split]. split; [|exact Htodo]. simpl.
      now repeat split.
    + destruct Hp.
    + destruct world as [|w world]; [discriminate|].
      rewrite Hcfg in Hstep.
      pose proof (Forall_inv Hw) as Hw0. unfold boundedRound in Hw0.
      destruct (readCgroupMemoryCurrent (files w) (CgroupV2Root c)) as [cur|e];
        injection Hstep as <- <- <-;
        (split; [|now repeat split]); (split; [|exact Htodo]); simpl;
        now repeat split.
    + destruct Hp as [-> Hc].
      destruct (fits s cur n budget) eqn:Hfit; injection Hstep as <- <- <-.
      * split; [split; [exact I|exact Htodo]|].
        apply fits_spec in Hfit.
        rewrite (Int64Facts.add_small cur) in Hfit
          by (unfold Int64.in_range, Int64.min_int, Int64.max_int; lia).
        rewrite Int64Facts.add_small in Hfit
          by (unfold Int64.in_range, Int64.min_int, Int64.max_int; lia).
        unfold withinBudget, reserve. simpl.
        rewrite Int64Facts.add_small
          by (unfold Int64.in_range, Int64.min_int, Int64.max_int; lia).
        repeat split; try assumption; lia.
      * split; [|now repeat split]. split; [|exact Htodo]. simpl.
        now repeat split.
    + destruct world as [|w world]; [discriminate|].
      destruct (selected w); injection Hstep as <- <- <-.
      * split; [|now repeat split]. split; [exact I|exact Htodo].
      * split; [|now repeat split]. split; [|exact Htodo]. simpl.
        split; [exact Hn|]. split; [|exact I]. now inversion Hw.
  - destruct td as [|[n world|n] rest]; [discriminate| |];
      injection Hstep as <- <- <-; inversion Htodo as [|c0 l0 Hc0 Hrest];
      subst; simpl in Hc0.
    + split; [|now repeat split]. split; [|exact Hrest]. simpl.
      destruct Hc0 as [Hn Hw]. now repeat split.
    + split; [split; [exact I|exact Hrest]|].
      unfold withinBudget.
      rewrite releaseMemory_budget, releaseMemory_cfg'.
      rewrite releaseMemory_clamps
        by (try assumption;
            unfold Int64.in_range, Int64.min_int, Int64.max_int; lia).
      repeat split; try assumption; lia.
Qed.

Lemma systemStep_admitted budget c i sys sys' l :
  0 < budget <= limit ->
  admitted budget c sys ->
  systemStep i sys = Some (sys', l) ->
  admitted budget c sys'.
Proof.
  intros Hb [Hs Hall] Hstep. unfold systemStep in Hstep.
  destruct (nth_error (threads sys) i) as [t|] eqn:Hnth; [|discriminate].
  destruct (threadStep t (shared sys)) as [[[t' s'] l']|] eqn:Ht;
    [|discriminate].
  injection Hstep as <- <-.
  assert (Hbt : boundedThread budget (CgroupV2Root c) t).
  { rewrite Forall_forall in Hall. apply Hall. now apply nth_error_In with i. }
  destruct (threadStep_within _ _ _ _ _ _ _ Hb Ht Hbt Hs) as [Ht' Hs'].
  split; [exact Hs'|]. simpl. now apply Forall_replace.
Qed.

(** X20.  No oversubscription.  Under a positive budget, goroutines
    that call [acquireMemory] and [releaseMemory] in any order and any
    interleaving never take the sum of reservations above the budget or
    below 0, provided the budget, the estimates and the values read from
    [memory.current] are all between 0 and 2^61, so that the capacity
    test cannot overflow. *)
Theorem reserved_within_budget :
  forall (s0 : Server) (programs : list (list Call)) (schedule : list nat),
    0 < memBudgetBytes s0 <= limit ->
    0 <= memReservedBytes s0 <= memBudgetBytes s0 ->
    Forall (Forall (boundedCall (CgroupV2Root (cfg s0)))) programs ->
    let sys0 := {| shared := s0; threads := map spawn programs |} in
    Forall (fun step =>
              0 <= memReservedBytes (fst step) <= memBudgetBytes s0)
           (snd (run schedule sys0))
    /\ 0 <= memReservedBytes (shared (fst (run schedule sys0)))
       <= memBudgetBytes s0.
Proof.
  intros s0 programs schedule Hb Hr Hprog sys0.
  assert (Hinit : admitted (memBudgetBytes s0) (cfg s0) sys0).
  { split; [now repeat split|]. simpl. rewrite Forall_map.
    eapply Forall_impl; [|exact Hprog].
    intros calls Hc. split; [exact I|exact Hc]. }
  destruct (run_invariant (admitted (memBudgetBytes s0) (cfg s0))
              (fun i sys sys' l Hi Hs =>
                 systemStep_admitted _ _ i sys sys' l Hb Hi Hs)
              schedule sys0 Hinit) as [Htrace Hfinal].
  split.
  - eapply Forall_impl; [|exact Htrace].
    intros step (sys1 & [(_ & _ & Hres) _] & <-). exact Hres.
  - destruct Hfinal as [(_ & _ & Hres) _]. exact Hres.
Qed.

Lemma reserved_within_budget_witness :
  0 <= memReservedBytes
         (shared (fst (run twoJobs
                         {| shared := serverWith GiB 0;
                            threads := map spawn [job; job] |})))
    <= GiB.
Proof.
  assert (Hround : boundedRound (CgroupV2Root (cfg (serverWith GiB 0)))
                     halfUsed)
    by (vm_compute; split; discriminate).
  assert (Hjob : Forall (boundedCall (CgroupV2Root (cfg (serverWith GiB 0))))
                   job).
  { apply Forall_cons; [split|apply Forall_cons; [|apply Forall_nil]].
    - vm_compute. split; discriminate.
    - apply Forall_cons; [exact Hround|].
      apply Forall_cons; [exact Hround|apply Forall_nil].
    - vm_compute. discriminate. }
  refine (proj2 (reserved_within_budget (serverWith GiB 0) [job; job] twoJobs
                   _ _ _)).
  - vm_compute. split; [reflexivity|discriminate].
  - vm_compute. split; discriminate.
  - apply Forall_cons; [exact Hjob|].
    apply Forall_cons; [exact Hjob|apply Forall_nil].
Defined.

End AdmissionFacts.

(* ================================================================= *)
(** ** Requests as goroutines *)

Module JobsFacts.
Import Gating GatingFacts Interleaving InterleavingFacts AdmissionFacts Jobs
       Fixtures.
Local Open Scope list_scope.

Lemma jobThread_amounts t :
  jobThread t -> 0 <= held t <= pending t.
Proof.
  intros H. destruct H; unfold held, pending; simpl; lia.
Qed.

(** What a step of a request does: the estimate it may still hold does
    not grow, and the sum of reservations moves by what the goroutine
    comes to hold or gives back. *)
Lemma threadStep_job t s t' s' l :
  threadStep t s = Some (t', s', l) ->
  jobThread t ->
  0 <= memReservedBytes s - held t ->
  memReservedBytes s - held t + pending t <= Int64.max_int ->
  jobThread t'
  /\ pending t' <= pending t
  /\ memReservedBytes s' = memReservedBytes s - held t + held t'.
Proof.
  intros Hstep Hjob Hlo Hhi. unfold threadStep in Hstep.
  destruct Hjob as [n world ret Hn Hw|p n world ret Hn Hw|n ret Hn|ret];
    unfold held, pending in *; simpl in *.
  - injection Hstep as <- <- <-. simpl.
    split; [now constructor|]. split; lia.
  - assert (Hgrant : memReservedBytes (reserve s n) = memReservedBytes s + n).
    { rewrite reserve_reserved. apply Int64Facts.add_small.
      unfold Int64.in_range, Int64.min_int. lia. }
    destruct p as [| |max|max cur|].
    + destruct (memBudgetBytes s =? 0); injection Hstep as <- <- <-; simpl;
        (split; [now constructor|]); split; lia.
    + injection Hstep as <- <- <-. rewrite Hgrant. simpl.
      split; [now constructor|]. split; lia.
    + destruct world as [|w world]; [discriminate|].
      destruct (readCgroupMemoryCurrent _ _); injection Hstep as <- <- <-;
        simpl; (split; [now constructor|]); split; lia.
    + destruct (fits s cur n max); injection Hstep as <- <- <-.
      * rewrite Hgrant. simpl. split; [now constructor|]. split; lia.
      * simpl. split; [now constructor|]. split; lia.
    + destruct world as [|w world]; [discriminate|].
      pose proof (Forall_inv Hw) as Hsel. simpl in Hsel. rewrite Hsel in Hstep.
      injection Hstep as <- <- <-. simpl.
      split; [constructor; [exact Hn|now inversion Hw]|]. split; lia.
  - injection Hstep as <- <- <-. simpl.
    split; [constructor|]. split; [lia|].
    rewrite releaseMemory_clamps
      by (try assumption; unfold Int64.in_range, Int64.min_int; lia).
    lia.
  - discriminate.
Qed.

Lemma total_replace f i t t' l :
  nth_error l i = Some t ->
  total f (replace i t' l) = total f l - f t + f t'.
Proof.
  revert i. induction l as [|x l IH]; intros i H.
  - destruct i; discriminate.
  - destruct i as [|i]; simpl in *.
    + injection H as ->. lia.
    + rewrite (IH i H). lia.
Qed.

Lemma total_others f g i t l :
  (forall x, In x l -> 0 <= f x <= g x) ->
  nth_error l i = Some t ->
  0 <= total f l - f t /\ total f l - f t <= total g l - g t.
Proof.
  revert i. induction l as [|x l IH]; intros i Hall H.
  - destruct i; discriminate.
  - assert (Hl : forall y, In y l -> 0 <= f y <= g y)
      by (intros y Hy; apply Hall; now right).
    assert (Htot : 0 <= total f l <= total g l).
    { clear -Hl. induction l as [|y l IH]; simpl; [lia|].
      pose proof (Hl y (or_introl eq_refl)).
      assert (0 <= total f l <= total g l)
        by (apply IH; intros z Hz; apply Hl; now right).
      lia. }
    destruct i as [|i]; simpl in *.
    + injection H as ->. lia.
    + destruct (IH i Hl H). pose proof (Hall x (or_introl eq_refl)). lia.
Qed.

Lemma systemStep_balanced i sys sys' l :
  balanced sys -> systemStep i sys = Some (sys', l) -> balanced sys'.
Proof.
  intros (Hjobs & Hsum & Hmax) Hstep. unfold systemStep in Hstep.
  destruct (nth_error (threads sys) i) as [t|] eqn:Hnth; [|discriminate].
  destruct (threadStep t (shared sys)) as [[[t' s'] l']|] eqn:Ht;
    [|discriminate].
  injection Hstep as <- <-.
  assert (Hjt : jobThread t).
  { rewrite Forall_forall in Hjobs. apply Hjobs.
    now apply nth_error_In with i. }
  assert (Hall : forall x, In x (threads sys) -> 0 <= held x <= pending x).
  { intros x Hx. apply jobThread_amounts.
    rewrite Forall_forall in Hjobs. now apply Hjobs. }
  destruct (total_others held pending i t _ Hall Hnth) as [Hlo Hle].
  destruct (threadStep_job _ _ _ _ _ Ht Hjt) as (Hjt' & Hpend & Hres).
  - rewrite Hsum. exact Hlo.
  - rewrite Hsum. lia.
  - split; [|split]; simpl.
    + now apply Forall_replace.
    + rewrite (total_replace held i t t' _ Hnth). lia.
    + rewrite (total_replace pending i t t' _ Hnth). lia.
Qed.

Lemma total_finished l :
  Forall finished l -> total held l = 0.
Proof.
  induction 1 as [|t l [Hc Ht] Hl IH]; [reflexivity|].
  unfold total in *. cbn [fold_right]. rewrite IH.
  unfold held. rewrite Hc, Ht. lia.
Qed.

Lemma total_spawn (jobs : list (Z * list Attempt)) :
  total held (map (fun j => spawn (jobCalls (fst j) (snd j))) jobs) = 0
  /\ total pending (map (fun j => spawn (jobCalls (fst j) (snd j))) jobs)
     = fold_right (fun j acc => fst j + acc) 0 jobs.
Proof.
  induction jobs as [|j jobs [IH1 IH2]]; [split; reflexivity|].
  unfold total in *. cbn [map fold_right]. rewrite IH1, IH2.
  unfold held, pending, spawn, jobCalls. simpl. split; lia.
Qed.

(** X21.  Admission symmetry under concurrency.  Let any number of
    requests run together, each acquiring its estimate and releasing it
    once admitted, none of them cancelled while it waits, with
    non-negative estimates whose sum fits an [int64].  However their
    steps interleave, the sum of reservations is at every step the sum of
    the estimates of the requests that are admitted and have not released
    yet; it is never negative; and it is back at 0 once all requests are
    done. *)
Theorem reservations_are_those_held :
  forall (s0 : Server) (jobs : list (Z * list Attempt)) (schedule : list nat),
    memReservedBytes s0 = 0 ->
    Forall (fun j => 0 <= fst j /\ neverCancelled (snd j)) jobs ->
    fold_right (fun j acc => fst j + acc) 0 jobs <= Int64.max_int ->
    let sys0 :=
      {| shared := s0;
         threads := map (fun j => spawn (jobCalls (fst j) (snd j))) jobs |} in
    let final := fst (run schedule sys0) in
    memReservedBytes (shared final) = total held (threads final)
    /\ Forall (fun step => 0 <= memReservedBytes (fst step))
              (snd (run schedule sys0))
    /\ (Forall finished (threads final) ->
        memReservedBytes (shared final) = 0).
Proof.
  intros s0 jobs schedule Hzero Hjobs Hsum sys0 final.
  destruct (total_spawn jobs) as [Hheld Hpend].
  assert (Hinit : balanced sys0).
  { split; [|split]; simpl.
    - rewrite Forall_map. eapply Forall_impl; [|exact Hjobs].
      intros j [Hn Hw]. now apply job_new.
    - now rewrite Hheld.
    - now rewrite Hpend. }
  destruct (run_invariant balanced systemStep_balanced schedule sys0 Hinit)
    as [Htrace (Hfj & Hfs & _)].
  split; [exact Hfs|]. split.
  - eapply Forall_impl; [|exact Htrace].
    intros step (sys1 & (Hj & Hs & _) & <-). rewrite Hs.
    clear -Hj. induction Hj as [|t l Ht Hl IH]; simpl; [lia|].
    pose proof (jobThread_amounts t Ht). lia.
  - intros Hfin. fold final in Hfs. rewrite Hfs. now apply total_finished.
Qed.

Lemma reservations_are_those_held_witness :
  let sys0 :=
    {| shared := serverWith GiB 0;
       threads := map (fun j => spawn (jobCalls (fst j) (snd j)))
                      [(256 * MiB, [halfUsed; halfUsed]);
                       (256 * MiB, [halfUsed; halfUsed])] |} in
  memReservedBytes (shared (fst (run twoJobs sys0))) = 0
  /\ memReservedBytes (shared (fst (run [0; 1; 0; 1; 0; 0]%nat sys0)))
     = total held (threads (fst (run [0; 1; 0; 1; 0; 0]%nat sys0)))
  /\ total held (threads (fst (run [0; 1; 0; 1; 0; 0]%nat sys0))) = 256 * MiB.
Proof.
  intros sys0.
  assert (Hjobs : Forall (fun j => 0 <= fst j /\ neverCancelled (snd j))
                    [(256 * MiB, [halfUsed; halfUsed]);
                     (256 * MiB, [halfUsed; halfUsed])]).
  { repeat (apply Forall_cons || apply Forall_nil);
      (split; [vm_compute; discriminate|]);
      repeat (apply Forall_cons || apply Forall_nil); reflexivity. }
  assert (Hsum : fold_right (fun j acc => fst j + acc) 0
                   [(256 * MiB, [halfUsed; halfUsed]);
                    (256 * MiB, [halfUsed; halfUsed])] <= Int64.max_int)
    by (vm_compute; discriminate).
  split; [|split].
  - apply (proj2 (proj2 (reservations_are_those_held (serverWith GiB 0) _
                           twoJobs eq_refl Hjobs Hsum))).
    match goal with
    | |- Forall _ ?l =>
        let t := eval vm_compute in l in
        assert (E : l = t) by (vm_compute; reflexivity); rewrite E; clear E
    end.
    repeat (apply Forall_cons || apply Forall_nil); split; reflexivity.
  - exact (proj1 (reservations_are_those_held (serverWith GiB 0) _
                    [0; 1; 0; 1; 0; 0]%nat eq_refl Hjobs Hsum)).
  - vm_compute. reflexivity.
Defined.

End JobsFacts.

(* ================================================================= *)
(** ** Job identifiers, directories and probes *)

Module IdentityFacts.
Import Gating Identity Dirs Fixtures.
Local Open Scope list_scope.

Lemma hex_byte_round_trip (b : ascii) :
  ascii_of_nat
    (16 * hexValue (hexDigit (nat_of_ascii b / 16))
     + hexValue (hexDigit (nat_of_ascii b mod 16))) = b
  /\ isLowerHex (hexDigit (nat_of_ascii b / 16)) = true
  /\ isLowerHex (hexDigit (nat_of_ascii b mod 16)) = true.
Proof.
  destruct b as [[] [] [] [] [] [] [] []]; vm_compute; repeat split.
Qed.

Lemma decodeHex_EncodeToString src : decodeHex (EncodeToString src) = src.
Proof.
  induction src as [|b src IH]; [reflexivity|].
  simpl. rewrite IH. f_equal. apply hex_byte_round_trip.
Qed.

Lemma EncodeToString_shape src :
  String.length (EncodeToString src) = (2 * List.length src)%nat
  /\ allChars isLowerHex (EncodeToString src) = true.
Proof.
  induction src as [|b src [IH1 IH2]]; [split; reflexivity|].
  destruct (hex_byte_round_trip b) as (_ & H1 & H2).
  cbn [EncodeToString String.length allChars List.length].
  rewrite IH1, IH2, H1, H2. split; [lia|reflexivity].
Qed.

(** X22.  When [rand.Read] fills the [n] bytes, [randomID(n)] returns,
    without error, an identifier of 2n characters, all of them digits or
    letters from [a] to [f]; two identifiers are equal only if the random
    bytes were, since the bytes can be read back from the identifier.
    When [rand.Read] fails the identifier is empty. *)
Theorem randomID_hex :
  forall (n : nat) (b : list ascii),
    List.length b = n ->
    snd (randomID n (Ok b)) = None
    /\ String.length (fst (randomID n (Ok b))) = (2 * n)%nat
    /\ allChars isLowerHex (fst (randomID n (Ok b))) = true
    /\ decodeHex (fst (randomID n (Ok b))) = b
    /\ (forall b', fst (randomID n (Ok b')) = fst (randomID n (Ok b)) ->
                   b' = b)
    /\ (forall e, randomID n (Err e) = ("", Some e)).
Proof.
  intros n b Hn. simpl.
  destruct (EncodeToString_shape b) as [H1 H2].
  split; [reflexivity|]. split; [now rewrite H1, Hn|].
  split; [exact H2|]. split; [apply decodeHex_EncodeToString|].
  split; [|reflexivity].
  intros b' Heq. apply (f_equal decodeHex) in Heq.
  now rewrite !decodeHex_EncodeToString in Heq.
Qed.

Lemma randomID_hex_witness :
  fst (randomID 4 (Ok [byte 159; byte 58; byte 1; byte 188])) = "9f3a01bc"
  /\ String.length
       (fst (randomID 4 (Ok [byte 159; byte 58; byte 1; byte 188]))) = 8%nat.
Proof.
  split; [reflexivity|].
  exact (proj1 (proj2 (randomID_hex 4 [byte 159; byte 58; byte 1; byte 188]
                         eq_refl))).
Defined.

(** X23.  [ensureDirs] does its work once.  The first call creates the
    jobs directory and then, only if that succeeded, the artifacts
    directory, and returns the first error met; every later call creates
    nothing and returns [nil], even when the first call failed. *)
Theorem ensureDirs_once :
  forall (c : Config) (join : list string -> string)
         (first : string -> option error)
         (later : list (string -> option error)),
    let jobs := join [BaseDir c; JobsDir c] in
    let artifacts := join [BaseDir c; ArtifactsDir c] in
    exists err paths,
      ensureDirsCalls c join (first :: later) false
        = (err, paths) :: map (fun _ => (None, [])) later
      /\ (err = None <-> first jobs = None /\ first artifacts = None)
      /\ (In artifacts paths -> jobs = artifacts \/ first jobs = None)
      /\ (paths = [jobs] \/ paths = [jobs; artifacts]).
Proof.
  intros c join first later jobs artifacts.
  assert (Hlater : forall l,
             ensureDirsCalls c join l true = map (fun _ => (None, [])) l).
  { induction l as [|m l IH]; [reflexivity|]. simpl. now rewrite IH. }
  cbn [ensureDirsCalls]. unfold ensureDirs. fold jobs. fold artifacts.
  destruct (first jobs) as [e|] eqn:Hj.
  - exists (Some e), [jobs]. rewrite Hlater. split; [reflexivity|].
    split; [split; [discriminate|intros [H _]; discriminate H]|].
    split; [|now left]. intros [H|[]]. now left.
  - destruct (first artifacts) as [e|] eqn:Ha.
    + exists (Some e), [jobs; artifacts]. rewrite Hlater.
      split; [reflexivity|].
      split; [split; [discriminate|intros [_ H]; discriminate H]|].
      split; [|now right]. intros _. now right.
    + exists None, [jobs; artifacts]. rewrite Hlater.
      split; [reflexivity|]. split; [now split|].
      split; [|now right]. intros _. now right.
Qed.

End IdentityFacts.

(* ================================================================= *)
(** ** White space *)

Module TrimFacts.
Import GoStrings.
Local Open Scope string_scope.

Lemma append_empty_r s : s ++ "" = s.
Proof. induction s as [|c s IH]; simpl; [reflexivity|now rewrite IH]. Qed.

Lemma append_assoc a b c : (a ++ b) ++ c = a ++ b ++ c.
Proof. induction a as [|x a IH]; simpl; [reflexivity|now rewrite IH]. Qed.

Lemma rev_app a : forall b, rev (a ++ b) = rev b ++ rev a.
Proof.
  induction a as [|c a IH]; intros b; simpl.
  - now rewrite append_empty_r.
  - now rewrite IH, append_assoc.
Qed.

Lemma rev_rev s : rev (rev s) = s.
Proof.
  induction s as [|c s IH]; [reflexivity|].
  simpl. now rewrite rev_app, IH.
Qed.

Lemma length_append a b :
  String.length (a ++ b) = (String.length a + String.length b)%nat.
Proof. induction a as [|c a IH]; simpl; [reflexivity|now rewrite IH]. Qed.

Lemma length_rev s : String.length (rev s) = String.length s.
Proof.
  induction s as [|c s IH]; [reflexivity|].
  simpl. rewrite length_append, IH. simpl. lia.
Qed.

(** Dropping bytes leaves a suffix. *)
Lemma dropBytes_suffix n :
  forall s, exists q, s = q ++ dropBytes n s.
Proof.
  induction n as [|n IH]; intros s.
  - now exists "".
  - destruct s as [|c s]; [now exists ""|].
    destruct (IH s) as [q Hq]. exists (String c q). simpl. now rewrite <- Hq.
Qed.

Lemma dropBytes_length n s :
  (0 < n)%nat -> s <> "" ->
  (String.length (dropBytes n s) < String.length s)%nat.
Proof.
  intros Hn Hs. destruct n as [|n]; [lia|].
  destruct s as [|c s]; [contradiction|]. simpl.
  destruct (dropBytes_suffix n s) as [q Hq].
  rewrite Hq at 2. rewrite length_append. lia.
Qed.

(** The loops that trim, for either end: [step] tells how many bytes of
    white space the string begins with. *)
Lemma trim_fuel_stops (step : string -> option nat) (trim : nat -> string -> string) :
  (forall fuel s, trim (S fuel) s
                  = match step s with
                    | Some w => trim fuel (dropBytes w s)
                    | None => s
                    end) ->
  (forall s, trim O s = s) ->
  step "" = None ->
  (forall s w, step s = Some w -> (0 < w)%nat) ->
  forall fuel s,
    (String.length s <= fuel)%nat ->
    step (trim fuel s) = None /\ exists q, s = q ++ trim fuel s.
Proof.
  intros HS HO Hnil Hpos.
  induction fuel as [|fuel IH]; intros s Hlen.
  - rewrite HO. destruct s; [|simpl in Hlen; lia].
    split; [exact Hnil|now exists ""].
  - rewrite HS. destruct (step s) as [w|] eqn:Hw.
    + assert (Hs : s <> "") by (intros ->; congruence).
      pose proof (dropBytes_length w s (Hpos _ _ Hw) Hs) as Hlt.
      destruct (IH (dropBytes w s) ltac:(lia)) as [H1 [q Hq]].
      split; [exact H1|].
      destruct (dropBytes_suffix w s) as [q0 Hq0].
      exists (q0 ++ q). rewrite Hq0 at 1. rewrite Hq at 1.
      now rewrite append_assoc.
    + split; [exact Hw|now exists ""].
Qed.

Lemma leadingSpace_pos s w : leadingSpace s = Some w -> (0 < w)%nat.
Proof.
  unfold leadingSpace. destruct s as [|c s]; [discriminate|].
  destruct (asciiSpace c); [intros H; injection H as <-; lia|].
  destruct (find _ unicodeSpaces) as [e|] eqn:Hf; [|discriminate].
  intros H. injection H as <-.
  apply find_some in Hf as [Hin _].
  unfold unicodeSpaces in Hin. simpl in Hin.
  repeat (destruct Hin as [<-|Hin]; [simpl; lia|]). destruct Hin.
Qed.

Lemma trailingSpace_pos s w : trailingSpace s = Some w -> (0 < w)%nat.
Proof.
  unfold trailingSpace. destruct s as [|c s]; [discriminate|].
  destruct (asciiSpace c); [intros H; injection H as <-; lia|].
  destruct (find _ unicodeSpaces) as [e|] eqn:Hf; [|discriminate].
  intros H. injection H as <-.
  apply find_some in Hf as [Hin _].
  unfold unicodeSpaces in Hin. simpl in Hin.
  repeat (destruct Hin as [<-|Hin]; [simpl; lia|]). destruct Hin.
Qed.

Lemma trimLeft_spec s :
  leadingSpace (TrimLeftSpace s) = None
  /\ exists q, s = q ++ TrimLeftSpace s.
Proof.
  apply (trim_fuel_stops leadingSpace trimLeftFuel); try reflexivity.
  apply leadingSpace_pos.
Qed.

Lemma trimRight_spec r :
  trailingSpace (trimRightFuel (String.length r) r) = None
  /\ exists q, r = q ++ trimRightFuel (String.length r) r.
Proof.
  apply (trim_fuel_stops trailingSpace trimRightFuel); try reflexivity.
  apply trailingSpace_pos.
Qed.

Lemma trimLeft_fixed fuel s : leadingSpace s = None -> trimLeftFuel fuel s = s.
Proof. intros H. destruct fuel; simpl; [reflexivity|now rewrite H]. Qed.

Lemma trimRight_fixed fuel r :
  trailingSpace r = None -> trimRightFuel fuel r = r.
Proof. intros H. destruct fuel; simpl; [reflexivity|now rewrite H]. Qed.

Lemma prefix_append e p rest :
  String.prefix e p = true -> String.prefix e (p ++ rest) = true.
Proof.
  rewrite !PathFacts.prefix_iff. intros [y ->]. exists (y ++ rest).
  now rewrite append_assoc.
Qed.

(** A string without leading white space has no prefix with any. *)
Lemma leadingSpace_prefix p rest :
  leadingSpace (p ++ rest) = None -> leadingSpace p = None.
Proof.
  unfold leadingSpace. destruct p as [|c p]; [reflexivity|].
  change (String c p ++ rest) with (String c (p ++ rest)). cbv beta iota.
  destruct (asciiSpace c); [intros H; exact H|].
  destruct (find (fun e => String.prefix e (String c (p ++ rest))) unicodeSpaces)
    as [e|] eqn:Hf; [discriminate|]. intros _.
  destruct (find (fun e => String.prefix e (String c p)) unicodeSpaces)
    as [e|] eqn:Hp; [|reflexivity].
  apply find_some in Hp as [Hin Hpre].
  pose proof (find_none _ _ Hf e Hin) as Hnone. cbv beta in Hnone.
  apply (prefix_append e (String c p) rest) in Hpre.
  change (String c p ++ rest) with (String c (p ++ rest)) in Hpre.
  congruence.
Qed.

(** [strings.TrimSpace] applied twice is [strings.TrimSpace]. *)
Lemma TrimSpace_idempotent s : TrimSpace (TrimSpace s) = TrimSpace s.
Proof.
  unfold TrimSpace at 2 3. unfold TrimRightSpace.
  set (L := TrimLeftSpace s).
  destruct (trimLeft_spec s) as [HL _]. fold L in HL.
  pose proof (trimRight_spec (rev L)) as Hspec.
  rewrite length_rev in Hspec. destruct Hspec as [Ht [q Hq]].
  set (t := trimRightFuel (String.length L) (rev L)) in *.
  assert (Hpre : L = rev t ++ rev q).
  { rewrite <- (rev_rev L), Hq, rev_app. reflexivity. }
  assert (Hlead : leadingSpace (rev t) = None).
  { apply (leadingSpace_prefix _ (rev q)). now rewrite <- Hpre. }
  unfold TrimSpace, TrimLeftSpace.
  rewrite (trimLeft_fixed _ _ Hlead).
  unfold TrimRightSpace. rewrite rev_rev.
  now rewrite (trimRight_fixed _ _ Ht).
Qed.

End TrimFacts.

(* ================================================================= *)
(** ** Filtering twice, and a flag left without its value *)

Module FilterAgain.
Import GoStrings ArgFilter ArgFilterFacts ArgFilterMore Fixtures.
Import TrimFacts GatingFacts HandlerFacts Handler Job HandlerMore Gating.
Local Open Scope list_scope.

(** What the filter keeps, it keeps again. *)
Lemma filterLoop_idempotent user :
  filterLoop (filterLoop user []) [] = filterLoop user [].
Proof.
  induction user as [|a|a b l IHl IHbl] using list_ind_two.
  - reflexivity.
  - rewrite filterLoop_one.
    destruct (TrimSpace a =? "")%string eqn:He; [reflexivity|].
    unfold filterSingle.
    destruct (isBlockedArg (TrimSpace a) blocked) eqn:Hb; [reflexivity|].
    destruct (isAllowedArg (TrimSpace a) allowedPrefix) eqn:Ha; [|reflexivity].
    cbn [app]. rewrite filterLoop_one, TrimSpace_idempotent, He.
    unfold filterSingle. now rewrite Hb, Ha.
  - rewrite filterLoop_two.
    destruct (TrimSpace a =? "")%string eqn:He; [exact IHbl|].
    destruct (isPairFlag (TrimSpace a)) eqn:Hp.
    + destruct (safeArgPath (TrimSpace b)) eqn:Hs; cbn [negb]; [|exact IHl].
      rewrite (filterLoop_app l). cbn [app].
      rewrite filterLoop_two, !TrimSpace_idempotent, He, Hp, Hs. cbn [negb].
      rewrite (filterLoop_app (filterLoop l [])), IHl. reflexivity.
    + rewrite (filterLoop_app (b :: l)). unfold filterSingle.
      destruct (isBlockedArg (TrimSpace a) blocked) eqn:Hb; [exact IHbl|].
      destruct (isAllowedArg (TrimSpace a) allowedPrefix) eqn:Ha;
        [|rewrite app_nil_l; exact IHbl].
      cbn [app].
      rewrite filterLoop_cons_not_pair
        by (now rewrite TrimSpace_idempotent).
      rewrite TrimSpace_idempotent, He.
      rewrite (filterLoop_app (filterLoop (b :: l) [])), IHbl.
      unfold filterSingle. now rewrite Hb, Ha.
Qed.

(** X25.  Filtering is idempotent on the user's part: when the tokens
    that [MergeAndFilterArgs] kept from a request are submitted again,
    all of them are kept, unchanged and in the same order, so the
    argument vector is the same. *)
Theorem filter_twice :
  forall (cfg : Config) (user kept : list string),
    MergeAndFilterArgs cfg user = DefaultArgs cfg ++ kept ->
    MergeAndFilterArgs cfg kept = MergeAndFilterArgs cfg user.
Proof.
  intros cfg user kept H.
  unfold MergeAndFilterArgs in *.
  rewrite filterLoop_app in H. apply app_inv_head in H. subst kept.
  rewrite (filterLoop_app (filterLoop user [])), filterLoop_idempotent.
  now rewrite <- filterLoop_app.
Qed.

Lemma filter_twice_witness :
  MergeAndFilterArgs DefaultConfig
    ["-O2"; "--embed-file"; "-o"; "-sMODULARIZE=0"; "--embed-file"]
  = MergeAndFilterArgs DefaultConfig
      [" -O2 "; "--js-library"; "--embed-file"; "-o"; "--preload-file";
       "../x"; "-sMODULARIZE=0"; ""; "--embed-file"].
Proof.
  apply filter_twice. vm_compute. reflexivity.
Defined.

Lemma pair_flag_safe a : isPairFlag a = true -> safeArgPath a = true.
Proof.
  intros H. destruct (isPairFlag_cases a H) as [-> | [-> | ->]];
    vm_compute; reflexivity.
Qed.

Lemma pair_flag_not_empty a : isPairFlag a = true -> (a =? "")%string = false.
Proof.
  intros H. destruct (isPairFlag_cases a H) as [-> | [-> | ->]];
    reflexivity.
Qed.

(** A pair flag in the last place of the user's vector is always the
    last token kept, whether the loop reads it as a flag or as the value
    of the flag before it. *)
Lemma filterLoop_last_pair_flag u :
  isPairFlag (TrimSpace u) = true ->
  forall user result,
    exists pre, filterLoop (user ++ [u]) result = pre ++ [TrimSpace u].
Proof.
  intros Hu.
  assert (Hone : forall result,
             filterLoop [u] result = result ++ [TrimSpace u]).
  { intros result. rewrite filterLoop_one, (pair_flag_not_empty _ Hu).
    unfold filterSingle.
    now rewrite (pair_flag_not_blocked _ Hu), (pair_flag_allowed _ Hu). }
  induction user as [|a|a b l IHl IHbl] using list_ind_two; intros result.
  - exists result. apply Hone.
  - change ([a] ++ [u]) with [a; u]. rewrite filterLoop_two.
    change (filterLoop [] ?r) with r.
    destruct (TrimSpace a =? "")%string; [exists result; apply Hone|].
    destruct (isPairFlag (TrimSpace a)).
    + rewrite (pair_flag_safe _ Hu). cbn [negb].
      exists (result ++ [TrimSpace a]). now rewrite <- app_assoc.
    + eexists. apply Hone.
  - change ((a :: b :: l) ++ [u]) with (a :: b :: (l ++ [u])).
    rewrite filterLoop_two.
    destruct (TrimSpace a =? "")%string; [apply (IHbl result)|].
    destruct (isPairFlag (TrimSpace a)).
    + destruct (negb (safeArgPath (TrimSpace b))); apply IHl.
    + apply (IHbl (filterSingle (TrimSpace a) result)).
Qed.

(** The arguments of every run of the compiler end with the filtered
    ones and the forced output name. *)
Lemma run_argv_tail s w r s' effects cmd :
  HandleCompile s w r = Some (s', effects) ->
  In (Run cmd) effects ->
  exists req pre,
    Body r = Some req
    /\ Argv cmd = pre ++ MergeAndFilterArgs (cfg s) (Args req)
                      ++ ["-o"; "app.js"].
Proof.
  intros H Hin.
  assert (Hjob : forall req,
             In (Run cmd) (compileJob s w req (langOf req)) ->
             exists pre,
               Argv cmd = pre ++ MergeAndFilterArgs (cfg s) (Args req)
                              ++ ["-o"; "app.js"]).
  { intros req Hrun.
    destruct (compileJob_cases s w req (langOf req))
      as (cmd0 & _ & Hshape & Hcases).
    assert (cmd = cmd0) as ->.
    { destruct Hcases as [(e & _ & Heq)|[(e & _ & _ & Heq)|
        [(e & _ & _ & _ & Heq)|[(out & e & _ & _ & _ & _ & Heq)|
        (out & _ & _ & _ & _ & Heq)]]]];
        rewrite Heq in Hrun; simpl in Hrun;
        repeat (destruct Hrun as [Hrun|Hrun]; try discriminate Hrun);
        try (now injection Hrun); now destruct Hrun. }
    destruct Hshape as [(_ & _ & _ & ->)|(_ & _ & _ & ->)].
    - now exists (jailPrefix s w (langOf req)).
    - now exists [srcName (langOf req)]. }
  destruct (HandleCompile_inv _ _ _ _ _ H)
    as [(msg & code & -> & _)|(req & Hv & [(_ & _ & ->)|[(_ & e & _ & ->)|
         [(_ & s1 & e & _ & _ & ->)|(_ & s1 & s2 & Hens & Hacq & _ & ->)]]])].
  - destruct Hin as [Hin|[]]. discriminate Hin.
  - destruct (Hjob req Hin) as [pre Hpre]. exists req, pre.
    split; [apply Hv|exact Hpre].
  - destruct Hin as [Hin|[Hin|[]]]; discriminate Hin.
  - destruct Hin as [Hin|[Hin|[Hin|[]]]]; discriminate Hin.
  - destruct Hin as [Hin|[Hin|Hin]]; try discriminate Hin.
    cbn [app] in Hin. apply in_app_or in Hin as [Hin|[Hin|[]]];
      [|discriminate Hin].
    assert (Hcfg : cfg s2 = cfg s).
    { rewrite (acquireMemory_cfg _ _ _ _ _ Hacq).
      pose proof (ensureMemBudget_cfg (cgroup w) s) as Hc.
      now rewrite Hens in Hc. }
    rewrite (compileJob_cfg s2 s w req _ Hcfg) in Hin.
    destruct (Hjob req Hin) as [pre Hpre]. exists req, pre.
    split; [apply Hv|exact Hpre].
Qed.

(** X26.  A flag that takes a value and is given last in [args] is never
    dropped, and nothing is put after it before the handler's own
    arguments: the compiler is run with that flag followed at once by
    [-o app.js], so [-o] stands where the flag's value is read. *)
Theorem trailing_pair_flag_meets_dash_o :
  forall (s : Server) (w : World) (r : Request) (s' : Server)
         (effects : list Effect) (cmd : Command)
         (req : CompileRequest) (user : list string) (u : string),
    HandleCompile s w r = Some (s', effects) ->
    In (Run cmd) effects ->
    Body r = Some req ->
    Args req = user ++ [u] ->
    isPairFlag (TrimSpace u) = true ->
    exists pre, Argv cmd = pre ++ [TrimSpace u; "-o"; "app.js"].
Proof.
  intros s w r s' effects cmd req user u H Hin Hbody Hargs Hu.
  destruct (run_argv_tail _ _ _ _ _ _ H Hin) as (req' & pre & Hb & Hargv).
  assert (req' = req) as -> by congruence.
  rewrite Hargs in Hargv. unfold MergeAndFilterArgs in Hargv.
  destruct (filterLoop_last_pair_flag u Hu user ([] ++ DefaultArgs (cfg s)))
    as [kept Hkept].
  rewrite Hkept in Hargv. exists (pre ++ kept).
  rewrite Hargv, <- !app_assoc. reflexivity.
Qed.

Lemma trailing_pair_flag_meets_dash_o_witness :
  exists pre,
    ["main.c"; "-sINVOKE_RUN=0"; "-sENVIRONMENT=web";
     "-sALLOW_MEMORY_GROWTH=1"; "-sMODULARIZE=1";
     "-O2"; "--embed-file"; "-o"; "app.js"]
    = pre ++ ["--embed-file"; "-o"; "app.js"].
Proof.
  pose (cmd := {| Path := "emcc";
                  Argv := ["main.c"; "-sINVOKE_RUN=0"; "-sENVIRONMENT=web";
                           "-sALLOW_MEMORY_GROWTH=1"; "-sMODULARIZE=1";
                           "-O2"; "--embed-file"; "-o"; "app.js"];
                  Dir := Some "jobs/9f3a01bc";
                  Deadline := 300000000000 |}).
  pose (req := {| Code := "int main(){return 0;}"; Type_ := "c";
                  Args := ["-O2"; " --embed-file "] |}).
  pose (r := post "int main(){return 0;}" "c" ["-O2"; " --embed-file "]).
  let v := eval vm_compute in
    (HandleCompile (NewServer DefaultConfig) fairWorld r) in
  match v with
  | Some (?s', ?effects) =>
      assert (E : HandleCompile (NewServer DefaultConfig) fairWorld r
                  = Some (s', effects)) by (vm_compute; reflexivity);
      assert (Hin : In (Run cmd) effects)
        by (do 3 right; left; reflexivity);
      exact (trailing_pair_flag_meets_dash_o
               (NewServer DefaultConfig) fairWorld r s' effects cmd req
               ["-O2"] " --embed-file " E Hin eq_refl eq_refl eq_refl)
  end.
Defined.

End FilterAgain.

(* ================================================================= *)
(** ** A cgroup without a memory limit *)

Module UnlimitedFacts.
Import GoStrings ArgFilter Gating GatingFacts Handler HandlerFacts Job.
Import HandlerMore Fixtures.
Local Open Scope list_scope.

(** X27.  Gating is a formality when the cgroup has no limit.  With
    resource gating on and no budget yet, a request that passes
    validation while [memory.max] reads [max] (or a number that is not
    positive) is admitted at once, wherever [memory.current] stands and
    even if it cannot be read: the budget is set to 0, the estimate is
    reserved, the job runs as it does without gating, and the estimate is
    released; the sum of reservations is then what it was, when adding
    the estimate to it did not overflow. *)
Theorem unlimited_cgroup_admits_at_once :
  forall (s : Server) (w : World) (r : Request) (req : CompileRequest)
         (max : Z),
    valid w r req ->
    EnableResourceGating (cfg s) = true ->
    memBudgetBytes s <= 0 ->
    readCgroupMemoryMax (cgroup w) (CgroupV2Root (cfg s)) = Ok max ->
    max <= 0 ->
    exists s',
      HandleCompile s w r
      = Some (s', [CallEnsureMemBudget;
                   CallAcquireMemory (estimate (cfg s)) None]
                  ++ compileJob s w req (langOf req)
                  ++ [CallReleaseMemory (estimate (cfg s))])
      /\ memBudgetBytes s' = 0
      /\ cfg s' = cfg s
      /\ (0 <= memReservedBytes s ->
          memReservedBytes s + estimate (cfg s) <= Int64.max_int ->
          memReservedBytes s' = memReservedBytes s).
Proof.
  intros s w r req max Hv Hg Hb Hmax Hle.
  rewrite (HandleCompile_valid s w r req Hv), Hg.
  unfold ensureMemBudget.
  destruct (0 <? memBudgetBytes s) eqn:Hpos;
    [apply Z.ltb_lt in Hpos; lia|].
  rewrite Hmax. apply Z.leb_le in Hle. rewrite Hle.
  set (s1 := setBudget s 0).
  rewrite (acquireMemory_unlimited (rounds w) s1 (estimate (cfg s1)) eq_refl).
  change (cfg s1) with (cfg s).
  rewrite (compileJob_cfg (reserve s1 (estimate (cfg s))) s w req
             (langOf req) eq_refl).
  eexists. split; [reflexivity|]. split; [|split].
  - unfold releaseMemory.
    now destruct (memReservedBytes (reserve s1 (estimate (cfg s)))
                  <? estimate (cfg s)).
  - unfold releaseMemory.
    now destruct (memReservedBytes (reserve s1 (estimate (cfg s)))
                  <? estimate (cfg s)).
  - intros H0 Hfit.
    pose proof (estimate_positive (cfg s)) as Hest.
    apply (release_after_reserve s1 (estimate (cfg s))); [exact H0|exact Hfit|lia].
Qed.

Lemma unlimited_cgroup_admits_at_once_witness :
  exists s',
    HandleCompile (gatingServer 256 0 0) fairWorld
      (post "int main(){return 0;}" "c" ["-O2"])
    = Some (s', [CallEnsureMemBudget; CallAcquireMemory (256 * MiB) None]
                ++ compileJob (gatingServer 256 0 0) fairWorld
                     {| Code := "int main(){return 0;}"; Type_ := "c";
                        Args := ["-O2"] |} "c"
                ++ [CallReleaseMemory (256 * MiB)])
    /\ memReservedBytes s' = 0.
Proof.
  destruct (unlimited_cgroup_admits_at_once
              (gatingServer 256 0 0) fairWorld
              (post "int main(){return 0;}" "c" ["-O2"])
              {| Code := "int main(){return 0;}"; Type_ := "c";
                 Args := ["-O2"] |} 0)
    as (s' & H & _ & _ & Hr).
  - vm_compute. repeat split; congruence.
  - reflexivity.
  - vm_compute. discriminate.
  - reflexivity.
  - lia.
  - exists s'. split; [exact H|]. apply Hr; vm_compute; discriminate.
Defined.

End UnlimitedFacts.

(* ================================================================= *)
(** ** What the handler does before validation *)

Module OnceFacts.
Import GoStrings ArgFilter Gating GatingFacts Handler HandlerFacts Job.
Import Fixtures HandlerMore Dirs Once.
Local Open Scope list_scope.

(** What [ensureDirs] creates: nothing once [s.onceMkDir] has run,
    otherwise the jobs directory and at most the artifacts directory. *)
Lemma ensureDirs_paths c join mkdirAll once :
  let jobs := join [BaseDir c; JobsDir c] in
  let artifacts := join [BaseDir c; ArtifactsDir c] in
  let '(once', _, paths) := ensureDirs c join mkdirAll once in
  once' = true
  /\ (forall p, In p paths -> once = false /\ (p = jobs \/ p = artifacts))
  /\ (once = false -> In jobs paths).
Proof.
  cbv zeta. unfold ensureDirs.
  destruct once.
  { split; [reflexivity|]. split; [intros p []|discriminate]. }
  destruct (mkdirAll _); [|destruct (mkdirAll _)];
    (split; [reflexivity|]); (split; [|intros _; now left]);
    intros p Hp; (split; [reflexivity|]); simpl in Hp; intuition.
Qed.

(** X14.  Before validation the handler does one thing besides
    answering: on the first POST that reaches it, [s.ensureDirs()]
    creates the jobs directory and, if that succeeded, the artifacts
    directory, whether the request is valid or not.  Everything else
    (the job's directories, the source file, the compiler, the gating
    calls) is only done for a POST whose body decoded, whose code is not
    blank and whose type is accepted, once [ensureDirs] has returned
    [nil]; a request that is turned away gets one [http.Error] and
    leaves the counters of the server as they were. *)
Theorem no_work_before_validation :
  forall (s : Server) (w : World) (mkdirAll : string -> option error)
         (once : bool) (r : Request) (once' : bool) (s' : Server)
         (effects : list Effect),
    HandleCompileOnce s w mkdirAll once r = Some (once', s', effects) ->
    let jobs := Join w [BaseDir (cfg s); JobsDir (cfg s)] in
    let artifacts := Join w [BaseDir (cfg s); ArtifactsDir (cfg s)] in
    let dirs := ensureDirs (cfg s) (Join w) mkdirAll once in
    let w' := withEnsureDirs w (snd (fst dirs)) in
    (forall e, In e effects -> isRespond e = false ->
       (once = false /\ Method r = "POST"
        /\ (e = MkdirAll jobs \/ e = MkdirAll artifacts))
       \/ exists req, valid w' r req)
    /\ ((forall req, ~ valid w' r req) ->
        s' = s
        /\ exists msg code,
             effects
             = (if (Method r =? "POST")%string
                then map MkdirAll (snd dirs) else [])
               ++ [Respond (HttpError msg code)])
    /\ once' = (once || (Method r =? "POST")%string)%bool
    /\ (Method r = "POST" -> once = false -> In (MkdirAll jobs) effects).
Proof.
  intros s w mkdirAll once r once' s' effects H. cbv zeta.
  pose proof (ensureDirs_paths (cfg s) (Join w) mkdirAll once) as Hdirs.
  unfold HandleCompileOnce in H.
  destruct (ensureDirs (cfg s) (Join w) mkdirAll once) as [[o err] paths].
  destruct Hdirs as (Honce & Hpaths & Hfirst). cbn [fst snd].
  destruct (Method r =? "POST")%string eqn:Hm; cbn [negb] in H.
  - destruct (HandleCompile s (withEnsureDirs w err) r)
      as [[s1 eff]|] eqn:Hh; [|discriminate H].
    cbn [option_map fst snd] in H. injection H as <- <- <-.
    assert (Hmk : forall e, In e (map MkdirAll paths) ->
                    once = false
                    /\ (e = MkdirAll (Join w [BaseDir (cfg s); JobsDir (cfg s)])
                        \/ e = MkdirAll (Join w [BaseDir (cfg s);
                                                 ArtifactsDir (cfg s)]))).
    { intros e He. apply in_map_iff in He as (p & <- & Hp).
      destruct (Hpaths p Hp) as [Ho [-> | ->]]; auto. }
    apply String.eqb_eq in Hm.
    destruct (HandleCompile_inv _ _ _ _ _ Hh)
      as [(msg & code & -> & -> & Hnv)|(req & Hv & _)].
    + split; [|split; [|split]].
      * intros e Hin He. apply in_app_or in Hin as [Hin|[<-|[]]].
        -- left. destruct (Hmk e Hin) as [Ho He']. now repeat split.
        -- discriminate He.
      * intros _. split; [reflexivity|]. now exists msg, code.
      * now rewrite Honce, orb_true_r.
      * intros _ Ho. apply in_or_app. left. apply in_map. now apply Hfirst.
    + split; [|split; [|split]].
      * intros e _ _. right. now exists req.
      * intros Hnv. now contradiction (Hnv req).
      * now rewrite Honce, orb_true_r.
      * intros _ Ho. apply in_or_app. left. apply in_map. now apply Hfirst.
  - destruct (HandleCompile s w r) as [[s1 eff]|] eqn:Hh; [|discriminate H].
    cbn [option_map fst snd] in H. injection H as <- <- <-.
    unfold HandleCompile, reject in Hh.
    rewrite Hm in Hh. cbn [negb] in Hh.
    injection Hh as <- <-. apply String.eqb_neq in Hm.
    split; [|split; [|split]].
    + intros e [<-|[]] He. discriminate He.
    + intros _. split; [reflexivity|]. now do 2 eexists.
    + now rewrite orb_false_r.
    + intros Hp. contradiction.
Qed.

Lemma no_work_before_validation_witness :
  In (MkdirAll "jobs")
     (match HandleCompileOnce (NewServer DefaultConfig) fairWorld
              (fun _ => None) false
              {| Method := "POST"; Body := None |} with
      | Some (_, _, effects) => effects
      | None => []
      end)
  /\ HandleCompileOnce (NewServer DefaultConfig) fairWorld
       (fun _ => None) false {| Method := "POST"; Body := None |}
     = Some (true, NewServer DefaultConfig,
             [MkdirAll "jobs"; MkdirAll "artifacts";
              Respond (HttpError (Text "invalid JSON") StatusBadRequest)]).
Proof.
  assert (E : HandleCompileOnce (NewServer DefaultConfig) fairWorld
                (fun _ => None) false {| Method := "POST"; Body := None |}
              = Some (true, NewServer DefaultConfig,
                      [MkdirAll "jobs"; MkdirAll "artifacts";
                       Respond (HttpError (Text "invalid JSON")
                                  StatusBadRequest)]))
    by (vm_compute; reflexivity).
  split; [|exact E].
  rewrite E.
  exact (proj2 (proj2 (proj2 (no_work_before_validation _ _ _ _ _ _ _ _ E)))
           eq_refl eq_refl).
Defined.

End OnceFacts.

(* ================================================================= *)
(** ** Admission symmetry *)

Module SymmetryFacts.
Import GoStrings Gating GatingFacts Interleaving InterleavingFacts.
Import Handler HandlerFacts Job HandlerMore Jobs Requests Fixtures.
Local Open Scope list_scope.

Lemma sumOf_replace (A : Type) (f : A -> Z) i x x' (l : list A) :
  nth_error l i = Some x ->
  sumOf f (replace i x' l) = sumOf f l - f x + f x'.
Proof.
  revert i. induction l as [|y l IH]; intros i H.
  - destruct i; discriminate.
  - destruct i as [|i]; unfold sumOf in *; simpl in *.
    + injection H as ->. lia.
    + rewrite (IH i H). lia.
Qed.

Lemma sumOf_bounds (A : Type) (f g : A -> Z) (l : list A) :
  (forall x, In x l -> 0 <= f x <= g x) ->
  0 <= sumOf f l <= sumOf g l.
Proof.
  induction l as [|y l IH]; intros Hall; unfold sumOf in *; simpl; [lia|].
  pose proof (Hall y (or_introl eq_refl)).
  assert (0 <= fold_right (fun x acc => f x + acc) 0 l
          <= fold_right (fun x acc => g x + acc) 0 l)
    by (apply IH; intros z Hz; apply Hall; now right).
  lia.
Qed.

Lemma sumOf_others (A : Type) (f g : A -> Z) i x (l : list A) :
  (forall y, In y l -> 0 <= f y <= g y) ->
  nth_error l i = Some x ->
  0 <= sumOf f l - f x /\ sumOf f l - f x <= sumOf g l - g x.
Proof.
  revert i. induction l as [|y l IH]; intros i Hall H.
  - destruct i; discriminate.
  - assert (Hl : forall z, In z l -> 0 <= f z <= g z)
      by (intros z Hz; apply Hall; now right).
    pose proof (sumOf_bounds A f g l Hl) as Htot.
    destruct i as [|i]; unfold sumOf in *; simpl in *.
    + injection H as ->. lia.
    + destruct (IH i Hl H). pose proof (Hall y (or_introl eq_refl)). lia.
Qed.

Lemma holding_awaited est p :
  0 <= est -> wellFormed est p -> 0 <= holding p <= awaited est p.
Proof.
  intros Hest Hp. destruct p as [cg world|t|]; simpl; try lia.
  destruct Hp; unfold held; simpl; lia.
Qed.

(** What a step of a request does: what it may still hold does not
    grow, and the sum of reservations moves, exactly, by what the request
    comes to hold or gives back. *)
Lemma requestStep_settled c p s p' s' l :
  requestStep p s = Some (p', s', l) ->
  cfg s = c ->
  wellFormed (estimate c) p ->
  0 <= memReservedBytes s - holding p ->
  memReservedBytes s - holding p + awaited (estimate c) p <= Int64.max_int ->
  cfg s' = c
  /\ wellFormed (estimate c) p'
  /\ awaited (estimate c) p' <= awaited (estimate c) p
  /\ memReservedBytes s' = memReservedBytes s - holding p + holding p'
  /\ exact (estimate c) (s, l, s').
Proof.
  intros Hstep Hc Hp Hlo Hhi.
  pose proof (estimate_positive c) as Hest.
  set (est := estimate c) in *.
  destruct p as [cg world|t|]; simpl in Hstep; [| |discriminate].
  - pose proof (ensureMemBudget_reserved cg s) as Hres.
    pose proof (ensureMemBudget_cfg cg s) as Hcfg.
    destruct (ensureMemBudget cg s) as [s1 [e|]]; simpl in Hres, Hcfg;
      injection Hstep as <- <- <-; simpl.
    + repeat split; try congruence; try lia.
    + rewrite Hcfg, Hc. fold est.
      split; [reflexivity|]. split; [apply gating_new|].
      unfold held; simpl. repeat split; lia.
  - destruct (threadStep t s) as [[[t' s1] l1]|] eqn:Ht; [|discriminate].
    injection Hstep as <- <- <-.
    assert (Hgrant : holding (Gated t) = 0 ->
              memReservedBytes (reserve s est) = memReservedBytes s + est).
    { intros H0. rewrite H0 in *. simpl in Hhi.
      rewrite reserve_reserved. apply Int64Facts.add_small.
      unfold Int64.in_range, Int64.min_int. lia. }
    unfold threadStep in Ht. simpl in Hp.
    destruct Hp as [world|pt world|]; unfold held in *; simpl in *.
    + injection Ht as <- <- <-. simpl.
      split; [exact Hc|]. split; [apply gating_waiting|].
      unfold held; simpl. repeat split; lia.
    + specialize (Hgrant eq_refl).
      destruct pt as [| |max|max cur|].
      * destruct (memBudgetBytes s =? 0); injection Ht as <- <- <-; simpl;
          (split; [exact Hc|]); (split; [apply gating_waiting|]);
          unfold held; simpl; repeat split; lia.
      * injection Ht as <- <- <-. simpl.
        split; [exact Hc|]. split; [apply gating_admitted|].
        unfold held; simpl. rewrite Hgrant. repeat split; lia.
      * destruct world as [|w world]; [discriminate|].
        destruct (readCgroupMemoryCurrent _ _); injection Ht as <- <- <-;
          simpl; (split; [exact Hc|]); (split; [apply gating_waiting|]);
          unfold held; simpl; repeat split; lia.
      * destruct (fits s cur est max); injection Ht as <- <- <-; simpl.
        -- split; [exact Hc|]. split; [apply gating_admitted|].
           unfold held; simpl. rewrite Hgrant. repeat split; lia.
        -- split; [exact Hc|]. split; [apply gating_waiting|].
           unfold held; simpl. repeat split; lia.
      * destruct world as [|w world]; [discriminate|].
        destruct (selected w) as [e|]; injection Ht as <- <- <-; simpl.
        -- change (held {| current := Some (AtSelect, est, w :: world);
                            todo := [Release est]; returned := [] |})
             with 0 in *.
           repeat split; try assumption; lia.
        -- split; [exact Hc|]. split; [apply gating_waiting|].
           unfold held; simpl. repeat split; lia.
    + injection Ht as <- <- <-.
      change (held {| current := None; todo := [Release est];
                      returned := [None] |}) with est in Hlo, Hhi.
      assert (Hrel : memReservedBytes (releaseMemory s est)
                     = memReservedBytes s - est).
      { rewrite releaseMemory_clamps;
          [lia|unfold Int64.in_range, Int64.min_int; lia|lia]. }
      change (leaves {| current := None; todo := []; returned := [None] |})
        with true. cbv iota.
      split; [now rewrite releaseMemory_cfg|]. split; [exact I|].
      unfold exact, holding, awaited, held. cbn.
      rewrite Hrel. repeat split; lia.
Qed.

Lemma serviceStep_settled c r0 i sv sv' l :
  settled c r0 sv ->
  serviceStep i sv = Some (sv', l) ->
  settled c r0 sv' /\ exact (estimate c) (server sv, l, server sv').
Proof.
  intros (Hr0 & Hc & Hwf & Hsum & Hmax) Hstep. unfold serviceStep in Hstep.
  destruct (nth_error (requests sv) i) as [p|] eqn:Hnth; [|discriminate].
  destruct (requestStep p (server sv)) as [[[p' s'] l']|] eqn:Hp;
    [|discriminate].
  injection Hstep as <- <-.
  pose proof (estimate_positive c) as Hest.
  assert (Hwp : wellFormed (estimate c) p).
  { rewrite Forall_forall in Hwf. apply Hwf. now apply nth_error_In with i. }
  assert (Hall : forall x, In x (requests sv) ->
                   0 <= holding x <= awaited (estimate c) x).
  { intros x Hx. apply holding_awaited; [lia|].
    rewrite Forall_forall in Hwf. now apply Hwf. }
  destruct (sumOf_others _ holding (awaited (estimate c)) i p _ Hall Hnth)
    as [Hlo Hle].
  destruct (requestStep_settled c p _ _ _ _ Hp Hc Hwp)
    as (Hc' & Hwp' & Haw & Hres & Hex); [lia|lia|].
  split; [|exact Hex].
  split; [exact Hr0|]. split; [exact Hc'|]. split; [|split]; simpl.
  - now apply Forall_replace.
  - rewrite (sumOf_replace _ holding i p p' _ Hnth). lia.
  - rewrite (sumOf_replace _ (awaited (estimate c)) i p p' _ Hnth). lia.
Qed.

Lemma serve_settled c r0 schedule :
  forall sv,
    settled c r0 sv ->
    Forall (exact (estimate c)) (snd (serve schedule sv))
    /\ settled c r0 (fst (serve schedule sv)).
Proof.
  induction schedule as [|i schedule IH]; intros sv Hinv.
  - simpl. split; [constructor|exact Hinv].
  - simpl. destruct (serviceStep i sv) as [[sv' l]|] eqn:Hs.
    + destruct (serviceStep_settled c r0 i sv sv' l Hinv Hs) as [Hinv' Hex].
      destruct (IH sv' Hinv') as [IH1 IH2].
      destruct (serve schedule sv') as [final trace]. simpl in *.
      split; [|exact IH2]. now constructor.
    + now apply IH.
Qed.

Lemma sumOf_arrivals est (arrivals : list (Files * list Attempt)) :
  sumOf holding (map (fun a => Arrived (fst a) (snd a)) arrivals) = 0
  /\ sumOf (awaited est) (map (fun a => Arrived (fst a) (snd a)) arrivals)
     = Z.of_nat (List.length arrivals) * est.
Proof.
  induction arrivals as [|a arrivals [IH1 IH2]]; [split; reflexivity|].
  unfold sumOf in *. cbn [map fold_right List.length].
  rewrite IH1, IH2. cbn [holding awaited]. split; lia.
Qed.

Lemma sumOf_gone (l : list Phase) :
  Forall (fun p => p = Gone) l -> sumOf holding l = 0.
Proof.
  induction 1 as [|p l -> Hl IH]; [reflexivity|].
  unfold sumOf in *. cbn [fold_right holding]. rewrite IH. reflexivity.
Qed.

(** *** A request served alone goes the way of the handler *)

Lemma serve_step sv sv' l schedule :
  serviceStep 0 sv = Some (sv', l) ->
  fst (serve (0%nat :: schedule) sv) = fst (serve schedule sv').
Proof.
  intros H. simpl. rewrite H. now destruct (serve schedule sv').
Qed.

Lemma serve_app a :
  forall b sv, fst (serve (a ++ b) sv) = fst (serve b (fst (serve a sv))).
Proof.
  induction a as [|i a IH]; intros b sv; [reflexivity|].
  simpl. destruct (serviceStep i sv) as [[sv' l]|].
  - specialize (IH b sv').
    destruct (serve (a ++ b) sv') as [f1 t1], (serve a sv') as [f2 t2].
    exact IH.
  - apply IH.
Qed.

Lemma calling_step p n world s p' world' :
  threadStep (calling p n world) s = Some (calling p' n world', s, Silent) ->
  forall schedule,
    fst (serve (0%nat :: schedule)
           {| server := s; requests := [Gated (calling p n world)] |})
    = fst (serve schedule
             {| server := s; requests := [Gated (calling p' n world')] |}).
Proof.
  intros H schedule. apply (serve_step _ _ Silent).
  unfold serviceStep. cbn [requests nth_error server requestStep].
  rewrite H. reflexivity.
Qed.

Lemma calling_grant p n world s :
  threadStep (calling p n world) s
  = Some (return_ None (calling p n world), reserve s n, Granted n) ->
  forall schedule,
    fst (serve (0%nat :: schedule)
           {| server := s; requests := [Gated (calling p n world)] |})
    = fst (serve schedule
             {| server := reserve s n;
                requests := [Gated (admittedThread n)] |}).
Proof.
  intros H schedule. apply (serve_step _ _ (Granted n)).
  unfold serviceStep. cbn [requests nth_error server requestStep].
  rewrite H. reflexivity.
Qed.

Lemma calling_cancel p n world s e :
  threadStep (calling p n world) s
  = Some (return_ (Some e) (calling p n world), s, Silent) ->
  forall schedule,
    fst (serve (0%nat :: schedule)
           {| server := s; requests := [Gated (calling p n world)] |})
    = fst (serve schedule {| server := s; requests := [Gone] |}).
Proof.
  intros H schedule. apply (serve_step _ _ Silent).
  unfold serviceStep. cbn [requests nth_error server requestStep].
  rewrite H. reflexivity.
Qed.

(** If the sequential [acquireMemory] returns, the request that makes
    the call with no other request running reaches, step by step, the same
    server, and goes on as the handler does: to the deferred release
    after a grant, out after an error. *)
Lemma acquireMemory_served_alone world :
  forall s n s' e,
    acquireMemory world s n = Returned s' e ->
    exists schedule,
      fst (serve schedule
             {| server := s;
                requests := [Gated (calling AtLoopHead n world)] |})
      = {| server := s';
           requests := [match e with
                        | Some _ => Gone
                        | None => Gated (admittedThread n)
                        end] |}.
Proof.
  induction world as [|w world IH]; intros s n s' e H.
  - rewrite acquireMemory_nil in H.
    destruct (memBudgetBytes s =? 0) eqn:Hb; [|discriminate].
    injection H as <- <-. exists [0; 0]%nat.
    rewrite (calling_step AtLoopHead n [] s AtReserve [])
      by (unfold threadStep; simpl; rewrite Hb; reflexivity).
    rewrite (calling_grant AtReserve n [] s) by reflexivity.
    reflexivity.
  - rewrite acquireMemory_cons in H.
    destruct (memBudgetBytes s =? 0) eqn:Hb.
    { injection H as <- <-. exists [0; 0]%nat.
      rewrite (calling_step AtLoopHead n (w :: world) s AtReserve (w :: world))
        by (unfold threadStep; simpl; rewrite Hb; reflexivity).
      rewrite (calling_grant AtReserve n (w :: world) s) by reflexivity.
      reflexivity. }
    assert (Hhead : forall schedule,
      fst (serve (0%nat :: schedule)
             {| server := s;
                requests := [Gated (calling AtLoopHead n (w :: world))] |})
      = fst (serve schedule
               {| server := s;
                  requests := [Gated (calling (AtProbe (memBudgetBytes s)) n
                                        (w :: world))] |})).
    { apply calling_step. unfold threadStep; simpl. rewrite Hb. reflexivity. }
    assert (Hwait :
      wait w s (fun s => acquireMemory world s n) = Returned s' e ->
      exists schedule,
        fst (serve schedule
               {| server := s;
                  requests := [Gated (calling AtSelect n (w :: world))] |})
        = {| server := s';
             requests := [match e with
                          | Some _ => Gone
                          | None => Gated (admittedThread n)
                          end] |}).
    { intros Hw. unfold wait in Hw.
      destruct (selected w) as [e0|] eqn:Hsel.
      - injection Hw as <- <-. exists [0%nat].
        rewrite (calling_cancel AtSelect n (w :: world) s e0)
          by (unfold threadStep; simpl; rewrite Hsel; reflexivity).
        reflexivity.
      - destruct (IH s n s' e Hw) as [schedule Hs].
        exists (0%nat :: schedule).
        rewrite (calling_step AtSelect n (w :: world) s AtLoopHead world)
          by (unfold threadStep; simpl; rewrite Hsel; reflexivity).
        exact Hs. }
    destruct (readCgroupMemoryCurrent (files w) (CgroupV2Root (cfg s)))
      as [cur|e0] eqn:Hcur.
    + assert (Hprobe : forall schedule,
        fst (serve (0%nat :: schedule)
               {| server := s;
                  requests := [Gated (calling (AtProbe (memBudgetBytes s)) n
                                        (w :: world))] |})
        = fst (serve schedule
                 {| server := s;
                    requests := [Gated (calling (AtTest (memBudgetBytes s) cur)
                                          n (w :: world))] |})).
      { apply calling_step. unfold threadStep; simpl. rewrite Hcur.
        reflexivity. }
      destruct (fits s cur n (memBudgetBytes s)) eqn:Hfit.
      * injection H as <- <-. exists [0; 0; 0]%nat.
        rewrite Hhead, Hprobe.
        rewrite (calling_grant (AtTest (memBudgetBytes s) cur) n (w :: world) s)
          by (unfold threadStep; simpl; rewrite Hfit; reflexivity).
        reflexivity.
      * destruct (Hwait H) as [schedule Hs].
        exists (0 :: 0 :: 0 :: schedule)%nat.
        rewrite Hhead, Hprobe.
        rewrite (calling_step (AtTest (memBudgetBytes s) cur) n (w :: world) s
                   AtSelect (w :: world))
          by (unfold threadStep; simpl; rewrite Hfit; reflexivity).
        exact Hs.
    + destruct (Hwait H) as [schedule Hs].
      exists (0 :: 0 :: schedule)%nat.
      rewrite Hhead.
      rewrite (calling_step (AtProbe (memBudgetBytes s)) n (w :: world) s
                 AtSelect (w :: world))
        by (unfold threadStep; simpl; rewrite Hcur; reflexivity).
      exact Hs.
Qed.

(** The server that the handler returns is the one a request served
    alone leaves behind. *)
Lemma HandleCompile_served_alone s w r req s' effects :
  valid w r req ->
  EnableResourceGating (cfg s) = true ->
  HandleCompile s w r = Some (s', effects) ->
  exists schedule,
    fst (serve schedule
           {| server := s; requests := [Arrived (cgroup w) (rounds w)] |})
    = {| server := s'; requests := [Gone] |}.
Proof.
  intros Hv Hg H.
  rewrite (HandleCompile_valid s w r req Hv), Hg in H.
  destruct (ensureMemBudget (cgroup w) s) as [s1 [e|]] eqn:Hens.
  - injection H as <- _. exists [0%nat].
    erewrite serve_step
      by (unfold serviceStep; cbn [requests nth_error server requestStep];
          rewrite Hens; reflexivity).
    reflexivity.
  - assert (Harrive : forall schedule,
      fst (serve (0 :: 0 :: schedule)%nat
             {| server := s; requests := [Arrived (cgroup w) (rounds w)] |})
      = fst (serve schedule
               {| server := s1;
                  requests := [Gated (calling AtLoopHead (estimate (cfg s1))
                                        (rounds w))] |})).
    { intros schedule.
      erewrite serve_step
        by (unfold serviceStep; cbn [requests nth_error server requestStep];
            rewrite Hens; reflexivity).
      erewrite serve_step by reflexivity. reflexivity. }
    destruct (acquireMemory (rounds w) s1 (estimate (cfg s1)))
      as [s2 [e|]|s2] eqn:Hacq; [| |discriminate].
    + injection H as <- _.
      destruct (acquireMemory_served_alone _ _ _ _ _ Hacq) as [schedule Hs].
      exists (0 :: 0 :: schedule)%nat. rewrite Harrive. exact Hs.
    + injection H as <- _.
      destruct (acquireMemory_served_alone _ _ _ _ _ Hacq) as [schedule Hs].
      exists ((0 :: 0 :: schedule) ++ [0])%nat.
      rewrite serve_app, Harrive, Hs.
      erewrite serve_step by reflexivity. reflexivity.
Qed.

(** Whatever becomes of the job, the deferred release is the handler's
    last action, after the response, and the only release. *)
Lemma deferred_release s w r s' effects est :
  HandleCompile s w r = Some (s', effects) ->
  In (CallAcquireMemory est None) effects ->
  est = estimate (cfg s)
  /\ exists before resp,
       effects = before ++ [Respond resp; CallReleaseMemory est]
       /\ filter isRelease before = [].
Proof.
  intros H Hin.
  unfold HandleCompile, reject in H.
  destruct (negb (Method r =? "POST")%string).
  { injection H as <- <-. destruct Hin as [Hin|[]]; discriminate Hin. }
  destruct (ensureDirs w).
  { injection H as <- <-. destruct Hin as [Hin|[]]; discriminate Hin. }
  destruct (Body r) as [req|].
  2:{ injection H as <- <-. destruct Hin as [Hin|[]]; discriminate Hin. }
  destruct (TrimSpace (Code req) =? "")%string.
  { injection H as <- <-. destruct Hin as [Hin|[]]; discriminate Hin. }
  destruct (badType _).
  { injection H as <- <-. destruct Hin as [Hin|[]]; discriminate Hin. }
  set (lang := if (_ =? "")%string then "c" else _) in H.
  destruct (EnableResourceGating (cfg s)).
  2:{ injection H as <- <-.
      destruct (compileJob_shape s w req lang) as (b & resp & Heq & Hb).
      rewrite Heq in Hin. apply in_app_or in Hin as [Hin|[Hin|[]]].
      - now apply forallb_isFileOrRun_not_acquire in Hin.
      - discriminate Hin. }
  pose proof (ensureMemBudget_cfg (cgroup w) s) as Hcfg.
  destruct (ensureMemBudget (cgroup w) s) as [s1 [e|]]; simpl in Hcfg.
  { injection H as <- <-.
    destruct Hin as [Hin|[Hin|[]]]; discriminate Hin. }
  pose proof (acquireMemory_cases (rounds w) s1 (estimate (cfg s1))) as Hacq.
  destruct (acquireMemory (rounds w) s1 (estimate (cfg s1)))
    as [s2 [e|]|s2]; [| |discriminate].
  { injection H as <- <-.
    destruct Hin as [Hin|[Hin|[Hin|[]]]]; discriminate Hin. }
  injection H as <- <-. subst s2.
  destruct (compileJob_shape (reserve s1 (estimate (cfg s1))) w req lang)
    as (b & resp & Heq & Hb).
  rewrite Heq in Hin |- *.
  assert (Hest' : est = estimate (cfg s1)).
  { destruct Hin as [Hin|[Hin|Hin]]; [discriminate Hin|congruence|].
    apply in_app_or in Hin as [Hin|[Hin|[]]]; [|discriminate Hin].
    apply in_app_or in Hin as [Hin|[Hin|[]]]; [|discriminate Hin].
    now apply forallb_isFileOrRun_not_acquire in Hin. }
  rewrite <- Hest' in *. split; [now rewrite Hest', Hcfg|].
  exists ([CallEnsureMemBudget; CallAcquireMemory est None] ++ b), resp.
  split.
  - simpl. rewrite <- app_assoc. reflexivity.
  - simpl. now apply forallb_isFileOrRun_no_release.
Qed.

(** C5 (amended).  In every run of the handler in which [acquireMemory]
    succeeds, whatever becomes of the job (a directory or the source
    file cannot be written, the compiler fails, the compile succeeds),
    [releaseMemory] is called exactly once, with the estimate that was
    acquired, as the handler's last action, after the response.  On the
    shared counter the two calls cancel out.  Let any number of requests
    be served together, some admitted, some cancelled while they wait,
    some turned away because the budget cannot be read; let [reserved]
    start non-negative and let that value and one estimate per request
    fit an [int64] together.  Then, however the steps interleave, every
    grant adds exactly the estimate and every release takes exactly the
    estimate away, [reserved] is at every moment its value at the start
    plus the estimates of the requests admitted and not yet released, and
    it is back at its value at the start once every handler has
    returned.  A request served with no other is the run of the handler:
    it leaves the server that [HandleCompile] returns. *)
Theorem admission_symmetry :
  (forall (s : Server) (w : World) (r : Request) (s' : Server)
          (effects : list Effect) (est : Z),
      HandleCompile s w r = Some (s', effects) ->
      In (CallAcquireMemory est None) effects ->
      est = estimate (cfg s)
      /\ exists before resp,
           effects = before ++ [Respond resp; CallReleaseMemory est]
           /\ filter isRelease before = [])
  /\ (forall (s0 : Server) (arrivals : list (Files * list Attempt))
             (schedule : list nat),
         0 <= memReservedBytes s0 ->
         memReservedBytes s0
         + Z.of_nat (List.length arrivals) * estimate (cfg s0)
         <= Int64.max_int ->
         let sv0 :=
           {| server := s0;
              requests := map (fun a => Arrived (fst a) (snd a)) arrivals |} in
         let final := fst (serve schedule sv0) in
         Forall (exact (estimate (cfg s0))) (snd (serve schedule sv0))
         /\ memReservedBytes (server final)
            = memReservedBytes s0 + sumOf holding (requests final)
         /\ (Forall (fun p => p = Gone) (requests final) ->
             memReservedBytes (server final) = memReservedBytes s0))
  /\ (forall (s : Server) (w : World) (r : Request) (req : CompileRequest)
             (s' : Server) (effects : list Effect),
         valid w r req ->
         EnableResourceGating (cfg s) = true ->
         HandleCompile s w r = Some (s', effects) ->
         exists schedule,
           fst (serve schedule
                  {| server := s;
                     requests := [Arrived (cgroup w) (rounds w)] |})
           = {| server := s'; requests := [Gone] |}).
Proof.
  split; [|split].
  - intros s w r s' effects est. apply deferred_release.
  - intros s0 arrivals schedule Hr0 Hfit sv0 final.
    destruct (sumOf_arrivals (estimate (cfg s0)) arrivals) as [Hheld Hpend].
    assert (Hinit : settled (cfg s0) (memReservedBytes s0) sv0).
    { split; [exact Hr0|]. split; [reflexivity|]. split; [|split]; simpl.
      - rewrite Forall_map. apply Forall_forall. intros a _. exact I.
      - rewrite Hheld. lia.
      - rewrite Hpend. exact Hfit. }
    destruct (serve_settled (cfg s0) (memReservedBytes s0) schedule sv0 Hinit)
      as [Htrace (_ & _ & _ & Hsum & _)].
    split; [exact Htrace|]. split; [exact Hsum|].
    intros Hgone. fold final in Hsum. rewrite Hsum, (sumOf_gone _ Hgone). lia.
  - intros s w r req s' effects. apply HandleCompile_served_alone.
Qed.

Lemma admission_symmetry_witness :
  let full := mkAttempt (cgroupDir "max" "1073741824") (CtxDone canceled) in
  let sv0 :=
    {| server := gatingServer 256 GiB 0;
       requests := map (fun a => Arrived (fst a) (snd a))
                       [(emptyDir, [halfUsed]); (emptyDir, [halfUsed]);
                        (emptyDir, [full])] |} in
  let admitted := [0; 0; 0; 0; 0; 2; 2; 2; 2; 2; 2; 1; 1; 1; 1; 1]%nat in
  memReservedBytes (server (fst (serve admitted sv0))) = 512 * MiB
  /\ requests (fst (serve admitted sv0))
     = [Gated (admittedThread (256 * MiB)); Gated (admittedThread (256 * MiB));
        Gone]
  /\ memReservedBytes (server (fst (serve (admitted ++ [1; 0]%nat) sv0))) = 0.
Proof.
  intros full sv0 admitted.
  assert (Hfit : memReservedBytes (gatingServer 256 GiB 0)
                 + Z.of_nat (List.length
                               [(emptyDir, [halfUsed]); (emptyDir, [halfUsed]);
                                (emptyDir, [full])])
                   * estimate (cfg (gatingServer 256 GiB 0))
                 <= Int64.max_int)
    by (vm_compute; discriminate).
  assert (Hreq : requests (fst (serve admitted sv0))
                 = [Gated (admittedThread (256 * MiB));
                    Gated (admittedThread (256 * MiB)); Gone])
    by (vm_compute; reflexivity).
  assert (Hend : requests (fst (serve (admitted ++ [1; 0]%nat) sv0))
                 = [Gone; Gone; Gone])
    by (vm_compute; reflexivity).
  split; [|split; [exact Hreq|]].
  - destruct (proj1 (proj2 admission_symmetry) (gatingServer 256 GiB 0) _
                admitted ltac:(vm_compute; discriminate) Hfit)
      as (_ & Hsum & _).
    fold sv0 in Hsum. rewrite Hsum, Hreq. reflexivity.
  - destruct (proj1 (proj2 admission_symmetry) (gatingServer 256 GiB 0) _
                (admitted ++ [1; 0]%nat) ltac:(vm_compute; discriminate) Hfit)
      as (_ & _ & Hback).
    fold sv0 in Hback. rewrite Hback; [reflexivity|].
    rewrite Hend. repeat constructor.
Defined.

End SymmetryFacts.
